(** * A UTXO indexer: block ingestion, rollback and the store behind them

    A shallow embedding of the indexing core of the repository, and proofs
    about it.

    The embedding, from the sources:

    - [BlockService], [RollbackService] and [BalanceService]
      (src/services), written against the repository interface
      [IUTXORepository] (src/repositories/utxo.repository.ts), here a type
      class;
    - the in-memory store [InMemoryUTXORepository]
      (spec/repositories/in-memory-utxo.repository.ts), an instance of the
      class;
    - [Throwing], a store whose methods may take the [catch] branch that
      every repository method has;
    - the error classes and [getErrorStatusCode] (src/errors), and the part
      of the two write routes that turns a service result into a reply
      (src/routes); further on, the handlers of these routes in full, with
      the header that sets the time to wait for the mutex, the balance
      route, and the block builder of the test suites.

    Conventions of the embedding.

    - A JavaScript string is the list of its UTF-16 code units ([JSString]):
      [length], [padEnd] and [substring] count code units.
    - A JavaScript number is an integer of [Z]: heights, indices and values
      are taken in the range where double arithmetic is exact.
    - [async] methods become state-passing functions: a method of a
      repository [R] has type [R -> Result A AppError * R].
    - [new Date()] reads the wall clock, which is not modelled: [Date] is the
      one-point type.  [undefined] and [null] are both [None].
    - Node's [createHash("sha256")] is FIPS 180-4 SHA-256; it is written out
      in [Module SHA256] so that block identifiers can be computed, and
      checked against the test vectors of the standard.
    - The relational store (src/repositories/utxo.repository.impl.ts) runs
      its queries in PostgreSQL and is not embedded; where its unique index
      on [(txid, vout)] makes it differ from the in-memory store, the
      statements say so.

    The file has the definitions first (the embedding, then the words of
    the specification, sample data, and what is observed of stores and
    blocks), and the proofs after them: first those of the statements of
    the specification, then what the code shows beyond them, method by
    method and then for whole blocks and rollbacks. *)

From Stdlib Require Import String Ascii.
From Stdlib Require Import ZArith List Bool Lia DecimalZ.
Import ListNotations.

Local Open Scope Z_scope.

(** ** JavaScript strings *)

Definition JSString := list Z.

(** The code units of an ASCII literal. *)
Definition js (s : string) : JSString :=
  map (fun a => Z.of_N (N_of_ascii a)) (list_ascii_of_string s).

Fixpoint JSString_eqb (a b : JSString) : bool :=
  match a, b with
  | [], [] => true
  | x :: a', y :: b' => (x =? y) && JSString_eqb a' b'
  | _, _ => false
  end.

(** [s.padEnd(n, "0")]: [s] itself when it already has [n] code units or
    more, else [s] followed by as many ['0'] as are missing. *)
Definition padEnd0 (n : nat) (s : JSString) : JSString :=
  s ++ repeat 48 (n - length s).

(** [s.substring(0, n)]. *)
Definition substring0 (n : nat) (s : JSString) : JSString := firstn n s.

(** Template-literal rendering of an integer number, [`${n}`]. *)
Fixpoint digitsOfUint (d : Decimal.uint) : JSString :=
  match d with
  | Decimal.Nil => []
  | Decimal.D0 d => 48 :: digitsOfUint d
  | Decimal.D1 d => 49 :: digitsOfUint d
  | Decimal.D2 d => 50 :: digitsOfUint d
  | Decimal.D3 d => 51 :: digitsOfUint d
  | Decimal.D4 d => 52 :: digitsOfUint d
  | Decimal.D5 d => 53 :: digitsOfUint d
  | Decimal.D6 d => 54 :: digitsOfUint d
  | Decimal.D7 d => 55 :: digitsOfUint d
  | Decimal.D8 d => 56 :: digitsOfUint d
  | Decimal.D9 d => 57 :: digitsOfUint d
  end.

Definition numberToString (n : Z) : JSString :=
  match Z.to_int n with
  | Decimal.Pos d => digitsOfUint d
  | Decimal.Neg d => 45 :: digitsOfUint d
  end.

(** UTF-8 encoding of a string, as [hash.update(string)] does it: a
    surrogate pair is one four-byte sequence, a lone surrogate is encoded
    as U+FFFD. *)
Definition isHighSurrogate (c : Z) : bool := (55296 <=? c) && (c <? 56320).
Definition isLowSurrogate (c : Z) : bool := (56320 <=? c) && (c <? 57344).

Definition utf8_3 (c : Z) : list Z :=
  [224 + c / 4096; 128 + (c / 64) mod 64; 128 + c mod 64].

Definition utf8_4 (cp : Z) : list Z :=
  [240 + cp / 262144; 128 + (cp / 4096) mod 64;
   128 + (cp / 64) mod 64; 128 + cp mod 64].

Fixpoint utf8 (s : JSString) : list Z :=
  match s with
  | [] => []
  | c :: rest =>
      if c <? 128 then c :: utf8 rest
      else if c <? 2048 then [192 + c / 64; 128 + c mod 64] ++ utf8 rest
      else if isHighSurrogate c then
        match rest with
        | d :: rest' =>
            if isLowSurrogate d
            then utf8_4 (65536 + (c - 55296) * 1024 + (d - 56320)) ++ utf8 rest'
            else utf8_3 65533 ++ utf8 rest
        | [] => utf8_3 65533
        end
      else if isLowSurrogate c then utf8_3 65533 ++ utf8 rest
      else utf8_3 c ++ utf8 rest
  end.

(** ** SHA-256 (FIPS 180-4), on bytes *)

Module SHA256.

Definition wrap (x : Z) : Z := x mod 4294967296.
Definition add (x y : Z) : Z := wrap (x + y).
Definition rotr (n x : Z) : Z :=
  Z.lor (Z.shiftr x n) (wrap (Z.shiftl x (32 - n))).
Definition shr (n x : Z) : Z := Z.shiftr x n.
Definition not32 (x : Z) : Z := Z.lxor x 4294967295.

Definition Ch (x y z : Z) : Z := Z.lxor (Z.land x y) (Z.land (not32 x) z).
Definition Maj (x y z : Z) : Z :=
  Z.lxor (Z.lxor (Z.land x y) (Z.land x z)) (Z.land y z).
Definition bigSigma0 (x : Z) : Z :=
  Z.lxor (Z.lxor (rotr 2 x) (rotr 13 x)) (rotr 22 x).
Definition bigSigma1 (x : Z) : Z :=
  Z.lxor (Z.lxor (rotr 6 x) (rotr 11 x)) (rotr 25 x).
Definition smallSigma0 (x : Z) : Z :=
  Z.lxor (Z.lxor (rotr 7 x) (rotr 18 x)) (shr 3 x).
Definition smallSigma1 (x : Z) : Z :=
  Z.lxor (Z.lxor (rotr 17 x) (rotr 19 x)) (shr 10 x).

(** The first sixty-four primes; the round constants are the first 32
    bits of the fractional parts of their cube roots, the initial hash
    value those of the square roots of the first eight. *)
Definition primes : list Z :=
  [2; 3; 5; 7; 11; 13; 17; 19; 23; 29; 31; 37; 41; 43; 47; 53; 59; 61; 67;
   71; 73; 79; 83; 89; 97; 101; 103; 107; 109; 113; 127; 131; 137; 139; 149;
   151; 157; 163; 167; 173; 179; 181; 191; 193; 197; 199; 211; 223; 227;
   229; 233; 239; 241; 251; 257; 263; 269; 271; 277; 281; 283; 293; 307;
   311].

(** Integer cube root, one bit at a time from bit [bits - 1] down. *)
Fixpoint cubeRoot (bits : nat) (n r : Z) : Z :=
  match bits with
  | O => r
  | S b =>
      let r' := r + 2 ^ Z.of_nat b in
      cubeRoot b n (if r' * r' * r' <=? n then r' else r)
  end.

Definition fractionOfCubeRoot (p : Z) : Z :=
  wrap (cubeRoot 36 (p * 2 ^ 96) 0).

Definition fractionOfSquareRoot (p : Z) : Z :=
  wrap (Z.sqrt (p * 2 ^ 64)).

Definition K : list Z := Eval vm_compute in map fractionOfCubeRoot primes.

(** The eight working variables, also the intermediate hash value. *)
Record state := mkState
  { sa : Z; sb : Z; sc : Z; sd : Z; se : Z; sf : Z; sg : Z; sh : Z }.

Definition H0 : state :=
  Eval vm_compute in
    match map fractionOfSquareRoot (firstn 8 primes) with
    | [a; b; c; d; e; f; g; h] => mkState a b c d e f g h
    | _ => mkState 0 0 0 0 0 0 0 0
    end.

(** Padding: a one bit, zero bits up to 56 modulo 64 bytes, then the
    length in bits as a 64-bit big-endian number. *)
Definition bigEndian (bytes : nat) (x : Z) : list Z :=
  map (fun i => (x / 2 ^ (8 * Z.of_nat i)) mod 256) (rev (seq 0 bytes)).

Definition pad (msg : list Z) : list Z :=
  let len := Z.of_nat (length msg) in
  msg ++ [128] ++ repeat 0 (Z.to_nat ((55 - len) mod 64))
      ++ bigEndian 8 (8 * len).

(** Big-endian 32-bit words of a byte sequence. *)
Fixpoint words (bytes : list Z) : list Z :=
  match bytes with
  | b0 :: b1 :: b2 :: b3 :: rest =>
      (((b0 * 256 + b1) * 256 + b2) * 256 + b3) :: words rest
  | _ => []
  end.

(** The message schedule, kept newest word first: [W_t] from
    [W_(t-2)], [W_(t-7)], [W_(t-15)], [W_(t-16)]. *)
Fixpoint extend (steps : nat) (rev_w : list Z) : list Z :=
  match steps with
  | O => rev_w
  | S n =>
      let wt := add (add (smallSigma1 (nth 1 rev_w 0)) (nth 6 rev_w 0))
                    (add (smallSigma0 (nth 14 rev_w 0)) (nth 15 rev_w 0)) in
      extend n (wt :: rev_w)
  end.

Definition schedule (block : list Z) : list Z :=
  rev (extend 48 (rev block)).

Definition round (s : state) (kw : Z * Z) : state :=
  let t1 := add (add (add (sh s) (bigSigma1 (se s)))
                     (add (Ch (se s) (sf s) (sg s)) (fst kw))) (snd kw) in
  let t2 := add (bigSigma0 (sa s)) (Maj (sa s) (sb s) (sc s)) in
  mkState (add t1 t2) (sa s) (sb s) (sc s) (add (sd s) t1) (se s) (sf s) (sg s).

Definition compress (h : state) (block : list Z) : state :=
  let s := fold_left round (combine K (schedule block)) h in
  mkState (add (sa h) (sa s)) (add (sb h) (sb s))
          (add (sc h) (sc s)) (add (sd h) (sd s))
          (add (se h) (se s)) (add (sf h) (sf s))
          (add (sg h) (sg s)) (add (sh h) (sh s)).

(** One compression per sixteen words; [fuel] bounds the number of
    blocks and is always taken as the number of words. *)
Fixpoint blocks (fuel : nat) (h : state) (ws : list Z) : state :=
  match fuel, ws with
  | S n, _ :: _ => blocks n (compress h (firstn 16 ws)) (skipn 16 ws)
  | _, _ => h
  end.

Definition digest (msg : list Z) : state :=
  let ws := words (pad msg) in
  blocks (length ws) H0 ws.

(** [digest("hex")]: two lowercase hexadecimal digits per byte. *)
Definition hexDigit (d : Z) : Z := if d <? 10 then 48 + d else 87 + d.

Definition hexWord (x : Z) : JSString :=
  map (fun i => hexDigit (Z.land (Z.shiftr x (4 * i)) 15))
      [7; 6; 5; 4; 3; 2; 1; 0].

Definition hex (s : state) : JSString :=
  hexWord (sa s) ++ hexWord (sb s) ++ hexWord (sc s) ++ hexWord (sd s)
  ++ hexWord (se s) ++ hexWord (sf s) ++ hexWord (sg s) ++ hexWord (sh s).

End SHA256.

(** [createHash("sha256").update(s).digest("hex")]. *)
Definition sha256hex (s : JSString) : JSString :=
  SHA256.hex (SHA256.digest (utf8 s)).

(** ** [Map<string, V>] and [Set<string>]

    A [Map] keeps its entries in insertion order; [set] on a key that is
    present replaces the value in place. *)

Module JSMap.
Section WithValue.
Context {V : Type}.

Definition t := list (JSString * V).

Fixpoint get (m : t) (k : JSString) : option V :=
  match m with
  | [] => None
  | (k', v) :: m' => if JSString_eqb k' k then Some v else get m' k
  end.

Fixpoint set (m : t) (k : JSString) (v : V) : t :=
  match m with
  | [] => [(k, v)]
  | (k', v') :: m' =>
      if JSString_eqb k' k then (k', v) :: m' else (k', v') :: set m' k v
  end.

Definition delete (m : t) (k : JSString) : t :=
  filter (fun e => negb (JSString_eqb (fst e) k)) m.

Definition values (m : t) : list V := map snd m.
Definition entries (m : t) : list (JSString * V) := m.
End WithValue.
Arguments t : clear implicits.
End JSMap.

Module JSSet.
Definition t := list JSString.

Definition has (s : t) (x : JSString) : bool := existsb (JSString_eqb x) s.
Definition add (s : t) (x : JSString) : t := if has s x then s else s ++ [x].
Definition size (s : t) : nat := length s.
Definition ofArray (xs : list JSString) : t := fold_left add xs [].
Definition toArray (s : t) : list JSString := s.
End JSSet.

(** ** Blocks (src/types/block.types.ts) *)

Record Output := mkOutput { address : JSString; value : Z }.
Record Input := mkInput { txId : JSString; index : Z }.
Record Transaction := mkTransaction
  { tx_id : JSString; inputs : list Input; outputs : list Output }.
Record Block := mkBlock
  { id : JSString; height : Z; transactions : list Transaction }.

(** ** Rows of the [utxos] table (src/db/schema.ts) *)

Definition Date := unit.
Definition now : Date := tt.

Record UTXO := mkUTXO
  { utxo_id : Z;
    txid : JSString;
    vout : Z;
    utxo_address : JSString;
    utxo_value : Z;
    scriptPubkey : JSString;
    blockHeight : Z;
    spent : bool;
    spentTxid : option JSString;
    spentAt : option Date;
    createdAt : Date }.

(** The insert type.  Of its optional columns only [spent] is ever
    supplied by the services; [id], [spentTxid], [spentAt] and
    [createdAt] are always left out. *)
Record NewUTXO := mkNewUTXO
  { new_txid : JSString;
    new_vout : Z;
    new_address : JSString;
    new_value : Z;
    new_scriptPubkey : JSString;
    new_blockHeight : Z;
    new_spent : option bool }.

Record Ref := mkRef { ref_txId : JSString; ref_vout : Z }.

(** ** Errors (src/errors) and results (neverthrow) *)

(** The fields of [InvalidBlockHeightError] are [statusCode],
    [currentHeight] and [height], the height of the block at hand, here
    [observed]. *)
Inductive AppError :=
| InvalidBlockHeightError (statusCode : Z) (currentHeight observed : option Z)
| InvalidInputOutputSumError (statusCode : Z)
| InvalidBlockIdError (statusCode : Z)
| MutexTimeoutError (statusCode : Z)
| DatabaseError (statusCode : Z)
| AddressNotFoundError (statusCode : Z)
| UTXONotFoundError (statusCode : Z)
| InvalidRollbackHeightError (statusCode : Z)
                             (targetHeight currentHeight : option Z)
| NoBlocksToRollbackError (statusCode : Z) (targetHeight currentHeight : Z).

Definition errorName (e : AppError) : JSString :=
  match e with
  | InvalidBlockHeightError _ _ _ => js "InvalidBlockHeight"
  | InvalidInputOutputSumError _ => js "InvalidInputOutputSum"
  | InvalidBlockIdError _ => js "InvalidBlockId"
  | MutexTimeoutError _ => js "MutexTimeout"
  | DatabaseError _ => js "DatabaseError"
  | AddressNotFoundError _ => js "AddressNotFound"
  | UTXONotFoundError _ => js "UTXONotFound"
  | InvalidRollbackHeightError _ _ _ => js "InvalidRollbackHeight"
  | NoBlocksToRollbackError _ _ _ => js "NoBlocksToRollback"
  end.

Definition errorMessage (e : AppError) : JSString :=
  match e with
  | InvalidBlockHeightError _ _ _ =>
      js "Block height must be exactly one unit higher than the current height"
  | InvalidInputOutputSumError _ =>
      js "Sum of input values must equal sum of output values"
  | InvalidBlockIdError _ => js "Block ID is invalid"
  | MutexTimeoutError _ => js "Request timed out waiting for mutex"
  | DatabaseError _ => js "Database operation failed"
  | AddressNotFoundError _ => js "Address not found"
  | UTXONotFoundError _ => js "UTXO not found"
  | InvalidRollbackHeightError _ _ _ => js "Invalid rollback height"
  | NoBlocksToRollbackError _ _ _ => js "No blocks exist to rollback"
  end.

Definition errorStatusCode (e : AppError) : Z :=
  match e with
  | InvalidBlockHeightError c _ _ | InvalidInputOutputSumError c
  | InvalidBlockIdError c | MutexTimeoutError c | DatabaseError c
  | AddressNotFoundError c | UTXONotFoundError c
  | InvalidRollbackHeightError c _ _ | NoBlocksToRollbackError c _ _ => c
  end.

(** [getErrorStatusCode]: every error class declares [statusCode: number],
    so the first test of the source always succeeds and the table by name
    that follows it is never consulted. *)
Definition getErrorStatusCode (e : AppError) : Z := errorStatusCode e.

Inductive Result (T E : Type) :=
| ok (v : T)
| err (e : E).
Arguments ok {T E} v.
Arguments err {T E} e.

Definition isErr {T E} (r : Result T E) : bool :=
  match r with ok _ => false | err _ => true end.
Definition isOk {T E} (r : Result T E) : bool := negb (isErr r).

(** ** The repository interface (src/repositories/utxo.repository.ts) *)

Class IUTXORepository (R : Type) := {
  getBalanceByAddress : JSString -> R -> Result Z AppError * R;
  findByTxIdsAndVouts : list Ref -> R -> Result (list UTXO) AppError * R;
  insert : NewUTXO -> R -> Result unit AppError * R;
  markAsSpent : JSString -> Z -> JSString -> R -> Result unit AppError * R;
  getMaxBlockHeight : R -> Result Z AppError * R;
  findUTXOsByBlockHeight : Z -> R -> Result (list UTXO) AppError * R;
  unmarkAsSpent : list JSString -> R -> Result unit AppError * R;
  deleteUTXOsByBlockHeight : Z -> R -> Result unit AppError * R
}.

(** ** The in-memory store
    (spec/repositories/in-memory-utxo.repository.ts)

    None of its method bodies can throw on the values of the model, so the
    [catch] branches, which return a [DatabaseError], are never taken. *)

Module InMemory.

Record Store := mkStore { utxos : JSMap.t UTXO; nextId : Z }.

Definition empty : Store := mkStore [] 1.

Definition getKey (txId : JSString) (vout : Z) : JSString :=
  txId ++ js ":" ++ numberToString vout.

(** [{ ...utxo, spent: true, spentTxid, spentAt: new Date() }] *)
Definition withSpent (utxo : UTXO) (spentTxid : JSString) : UTXO :=
  mkUTXO (utxo_id utxo) (txid utxo) (vout utxo) (utxo_address utxo)
         (utxo_value utxo) (scriptPubkey utxo) (blockHeight utxo)
         true (Some spentTxid) (Some now) (createdAt utxo).

(** [{ ...utxo, spent: false, spentTxid: null, spentAt: null }] *)
Definition withUnspent (utxo : UTXO) : UTXO :=
  mkUTXO (utxo_id utxo) (txid utxo) (vout utxo) (utxo_address utxo)
         (utxo_value utxo) (scriptPubkey utxo) (blockHeight utxo)
         false None None (createdAt utxo).

Definition getBalanceByAddress (address : JSString) (s : Store)
  : Result Z AppError * Store :=
  (ok (fold_left
         (fun total utxo =>
            if JSString_eqb (utxo_address utxo) address && negb (spent utxo)
            then total + utxo_value utxo else total)
         (JSMap.values (utxos s)) 0), s).

Definition findByTxIdsAndVouts (refs : list Ref) (s : Store)
  : Result (list UTXO) AppError * Store :=
  (ok (fold_left
         (fun results ref =>
            let key := getKey (ref_txId ref) (ref_vout ref) in
            match JSMap.get (utxos s) key with
            | Some utxo => if negb (spent utxo) then results ++ [utxo]
                           else results
            | None => results
            end)
         refs []), s).

Definition insert (utxo : NewUTXO) (s : Store)
  : Result unit AppError * Store :=
  let key := getKey (new_txid utxo) (new_vout utxo) in
  let fullUtxo :=
    mkUTXO (nextId s) (new_txid utxo) (new_vout utxo) (new_address utxo)
           (new_value utxo) (new_scriptPubkey utxo) (new_blockHeight utxo)
           (match new_spent utxo with Some b => b | None => false end)
           None None now in
  (ok tt, mkStore (JSMap.set (utxos s) key fullUtxo) (nextId s + 1)).

Definition markAsSpent (txId : JSString) (vout : Z) (spentTxid : JSString)
           (s : Store) : Result unit AppError * Store :=
  let key := getKey txId vout in
  match JSMap.get (utxos s) key with
  | None => (err (UTXONotFoundError 404), s)
  | Some utxo =>
      if spent utxo then (err (UTXONotFoundError 404), s)
      else
        let updated := withSpent utxo spentTxid in
        (ok tt, mkStore (JSMap.set (utxos s) key updated) (nextId s))
  end.

Definition getMaxBlockHeight (s : Store) : Result Z AppError * Store :=
  (ok (fold_left
         (fun maxHeight utxo =>
            if blockHeight utxo >? maxHeight then blockHeight utxo
            else maxHeight)
         (JSMap.values (utxos s)) 0), s).

Definition findUTXOsByBlockHeight (minHeight : Z) (s : Store)
  : Result (list UTXO) AppError * Store :=
  (ok (fold_left
         (fun results utxo =>
            if blockHeight utxo >? minHeight then results ++ [utxo]
            else results)
         (JSMap.values (utxos s)) []), s).

(** A string is truthy when it is not empty. *)
Definition truthy (x : option JSString) : bool :=
  match x with Some (_ :: _) => true | _ => false end.

Definition unmarkAsSpent (txIds : list JSString) (s : Store)
  : Result unit AppError * Store :=
  let txIdSet := JSSet.ofArray txIds in
  let m :=
    fold_left
      (fun m e =>
         let '(key, utxo) := e in
         if spent utxo && truthy (spentTxid utxo)
            && match spentTxid utxo with
               | Some x => JSSet.has txIdSet x
               | None => false
               end
         then
           let updated := withUnspent utxo in
           JSMap.set m key updated
         else m)
      (JSMap.entries (utxos s)) (utxos s) in
  (ok tt, mkStore m (nextId s)).

Definition deleteUTXOsByBlockHeight (minHeight : Z) (s : Store)
  : Result unit AppError * Store :=
  let keysToDelete :=
    fold_left
      (fun keys e =>
         let '(key, utxo) := e in
         if blockHeight utxo >? minHeight then keys ++ [key] else keys)
      (JSMap.entries (utxos s)) [] in
  (ok tt, mkStore (fold_left JSMap.delete keysToDelete (utxos s)) (nextId s)).

(** Test-only: [clearAll]. *)
Definition clearAll (s : Store) : Store := empty.

End InMemory.

#[export] Instance InMemoryUTXORepository : IUTXORepository InMemory.Store := {
  getBalanceByAddress := InMemory.getBalanceByAddress;
  findByTxIdsAndVouts := InMemory.findByTxIdsAndVouts;
  insert := InMemory.insert;
  markAsSpent := InMemory.markAsSpent;
  getMaxBlockHeight := InMemory.getMaxBlockHeight;
  findUTXOsByBlockHeight := InMemory.findUTXOsByBlockHeight;
  unmarkAsSpent := InMemory.unmarkAsSpent;
  deleteUTXOsByBlockHeight := InMemory.deleteUTXOsByBlockHeight
}.

(** ** A store whose methods may throw

    Every method of both repository classes is a [try] block whose [catch]
    returns [err(new DatabaseError({ statusCode: 500, cause }))].  [Throwing]
    wraps a repository and makes the methods selected by [throws] take that
    branch, before they touch the store. *)

Inductive Method :=
| GetBalanceByAddress | FindByTxIdsAndVouts | Insert | MarkAsSpent
| GetMaxBlockHeight | FindUTXOsByBlockHeight | UnmarkAsSpent
| DeleteUTXOsByBlockHeight.

Record Throwing (R : Type) := mkThrowing
  { inner : R; throws : Method -> bool }.
Arguments mkThrowing {R} inner throws.
Arguments inner {R} t.
Arguments throws {R} t.

Section ThrowingRepository.
Context {R : Type} `{IUTXORepository R}.

Definition guarded {A} (m : Method) (call : R -> Result A AppError * R)
           (s : Throwing R) : Result A AppError * Throwing R :=
  if throws s m then (err (DatabaseError 500), s)
  else let (r, s') := call (inner s) in (r, mkThrowing s' (throws s)).

#[export] Instance ThrowingUTXORepository : IUTXORepository (Throwing R) := {
  getBalanceByAddress a := guarded GetBalanceByAddress (getBalanceByAddress a);
  findByTxIdsAndVouts refs :=
    guarded FindByTxIdsAndVouts (findByTxIdsAndVouts refs);
  insert u := guarded Insert (insert u);
  markAsSpent t v x := guarded MarkAsSpent (markAsSpent t v x);
  getMaxBlockHeight := guarded GetMaxBlockHeight getMaxBlockHeight;
  findUTXOsByBlockHeight h :=
    guarded FindUTXOsByBlockHeight (findUTXOsByBlockHeight h);
  unmarkAsSpent ids := guarded UnmarkAsSpent (unmarkAsSpent ids);
  deleteUTXOsByBlockHeight h :=
    guarded DeleteUTXOsByBlockHeight (deleteUTXOsByBlockHeight h)
}.
End ThrowingRepository.

(** ** [BlockService] (src/services/block.service.ts) *)

Definition sumOutputs (outs : list Output) : Z :=
  fold_left (fun sum out => sum + value out) outs 0.

(** [/^0+$/.test(txId)] *)
Definition isCoinbaseInput (txId : JSString) : bool :=
  match txId with
  | [] => false
  | _ :: _ => forallb (fun c => c =? 48) txId
  end.

Definition hasCoinbaseInputs (tx : Transaction) : bool :=
  existsb (fun input => isCoinbaseInput (txId input)) (inputs tx).
Definition hasRegularInputs (tx : Transaction) : bool :=
  existsb (fun input => negb (isCoinbaseInput (txId input))) (inputs tx).

Fixpoint validateCoinbaseTransactions (transactions : list Transaction)
  : Result unit AppError :=
  match transactions with
  | [] => ok tt
  | transaction :: rest =>
      if hasCoinbaseInputs transaction && hasRegularInputs transaction
      then err (InvalidInputOutputSumError 400)
      else if hasCoinbaseInputs transaction
      then validateCoinbaseTransactions rest
      else if (length (inputs transaction) =? 0)%nat
      then
        let outputSum := sumOutputs (outputs transaction) in
        if negb (outputSum =? 0) then err (InvalidInputOutputSumError 400)
        else validateCoinbaseTransactions rest
      else validateCoinbaseTransactions rest
  end.

Definition isRegularTransaction (tx : Transaction) : bool :=
  negb (hasCoinbaseInputs tx) && (0 <? length (inputs tx))%nat.

(** The key of the local [utxoMap]: [`${txid}:${vout}`]. *)
Definition utxoKey (txid : JSString) (vout : Z) : JSString :=
  txid ++ js ":" ++ numberToString vout.

(** The inner loop over the inputs of one regular transaction: [None]
    when an input is not in [utxoMap], else the sum of their values. *)
Fixpoint sumInputs (utxoMap : JSMap.t UTXO) (ins : list Input) (inputSum : Z)
  : option Z :=
  match ins with
  | [] => Some inputSum
  | input :: rest =>
      match JSMap.get utxoMap (utxoKey (txId input) (index input)) with
      | None => None
      | Some utxo => sumInputs utxoMap rest (inputSum + utxo_value utxo)
      end
  end.

Fixpoint checkRegularTransactions (utxoMap : JSMap.t UTXO)
         (regularTransactions : list Transaction) : Result unit AppError :=
  match regularTransactions with
  | [] => ok tt
  | transaction :: rest =>
      let outputSum := sumOutputs (outputs transaction) in
      match sumInputs utxoMap (inputs transaction) 0 with
      | None => err (InvalidInputOutputSumError 400)
      | Some inputSum =>
          if negb (inputSum =? outputSum)
          then err (InvalidInputOutputSumError 400)
          else checkRegularTransactions utxoMap rest
      end
  end.

Definition padTxId (txId : JSString) : JSString :=
  substring0 64 (padEnd0 64 txId).

Definition expectedHash (block : Block) : JSString :=
  let txIds := concat (map (fun tx => padTxId (tx_id tx)) (transactions block)) in
  let hashInput := numberToString (height block) ++ txIds in
  sha256hex hashInput.

Definition validateBlockId (block : Block) : Result unit AppError :=
  if negb (JSString_eqb (id block) (expectedHash block))
  then err (InvalidBlockIdError 400)
  else ok tt.

Section Services.
Context {R : Type} `{IUTXORepository R}.

Definition validateHeight (height : Z) (s : R) : Result unit AppError * R :=
  let (maxHeightResult, s) := getMaxBlockHeight s in
  match maxHeightResult with
  | err _ => (err (InvalidBlockHeightError 400 None None), s)
  | ok maxHeight =>
      let expectedHeight := maxHeight + 1 in
      if negb (height =? expectedHeight)
      then (err (InvalidBlockHeightError 400 (Some maxHeight) (Some height)), s)
      else (ok tt, s)
  end.

Definition validateRegularTransactions (transactions : list Transaction)
           (s : R) : Result unit AppError * R :=
  let regularTransactions := filter isRegularTransaction transactions in
  if (length regularTransactions =? 0)%nat then (ok tt, s)
  else
    let inputRefs :=
      flat_map (fun tx => map (fun input => mkRef (txId input) (index input))
                              (inputs tx))
               regularTransactions in
    let (utxosResult, s) := findByTxIdsAndVouts inputRefs s in
    match utxosResult with
    | err _ => (err (InvalidInputOutputSumError 400), s)
    | ok utxos =>
        let utxoMap :=
          fold_left (fun m utxo =>
                       JSMap.set m (utxoKey (txid utxo) (vout utxo)) utxo)
                    utxos [] in
        (checkRegularTransactions utxoMap regularTransactions, s)
    end.

Definition validateInputOutputSum (block : Block) (s : R)
  : Result unit AppError * R :=
  match validateCoinbaseTransactions (transactions block) with
  | err e => (err e, s)
  | ok _ =>
      let (regularResult, s) :=
        validateRegularTransactions (transactions block) s in
      match regularResult with
      | err e => (err e, s)
      | ok _ => (ok tt, s)
      end
  end.

(** The apply phase: for each transaction, first the loop over its
    inputs, then the loop over its outputs; an error of the store ends
    the whole method. *)
Fixpoint spendInputs (transactionId : JSString) (ins : list Input) (s : R)
  : Result unit AppError * R :=
  match ins with
  | [] => (ok tt, s)
  | input :: rest =>
      if isCoinbaseInput (txId input) then spendInputs transactionId rest s
      else
        let (updateResult, s) :=
          markAsSpent (txId input) (index input) transactionId s in
        match updateResult with
        | err e => (err e, s)
        | ok _ => spendInputs transactionId rest s
        end
  end.

Fixpoint createOutputs (transactionId : JSString) (blockHeight : Z)
         (i : nat) (outs : list Output) (s : R) : Result unit AppError * R :=
  match outs with
  | [] => (ok tt, s)
  | output :: rest =>
      let (insertResult, s) :=
        insert (mkNewUTXO transactionId (Z.of_nat i) (address output)
                          (value output) [] blockHeight (Some false)) s in
      match insertResult with
      | err e => (err e, s)
      | ok _ => createOutputs transactionId blockHeight (S i) rest s
      end
  end.

Definition processTransaction (blockHeight : Z) (transaction : Transaction)
           (s : R) : Result unit AppError * R :=
  let (r, s) := spendInputs (tx_id transaction) (inputs transaction) s in
  match r with
  | err e => (err e, s)
  | ok _ =>
      createOutputs (tx_id transaction) blockHeight 0 (outputs transaction) s
  end.

Fixpoint processTransactions (blockHeight : Z) (txs : list Transaction)
         (s : R) : Result unit AppError * R :=
  match txs with
  | [] => (ok tt, s)
  | transaction :: rest =>
      let (r, s) := processTransaction blockHeight transaction s in
      match r with
      | err e => (err e, s)
      | ok _ => processTransactions blockHeight rest s
      end
  end.

Definition processBlock (block : Block) (s : R) : Result unit AppError * R :=
  let (heightResult, s) := validateHeight (height block) s in
  match heightResult with
  | err e => (err e, s)
  | ok _ =>
      let (sumResult, s) := validateInputOutputSum block s in
      match sumResult with
      | err e => (err e, s)
      | ok _ =>
          match validateBlockId block with
          | err e => (err e, s)
          | ok _ =>
              processTransactions (height block) (transactions block) s
          end
      end
  end.

(** ** [RollbackService] (src/services/rollback.service.ts) *)

Definition validateRollbackHeight (targetHeight : Z) (s : R)
  : Result unit AppError * R :=
  if targetHeight <? 0
  then (err (InvalidRollbackHeightError 400 (Some targetHeight) None), s)
  else
    let (maxHeightResult, s) := getMaxBlockHeight s in
    match maxHeightResult with
    | err _ =>
        (err (InvalidRollbackHeightError 400 (Some targetHeight) None), s)
    | ok currentMaxHeight =>
        if targetHeight >? currentMaxHeight
        then (err (InvalidRollbackHeightError 400 (Some targetHeight)
                                              (Some currentMaxHeight)), s)
        else (ok tt, s)
    end.

Definition rollbackToHeight (targetHeight : Z) (s : R)
  : Result unit AppError * R :=
  let (validationResult, s) := validateRollbackHeight targetHeight s in
  match validationResult with
  | err e => (err e, s)
  | ok _ =>
      let (utxosResult, s) := findUTXOsByBlockHeight targetHeight s in
      match utxosResult with
      | err e => (err e, s)
      | ok utxosToDelete =>
          if (length utxosToDelete =? 0)%nat
          then
            let (maxHeightResult, s) := getMaxBlockHeight s in
            match maxHeightResult with
            | err _ =>
                (err (InvalidRollbackHeightError 400 (Some targetHeight)
                                                 None), s)
            | ok currentMaxHeight =>
                (err (NoBlocksToRollbackError 400 targetHeight
                                              currentMaxHeight), s)
            end
          else
            let txIdsToRollback :=
              fold_left (fun set utxo => JSSet.add set (txid utxo))
                        utxosToDelete [] in
            let (unmarkResult, s) :=
              if (0 <? JSSet.size txIdsToRollback)%nat
              then unmarkAsSpent (JSSet.toArray txIdsToRollback) s
              else (ok tt, s) in
            match unmarkResult with
            | err e => (err e, s)
            | ok _ =>
                let (deleteResult, s) :=
                  deleteUTXOsByBlockHeight targetHeight s in
                match deleteResult with
                | err e => (err e, s)
                | ok _ => (ok tt, s)
                end
            end
      end
  end.

(** ** [BalanceService] *)

Definition getBalance (address : JSString) (s : R) : Result Z AppError * R :=
  getBalanceByAddress address s.

(** ** The write routes, once the mutex is held
    (src/routes/blocks.route.ts, src/routes/rollback.route.ts) *)

Inductive ReplyBody :=
| Success
| Error (message : JSString).

Record Reply := mkReply { status : Z; body : ReplyBody }.

Definition blocksRoute (block : Block) (s : R) : Reply * R :=
  let (processResult, s) := processBlock block s in
  match processResult with
  | err error =>
      (mkReply (getErrorStatusCode error) (Error (errorMessage error)), s)
  | ok _ => (mkReply 200 Success, s)
  end.

Definition rollbackRoute (height : Z) (s : R) : Reply * R :=
  let (rollbackResult, s) := rollbackToHeight height s in
  match rollbackResult with
  | err error =>
      let statusCode := getErrorStatusCode error in
      match error with
      | NoBlocksToRollbackError _ targetHeight currentHeight =>
          let errorMessage :=
            if currentHeight =? 0
            then js "Cannot rollback to height " ++ numberToString targetHeight
                    ++ js ": no blocks exist in the chain."
            else js "Cannot rollback to height " ++ numberToString targetHeight
                    ++ js ": no blocks exist above this height. Current height is "
                    ++ numberToString currentHeight ++ js "."
          in (mkReply statusCode (Error errorMessage), s)
      | _ => (mkReply statusCode (Error (errorMessage error)), s)
      end
  | ok _ => (mkReply 200 Success, s)
  end.

End Services.

(** ** The specification's words, for comparison with the code *)

(** "right-pad s with '0' to exactly 64 chars, truncated to 64 if longer" *)
Definition pad64 (s : JSString) : JSString :=
  if (length s <? 64)%nat then s ++ repeat 48 (64 - length s)
  else firstn 64 s.



(** ** Observations on the in-memory store *)

(** The tip: the number [getMaxBlockHeight] answers. *)
Definition tip (s : InMemory.Store) : Z :=
  fold_left (fun maxHeight utxo =>
               if blockHeight utxo >? maxHeight then blockHeight utxo
               else maxHeight)
            (JSMap.values (InMemory.utxos s)) 0.

Definition rows (s : InMemory.Store) : list UTXO :=
  JSMap.values (InMemory.utxos s).

(** The distinct heights present are exactly [1 .. h]. *)
Definition heightsAre (s : InMemory.Store) (h : Z) : Prop :=
  forall x, (exists u, In u (rows s) /\ blockHeight u = x) <-> 1 <= x <= h.

(** One step of the running maximum of [getMaxBlockHeight]. *)
Definition maxStep (h : UTXO -> Z) (m : Z) (u : UTXO) : Z :=
  if h u >? m then h u else m.

(** Every entry is filed under the key of its own [txid] and [vout], as
    every [set] of the class files it. *)
Definition keyed (s : InMemory.Store) : Prop :=
  Forall (fun e => fst e = InMemory.getKey (txid (snd e)) (vout (snd e)))
         (InMemory.utxos s).

(** The keys of a [Map] are distinct. *)
Definition distinctKeys (s : InMemory.Store) : Prop :=
  NoDup (map fst (InMemory.utxos s)).

Definition wf (s : InMemory.Store) : Prop := distinctKeys s /\ keyed s.

(** The same, decided. *)
Definition keyedb (s : InMemory.Store) : bool :=
  forallb (fun e => JSString_eqb (fst e)
                      (InMemory.getKey (txid (snd e)) (vout (snd e))))
          (InMemory.utxos s).

Fixpoint distinctb (l : list JSString) : bool :=
  match l with
  | [] => true
  | x :: l' => negb (existsb (JSString_eqb x) l') && distinctb l'
  end.

Definition wfb (s : InMemory.Store) : bool :=
  distinctb (map fst (InMemory.utxos s)) && keyedb s.

(** The unspent row an input reference resolves to, if any. *)
Definition lookupUnspent (s : InMemory.Store) (t : JSString) (v : Z)
  : option UTXO :=
  match JSMap.get (InMemory.utxos s) (InMemory.getKey t v) with
  | Some u => if spent u then None else Some u
  | None => None
  end.

Definition resolves (s : InMemory.Store) (i : Input) : Prop :=
  lookupUnspent s (txId i) (index i) <> None.

Definition inputValue (s : InMemory.Store) (i : Input) : Z :=
  match lookupUnspent s (txId i) (index i) with
  | Some u => utxo_value u
  | None => 0
  end.

Definition sumInputValues (s : InMemory.Store) (ins : list Input) : Z :=
  fold_left (fun sum i => sum + inputValue s i) ins 0.

(** The ways a transaction fails the conservation check, in the words of
    the specification. *)
Definition mixesInputs (T : Transaction) : Prop :=
  hasCoinbaseInputs T = true /\ hasRegularInputs T = true.

Definition createsFromNothing (T : Transaction) : Prop :=
  inputs T = [] /\ sumOutputs (outputs T) <> 0.

Definition regularUnbalanced (s : InMemory.Store) (T : Transaction) : Prop :=
  hasCoinbaseInputs T = false /\ inputs T <> []
  /\ ((exists i, In i (inputs T) /\ ~ resolves s i)
      \/ sumInputValues s (inputs T) <> sumOutputs (outputs T)).

Definition violatesConservation (s : InMemory.Store) (T : Transaction) : Prop :=
  mixesInputs T \/ createsFromNothing T \/ regularUnbalanced s T.

(** The rows [findByTxIdsAndVouts] answers, and the local [utxoMap] the
    conservation check builds from rows. *)
Definition found (s : InMemory.Store) (refs : list Ref) : list UTXO :=
  flat_map (fun ref =>
              match lookupUnspent s (ref_txId ref) (ref_vout ref) with
              | Some u => [u]
              | None => []
              end) refs.

Definition utxoMapOf (utxos : list UTXO) : JSMap.t UTXO :=
  fold_left (fun m utxo => JSMap.set m (utxoKey (txid utxo) (vout utxo)) utxo)
            utxos [].

Definition inputRefsOf (txs : list Transaction) : list Ref :=
  flat_map (fun tx => map (fun input => mkRef (txId input) (index input))
                          (inputs tx)) txs.

Definition noInputsNoOutputs (tx : Transaction) : Prop :=
  inputs tx = [] /\ outputs tx = [].

(** ** Helpers of the test suites (spec/test-setup.ts,
    spec/services/block.service.spec.ts) *)

Definition calculateBlockId (height : Z) (txs : list Transaction) : JSString :=
  let txIds := concat (map (fun tx => padTxId (tx_id tx)) txs) in
  sha256hex (numberToString height ++ txIds).

Definition createValidBlock (height : Z) (txs : list Transaction) : Block :=
  let paddedTransactions :=
    map (fun tx =>
           mkTransaction (padTxId (tx_id tx))
             (map (fun input => mkInput (padTxId (txId input)) (index input))
                  (inputs tx))
             (outputs tx))
        txs in
  mkBlock (calculateBlockId height paddedTransactions) height
          paddedTransactions.

(** A block as a client may post it: the identifier is the expected one,
    the transaction identifiers are left as they are. *)
Definition sealBlock (height : Z) (txs : list Transaction) : Block :=
  mkBlock (calculateBlockId height txs) height txs.

(** Ingesting a list of blocks in order; [None] as soon as one is
    rejected. *)
Fixpoint ingest (blocks : list Block) (s : InMemory.Store)
  : option InMemory.Store :=
  match blocks with
  | [] => Some s
  | b :: rest =>
      match processBlock b s with
      | (ok _, s') => ingest rest s'
      | (err _, _) => None
      end
  end.

(** The heights an error object carries in its fields. *)
Definition carriedHeights (e : AppError) : list Z :=
  let opt (x : option Z) := match x with Some v => [v] | None => [] end in
  match e with
  | InvalidBlockHeightError _ c h => opt c ++ opt h
  | InvalidRollbackHeightError _ t c => opt t ++ opt c
  | NoBlocksToRollbackError _ t c => [t; c]
  | _ => []
  end.

(** The rows [findUTXOsByBlockHeight] answers: those above a height. *)
Definition above (h : Z) (s : InMemory.Store) : list UTXO :=
  filter (fun u => blockHeight u >? h) (rows s).

(** ** Sample blocks *)

Definition coinbaseTxId : JSString := repeat 48 64.

(** A block at height 5 whose only transaction has neither inputs nor
    outputs. *)
Definition emptyBlockAt5 : Block :=
  createValidBlock 5 [mkTransaction (js "tx1") [] []].

Definition emptyBlockAt1 : Block :=
  createValidBlock 1 [mkTransaction (js "tx1") [] []].

Definition noTransactionsAt1 : Block := createValidBlock 1 [].

(** The first block of the README scenario: a coinbase transaction paying
    10 to [addr1]. *)
Definition readmeBlock1 : Block :=
  createValidBlock 1
    [mkTransaction (js "tx1") [mkInput coinbaseTxId 0]
                   [mkOutput (js "addr1") 10]].

Definition readmeBlock2 : Block :=
  createValidBlock 2
    [mkTransaction (js "tx2") [mkInput (js "tx1") 0]
                   [mkOutput (js "addr2") 4; mkOutput (js "addr3") 6]].

Definition readmeBlock3 : Block :=
  createValidBlock 3
    [mkTransaction (js "tx3") [mkInput (js "tx2") 1]
                   [mkOutput (js "addr4") 2; mkOutput (js "addr5") 2;
                    mkOutput (js "addr6") 2]].

Definition storeAfter (blocks : list Block) : InMemory.Store :=
  match ingest blocks InMemory.empty with
  | Some s => s
  | None => InMemory.empty
  end.


(** ** Sample runs with failures *)

Definition onlyThrows (m : Method) (x : Method) : bool :=
  match m, x with
  | GetBalanceByAddress, GetBalanceByAddress
  | FindByTxIdsAndVouts, FindByTxIdsAndVouts
  | Insert, Insert
  | MarkAsSpent, MarkAsSpent
  | GetMaxBlockHeight, GetMaxBlockHeight
  | FindUTXOsByBlockHeight, FindUTXOsByBlockHeight
  | UnmarkAsSpent, UnmarkAsSpent
  | DeleteUTXOsByBlockHeight, DeleteUTXOsByBlockHeight => true
  | _, _ => false
  end.

(** The empty store with the maximum-height query failing. *)
Definition heightQueryDown : Throwing InMemory.Store :=
  mkThrowing InMemory.empty (onlyThrows GetMaxBlockHeight).

(** A block at height 2 whose transaction names the output [tx1:0] twice
    and pays out twice its value. *)
Definition doubleInputAt2 : Block :=
  createValidBlock 2
    [mkTransaction (js "tx2")
                   [mkInput (js "tx1") 0; mkInput (js "tx1") 0]
                   [mkOutput (js "addr2") 20]].

(** Blocks whose transaction identifiers are short and left unpadded. *)
Definition shortIdBlock1 : Block :=
  sealBlock 1
    [mkTransaction (js "tx1") [mkInput (js "0") 0] [mkOutput (js "addr1") 10]].

Definition shortIdBlock2 : Block :=
  sealBlock 2
    [mkTransaction (js "tx2") [mkInput (js "tx1") 0]
                   [mkOutput (js "addr2") 10]].



(** ** The writes of the in-memory store, as list functions *)

(** The identifiers [rollbackToHeight] collects from the rows it found. *)
Definition idsOf (us : list UTXO) : JSSet.t :=
  fold_left (fun set utxo => JSSet.add set (txid utxo)) us [].

(** The test of [unmarkAsSpent] on one row. *)
Definition spentBy (ids : list JSString) (utxo : UTXO) : bool :=
  spent utxo && InMemory.truthy (spentTxid utxo)
  && match spentTxid utxo with
     | Some x => JSSet.has (JSSet.ofArray ids) x
     | None => false
     end.

Definition unmarkEntry (ids : list JSString) (e : JSString * UTXO)
  : JSString * UTXO :=
  if spentBy ids (snd e) then (fst e, InMemory.withUnspent (snd e)) else e.

Definition isAbove (h : Z) (e : JSString * UTXO) : bool :=
  blockHeight (snd e) >? h.

(** What a successful rollback to [t] leaves of a map. *)
Definition rolledBack (t : Z) (m : JSMap.t UTXO) : JSMap.t UTXO :=
  filter (fun e => negb (isAbove t e))
         (map (unmarkEntry
                 (idsOf (filter (fun u => blockHeight u >? t) (JSMap.values m))))
              m).

(** The entries [createOutputs] appends when every key is new. *)
Fixpoint newEntries (transactionId : JSString) (h : Z) (i : nat)
         (outs : list Output) (firstId : Z) : list (JSString * UTXO) :=
  match outs with
  | [] => []
  | o :: rest =>
      (InMemory.getKey transactionId (Z.of_nat i),
       mkUTXO firstId transactionId (Z.of_nat i) (address o) (value o) [] h
              false None None now)
      :: newEntries transactionId h (S i) rest (firstId + 1)
  end.

(** An entry before and after the inputs of transaction [x] were marked. *)
Definition markedBy (x : JSString) (e e' : JSString * UTXO) : Prop :=
  e' = e \/ (spent (snd e) = false /\ e' = (fst e, InMemory.withSpent (snd e) x)).

(** The keys a transaction, a block inserts. *)
Definition txKeys (tx : Transaction) : list JSString :=
  map (fun i => InMemory.getKey (tx_id tx) (Z.of_nat i))
      (seq 0 (length (outputs tx))).

Definition outputKeys (txs : list Transaction) : list JSString :=
  flat_map txKeys txs.

(** No insert of the block meets a key that is already there: the keys
    are new to the store and distinct from each other. *)
Definition freshFor (s : InMemory.Store) (txs : list Transaction) : Prop :=
  NoDup (outputKeys txs)
  /\ forall k, In k (outputKeys txs) -> ~ In k (map fst (InMemory.utxos s)).

(** ** Requests *)

Inductive Request :=
| Ingest (b : Block)
| Rollback (target : Z).

Definition handle (r : Request) (s : InMemory.Store)
  : Result unit AppError * InMemory.Store :=
  match r with
  | Ingest b => processBlock b s
  | Rollback t => rollbackToHeight t s
  end.

(** The stores reached from the empty one by successful requests. *)
Inductive reached : InMemory.Store -> Prop :=
| reached_empty : reached InMemory.empty
| reached_step r s s' :
    reached s -> handle r s = (ok tt, s') -> reached s'.


Definition heightPresent (s : InMemory.Store) (x : Z) : Prop :=
  exists u, In u (rows s) /\ blockHeight u = x.

(** [freshFor], decided. *)
Definition freshForb (s : InMemory.Store) (txs : list Transaction) : bool :=
  distinctb (outputKeys txs)
  && forallb (fun k => negb (existsb (JSString_eqb k)
                                     (map fst (InMemory.utxos s))))
             (outputKeys txs).

(** A block at height 2 whose coinbase transaction bears the identifier
    [tx1] of the transaction of [readmeBlock1]. *)
Definition sameIdAt2 : Block :=
  createValidBlock 2
    [mkTransaction (js "tx1") [mkInput coinbaseTxId 0]
                   [mkOutput (js "addr2") 50]].

(** ** What rollback relies on *)

(** An unspent row carries no spend mark. *)
Definition unspentClean (m : JSMap.t UTXO) : Prop :=
  Forall (fun e => spent (snd e) = false ->
                   spentTxid (snd e) = None /\ spentAt (snd e) = None) m.

(** A spent row names its spender, a non-empty identifier whose first
    output is in the map. *)
Definition spenderPresent (m : JSMap.t UTXO) : Prop :=
  Forall (fun e => spent (snd e) = true ->
                   exists x, spentTxid (snd e) = Some x /\ x <> []
                             /\ In (InMemory.getKey x 0) (map fst m)) m.

(** A transaction that spends leaves a trace rollback can find: it has a
    non-empty identifier and creates at least one output. *)
Definition traceable (tx : Transaction) : Prop :=
  hasRegularInputs tx = true -> tx_id tx <> [] /\ outputs tx <> [].

Definition createsOutput (b : Block) : Prop :=
  exists tx, In tx (transactions b) /\ outputs tx <> [].

(** A chain of blocks none of whose inserts meets a key already in the
    store, and whose spending transactions are all traceable. *)
Fixpoint orderly (blocks : list Block) (s : InMemory.Store) : Prop :=
  match blocks with
  | [] => True
  | b :: rest =>
      freshFor s (transactions b)
      /\ Forall traceable (transactions b)
      /\ forall s', processBlock b s = (ok tt, s') -> orderly rest s'
  end.

Definition traceableb (tx : Transaction) : bool :=
  negb (hasRegularInputs tx)
  || (negb (JSString_eqb (tx_id tx) []) && (0 <? length (outputs tx))%nat).

Fixpoint orderlyb (blocks : list Block) (s : InMemory.Store) : bool :=
  match blocks with
  | [] => true
  | b :: rest =>
      freshForb s (transactions b)
      && forallb traceableb (transactions b)
      && match processBlock b s with
         | (ok _, s') => orderlyb rest s'
         | (err _, _) => true
         end
  end.

(** Sample chains for rollback. *)

(** A block that is accepted and writes nothing, then the first block of
    the README scenario, accepted at height 1 as well. *)
Definition chainWithBareBlock : list Block := [noTransactionsAt1; readmeBlock1].

(** A coinbase output of value 0 at height 1; at height 2 a transaction
    that spends it and creates nothing, beside a coinbase transaction. *)
Definition zeroBlock1 : Block :=
  createValidBlock 1
    [mkTransaction (js "tx1") [mkInput coinbaseTxId 0]
                   [mkOutput (js "addr1") 0]].

Definition zeroBlock2 : Block :=
  createValidBlock 2
    [mkTransaction (js "tx2") [mkInput (js "tx1") 0] [];
     mkTransaction (js "tx3") [mkInput coinbaseTxId 0]
                   [mkOutput (js "addr3") 5]].

(** [markedBy], where a mark implies that the identifier is not empty. *)
Definition markedByNonEmpty (x : JSString) (e e' : JSString * UTXO) : Prop :=
  e' = e
  \/ (x <> [] /\ spent (snd e) = false
      /\ e' = (fst e, InMemory.withSpent (snd e) x)).

(** The invariant of the stores built by orderly chains. *)
Definition sound (s : InMemory.Store) : Prop :=
  wf s /\ heightsAre s (tip s)
  /\ unspentClean (InMemory.utxos s) /\ spenderPresent (InMemory.utxos s).

(** A transaction with the empty string as its identifier spends the
    output of [readmeBlock1]. *)
Definition emptyIdBlock1 : Block :=
  sealBlock 1
    [mkTransaction (js "a") [mkInput (js "0") 0] [mkOutput (js "addr1") 10]].

Definition emptyIdBlock2 : Block :=
  sealBlock 2
    [mkTransaction [] [mkInput (js "a") 0] [mkOutput (js "addr2") 10]].

(** ** Stores and blocks of the test suites
    (spec/services/block.service.spec.ts,
    spec/services/rollback.service.spec.ts) *)

(** [repository.insert({ txid: padTxId(id), vout: 0, address, value,
    scriptPubkey: "", blockHeight, spent: false })] *)
Definition seed (idOfTx address : string) (value blockHeight : Z)
           (s : InMemory.Store) : InMemory.Store :=
  snd (insert (mkNewUTXO (padTxId (js idOfTx)) 0 (js address) value []
                         blockHeight (Some false)) s).

Definition balanceOf (address : string) (s : InMemory.Store) : Result Z AppError :=
  fst (getBalance (js address) s).

Definition testSpendBlock : Block :=
  createValidBlock 2
    [mkTransaction (js "tx2") [mkInput (js "tx1") 0]
                   [mkOutput (js "addr2") 60; mkOutput (js "addr3") 40]].

Definition testSameBlockSpend : Block :=
  createValidBlock 2
    [mkTransaction (js "tx2") [mkInput (js "tx1") 0]
                   [mkOutput (js "addr2") 100];
     mkTransaction (js "tx3") [mkInput (js "tx2") 0]
                   [mkOutput (js "addr3") 100]].

Definition testWrongHash : Block :=
  mkBlock (js "wrong_hash") 1
          [mkTransaction (js "tx1") [] [mkOutput (js "addr1") 0]].

(** ** Observations on the repository methods *)

(** The row [insert] files for a new record when the counter reads [n]. *)
Definition stored (u : NewUTXO) (n : Z) : UTXO :=
  mkUTXO n (new_txid u) (new_vout u) (new_address u) (new_value u)
         (new_scriptPubkey u) (new_blockHeight u)
         (match new_spent u with Some b => b | None => false end)
         None None now.

Definition sumZ (l : list Z) : Z := fold_right Z.add 0 l.

(** What a row counts for in the balance of the addresses selected by
    [p]: its value when it is unspent and its address is selected. *)
Definition counts (p : JSString -> bool) (u : UTXO) : Z :=
  if p (utxo_address u) && negb (spent u) then utxo_value u else 0.

Definition unspentValue (p : JSString -> bool) (m : JSMap.t UTXO) : Z :=
  sumZ (map (fun e => counts p (snd e)) m).




(** What the row under a key counts for, 0 when there is none. *)
Definition countsAt (p : JSString -> bool) (m : JSMap.t UTXO) (k : JSString)
  : Z :=
  match JSMap.get m k with Some u => counts p u | None => 0 end.

(** ** Rows of the stores that requests build *)

(** The spend marks of a row agree with its [spent] flag. *)
Definition marksAgree (u : UTXO) : Prop :=
  (spent u = true <-> spentTxid u <> None)
  /\ (spent u = true <-> spentAt u <> None).

(** A row as the services write and rewrite it. *)
Definition rowAsWritten (u : UTXO) : Prop :=
  1 <= blockHeight u /\ scriptPubkey u = [] /\ marksAgree u.

(** A property of rows that holds of every row of a store. *)
Definition allRows (P : UTXO -> Prop) (s : InMemory.Store) : Prop :=
  Forall (fun e => P (snd e)) (InMemory.utxos s).

(** ** What a block does to balances *)

(** What the unspent row of a reference counts for, 0 when the reference
    has none. *)
Definition worth (p : JSString -> bool) (s : InMemory.Store) (t : JSString)
           (v : Z) : Z :=
  match lookupUnspent s t v with
  | Some u => if p (utxo_address u) then utxo_value u else 0
  | None => 0
  end.

(** The value a transaction pays to the selected addresses, and the value
    its inputs, other than coinbase inputs, take from them. *)
Definition credit (p : JSString -> bool) (tx : Transaction) : Z :=
  sumZ (map (fun o => if p (address o) then value o else 0) (outputs tx)).

Definition debitOf (p : JSString -> bool) (s : InMemory.Store) (i : Input)
  : Z :=
  if isCoinbaseInput (txId i) then 0 else worth p s (txId i) (index i).

Definition debit (p : JSString -> bool) (s : InMemory.Store)
           (tx : Transaction) : Z :=
  sumZ (map (debitOf p s) (inputs tx)).




(** The fields of a row that no method rewrites. *)
Definition written (u : UTXO)
  : Z * JSString * Z * JSString * Z * JSString * Z * Date :=
  (utxo_id u, txid u, vout u, utxo_address u, utxo_value u, scriptPubkey u,
   blockHeight u, createdAt u).

(** ** The routes in full (src/routes) *)

















(** ** Row identifiers *)

(** The identifiers of the rows are distinct and were all handed out by
    the counter, which started at 1. *)
Definition idsInOrder (s : InMemory.Store) : Prop :=
  1 <= InMemory.nextId s
  /\ NoDup (map utxo_id (rows s))
  /\ (forall u, In u (rows s) -> 1 <= utxo_id u < InMemory.nextId s).


(** * Checks of the SHA-256 embedding against the FIPS 180-4 test vectors *)

Example sha256hex_abc :
  sha256hex (js "abc")
  = js "ba7816bf8f01cfea414140de5dae2223b00361a396177a9cb410ff61f20015ad".
Proof. vm_compute. reflexivity. Qed.

Example sha256hex_empty :
  sha256hex []
  = js "e3b0c44298fc1c149afbf4c8996fb92427ae41e4649b934ca495991b7852b855".
Proof. vm_compute. reflexivity. Qed.

Example sha256hex_two_blocks :
  sha256hex (js "abcdbcdecdefdefgefghfghighijhijkijkljklmklmnlmnomnopnopq")
  = js "248d6a61d20638b8e5c026930c3e6039a33ce45964ff2167f6ecedd419db06c1".
Proof. vm_compute. reflexivity. Qed.


(** * Checks of the string functions *)

Example numberToString_samples :
  numberToString 0 = js "0"
  /\ numberToString 1050 = js "1050"
  /\ numberToString (-12) = js "-12".
Proof. vm_compute. repeat split. Qed.

(** U+00E9, the pair for U+1F600, and a lone surrogate. *)
Example utf8_samples :
  utf8 [233] = [195; 169]
  /\ utf8 [55357; 56832] = [240; 159; 152; 128]
  /\ utf8 [55357; 65] = [239; 191; 189; 65]
  /\ utf8 (js "tx1") = [116; 120; 49].
Proof. vm_compute. repeat split. Qed.

Example padTxId_samples :
  padTxId (js "tx1") = js "tx1" ++ repeat 48 61
  /\ padTxId (repeat 97 70) = repeat 97 64
  /\ padTxId [] = repeat 48 64.
Proof. vm_compute. repeat split. Qed.

(** * Tests of the repository, replayed on the embedding *)

(** "should process subsequent blocks with valid transactions" *)
Example test_spend :
  let s := seed "tx1" "addr1" 100 1 InMemory.empty in
  fst (processBlock testSpendBlock s) = ok tt
  /\ balanceOf "addr1" (snd (processBlock testSpendBlock s)) = ok 0
  /\ balanceOf "addr2" (snd (processBlock testSpendBlock s)) = ok 60
  /\ balanceOf "addr3" (snd (processBlock testSpendBlock s)) = ok 40.
Proof. vm_compute. repeat split. Qed.

(** "should reject block where referenced UTXO is already spent" *)
Example test_already_spent :
  let s := seed "tx1" "addr1" 100 1 InMemory.empty in
  let s' := snd (markAsSpent (padTxId (js "tx1")) 0 (padTxId (js "tx9")) s) in
  fst (processBlock testSpendBlock s') = err (InvalidInputOutputSumError 400).
Proof. vm_compute. reflexivity. Qed.

(** "should reject block that tries to spend UTXO from same block" *)
Example test_same_block_spend :
  fst (processBlock testSameBlockSpend (seed "tx1" "addr1" 100 1 InMemory.empty))
  = err (InvalidInputOutputSumError 400).
Proof. vm_compute. reflexivity. Qed.

(** "should reject block with incorrect block ID hash" *)
Example test_wrong_hash :
  fst (processBlock testWrongHash InMemory.empty) = err (InvalidBlockIdError 400).
Proof. vm_compute. reflexivity. Qed.

(** "should return error when target height equals current height" *)
Example test_rollback_to_current :
  fst (rollbackToHeight 1 (seed "tx1" "addr1" 100 1 InMemory.empty))
  = err (NoBlocksToRollbackError 400 1 1).
Proof. vm_compute. reflexivity. Qed.

(** "should handle rollback scenario from README example" *)
Example test_readme_rollback :
  let s := storeAfter [readmeBlock1; readmeBlock2; readmeBlock3] in
  fst (rollbackToHeight 2 s) = ok tt
  /\ map (fun a => balanceOf a (snd (rollbackToHeight 2 s)))
         ["addr1"; "addr2"; "addr3"; "addr4"; "addr5"; "addr6"]%string
     = [ok 0; ok 4; ok 6; ok 0; ok 0; ok 0].
Proof. vm_compute. repeat split. Qed.

(** Scenario F of the specification: the reply to a rollback on the
    empty chain. *)
Example test_rollback_empty_chain_reply :
  fst (rollbackRoute 0 InMemory.empty)
  = mkReply 400
      (Error (js "Cannot rollback to height 0: no blocks exist in the chain.")).
Proof. vm_compute. reflexivity. Qed.

(** * Strings *)

Lemma JSString_eqb_eq (a b : JSString) : JSString_eqb a b = true <-> a = b.
Proof.
  revert b; induction a as [|x a IH]; intros [|y b]; simpl;
    try (split; [discriminate | discriminate]); try tauto.
  rewrite andb_true_iff, Z.eqb_eq, IH.
  split; [intros [-> ->]; reflexivity | intros E; inversion E; auto].
Qed.

Lemma JSString_eqb_refl (a : JSString) : JSString_eqb a a = true.
Proof. apply JSString_eqb_eq; reflexivity. Qed.

Lemma JSString_eqb_neq (a b : JSString) : JSString_eqb a b = false <-> a <> b.
Proof.
  rewrite <- JSString_eqb_eq. destruct (JSString_eqb a b); split; congruence.
Qed.

Lemma JSString_eqb_sym (a b : JSString) : JSString_eqb a b = JSString_eqb b a.
Proof.
  destruct (JSString_eqb a b) eqn:E.
  - apply JSString_eqb_eq in E; subst; symmetry; apply JSString_eqb_refl.
  - symmetry; apply JSString_eqb_neq; apply JSString_eqb_neq in E; congruence.
Qed.

(** * The block identifier *)

Lemma padTxId_pad64 (s : JSString) : padTxId s = pad64 s.
Proof.
  unfold padTxId, pad64, substring0, padEnd0.
  destruct (Nat.ltb_spec (length s) 64) as [Hlt | Hge].
  - apply firstn_all2. rewrite length_app, repeat_length. lia.
  - replace (64 - length s)%nat with 0%nat by lia.
    simpl. rewrite app_nil_r. reflexivity.
Qed.

Lemma pad64_length (s : JSString) : length (pad64 s) = 64%nat.
Proof.
  unfold pad64. destruct (Nat.ltb_spec (length s) 64).
  - rewrite length_app, repeat_length. lia.
  - rewrite length_firstn. lia.
Qed.






Lemma validateBlockId_spec (block : Block) :
  (id block = expectedHash block /\ validateBlockId block = ok tt)
  \/ (id block <> expectedHash block
      /\ validateBlockId block = err (InvalidBlockIdError 400)).
Proof.
  unfold validateBlockId.
  destruct (JSString_eqb (id block) (expectedHash block)) eqn:E; simpl.
  - left. split; [apply JSString_eqb_eq; exact E | reflexivity].
  - right. split; [apply JSString_eqb_neq; exact E | reflexivity].
Qed.

(** * The reads of the in-memory store *)

Section MaxFold.
Variable h : UTXO -> Z.

Lemma maxfold_ge (l : list UTXO) (a : Z) : a <= fold_left (maxStep h) l a.
Proof.
  revert a; induction l as [|u l IH]; intros a; simpl; [lia|].
  specialize (IH ((maxStep h) a u)). unfold maxStep in *.
  destruct (Z.gtb_spec (h u) a); lia.
Qed.

Lemma maxfold_upper (l : list UTXO) (a : Z) (u : UTXO) :
  In u l -> h u <= fold_left (maxStep h) l a.
Proof.
  revert a; induction l as [|v l IH]; intros a; simpl; [tauto|].
  intros [-> | Hin].
  - apply Z.le_trans with ((maxStep h) a u); [|apply maxfold_ge].
    unfold maxStep. destruct (Z.gtb_spec (h u) a); lia.
  - apply IH, Hin.
Qed.

Lemma maxfold_attained (l : list UTXO) (a : Z) :
  fold_left (maxStep h) l a = a \/ exists u, In u l /\ h u = fold_left (maxStep h) l a.
Proof.
  revert a; induction l as [|v l IH]; intros a; simpl; [left; reflexivity|].
  destruct (IH ((maxStep h) a v)) as [E | [u [Hin E]]].
  - rewrite E. unfold maxStep. destruct (Z.gtb_spec (h v) a).
    + right. exists v. split; [left; reflexivity | reflexivity].
    + left. reflexivity.
  - right. exists u. split; [right; exact Hin | exact E].
Qed.
End MaxFold.

Lemma tip_nonneg (s : InMemory.Store) : 0 <= tip s.
Proof. apply maxfold_ge. Qed.

Lemma tip_upper (s : InMemory.Store) (u : UTXO) :
  In u (rows s) -> blockHeight u <= tip s.
Proof. apply maxfold_upper. Qed.

Lemma tip_attained (s : InMemory.Store) :
  tip s = 0 \/ exists u, In u (rows s) /\ blockHeight u = tip s.
Proof. apply (maxfold_attained blockHeight). Qed.

Lemma getMaxBlockHeight_tip (s : InMemory.Store) :
  getMaxBlockHeight s = (ok (tip s), s).
Proof. reflexivity. Qed.

Lemma collect_filter {A} (p : A -> bool) (l acc : list A) :
  fold_left (fun results x => if p x then results ++ [x] else results) l acc
  = acc ++ filter p l.
Proof.
  revert acc; induction l as [|x l IH]; intros acc; simpl.
  - rewrite app_nil_r; reflexivity.
  - rewrite IH. destruct (p x); [rewrite <- app_assoc|]; reflexivity.
Qed.

Lemma findUTXOsByBlockHeight_above (h : Z) (s : InMemory.Store) :
  findUTXOsByBlockHeight h s = (ok (above h s), s).
Proof.
  simpl. unfold InMemory.findUTXOsByBlockHeight, above, rows.
  rewrite collect_filter. reflexivity.
Qed.

Lemma above_tip_nil (s : InMemory.Store) : above (tip s) s = [].
Proof.
  unfold above.
  induction (rows s) as [|u l IH] eqn:E in |- *; [reflexivity|].
  assert (H : forall v, In v (rows s) -> (blockHeight v >? tip s) = false).
  { intros v Hv. apply tip_upper in Hv. destruct (Z.gtb_spec (blockHeight v) (tip s)); [lia | reflexivity]. }
  clear IH. rewrite <- E. clear E.
  induction (rows s) as [|v l' IH]; [reflexivity|].
  simpl. rewrite H by (left; reflexivity). apply IH.
  intros w Hw; apply H; right; exact Hw.
Qed.

Lemma above_nil_iff (h : Z) (s : InMemory.Store) :
  above h s = [] <-> forall u, In u (rows s) -> blockHeight u <= h.
Proof.
  unfold above. split.
  - intros E u Hu.
    destruct (Z.gtb_spec (blockHeight u) h) as [Hgt | Hle]; [|exact Hle].
    assert (Hin : In u (filter (fun u => blockHeight u >? h) (rows s))).
    { apply filter_In. split; [exact Hu|].
      destruct (Z.gtb_spec (blockHeight u) h); [reflexivity | lia]. }
    rewrite E in Hin. destruct Hin.
  - intros H. induction (rows s) as [|v l IH]; [reflexivity|].
    simpl. destruct (Z.gtb_spec (blockHeight v) h) as [Hgt | Hle].
    + specialize (H v (or_introl eq_refl)). lia.
    + apply IH. intros u Hu; apply H; right; exact Hu.
Qed.

(** * The height check *)

Lemma validateHeight_inmem (h : Z) (s : InMemory.Store) :
  validateHeight h s
  = (if h =? tip s + 1 then ok tt
     else err (InvalidBlockHeightError 400 (Some (tip s)) (Some h)), s).
Proof.
  unfold validateHeight. rewrite getMaxBlockHeight_tip.
  destruct (h =? tip s + 1); reflexivity.
Qed.

(** The conservation check only reads. *)
Lemma findByTxIdsAndVouts_snd (refs : list Ref) (s : InMemory.Store) :
  snd (findByTxIdsAndVouts refs s) = s.
Proof. reflexivity. Qed.

Lemma validateRegularTransactions_snd (txs : list Transaction)
      (s : InMemory.Store) :
  snd (validateRegularTransactions txs s) = s.
Proof.
  unfold validateRegularTransactions.
  destruct (length (filter isRegularTransaction txs) =? 0)%nat; reflexivity.
Qed.

Lemma validateInputOutputSum_snd (b : Block) (s : InMemory.Store) :
  snd (validateInputOutputSum b s) = s.
Proof.
  unfold validateInputOutputSum.
  destruct (validateCoinbaseTransactions (transactions b)); [|reflexivity].
  pose proof (validateRegularTransactions_snd (transactions b) s) as E.
  destruct (validateRegularTransactions (transactions b) s) as [[|e] s'];
    simpl in *; subst; reflexivity.
Qed.

Lemma validateCoinbaseTransactions_error (txs : list Transaction) (e : AppError) :
  validateCoinbaseTransactions txs = err e -> e = InvalidInputOutputSumError 400.
Proof.
  induction txs as [|tx txs IH]; simpl; [discriminate|].
  destruct (hasCoinbaseInputs tx && hasRegularInputs tx); [congruence|].
  destruct (hasCoinbaseInputs tx); [exact IH|].
  destruct (length (inputs tx) =? 0)%nat; [|exact IH].
  destruct (negb (sumOutputs (outputs tx) =? 0)); [congruence | exact IH].
Qed.

Lemma checkRegularTransactions_error (m : JSMap.t UTXO)
      (txs : list Transaction) (e : AppError) :
  checkRegularTransactions m txs = err e -> e = InvalidInputOutputSumError 400.
Proof.
  induction txs as [|tx txs IH]; simpl; [discriminate|].
  destruct (sumInputs m (inputs tx) 0); [|congruence].
  destruct (negb (z =? sumOutputs (outputs tx))); [congruence | exact IH].
Qed.

Lemma validateInputOutputSum_error (b : Block) (s : InMemory.Store)
      (e : AppError) :
  fst (validateInputOutputSum b s) = err e -> e = InvalidInputOutputSumError 400.
Proof.
  unfold validateInputOutputSum.
  destruct (validateCoinbaseTransactions (transactions b)) eqn:Ec.
  - unfold validateRegularTransactions.
    destruct (length (filter isRegularTransaction (transactions b)) =? 0)%nat;
      [discriminate|].
    simpl.
    match goal with
    | |- context [checkRegularTransactions ?m ?l] =>
        destruct (checkRegularTransactions m l) eqn:Er
    end; simpl; [discriminate|].
    intros E; inversion E; subst.
    eapply checkRegularTransactions_error; eassumption.
  - simpl. intros E; inversion E; subst.
    eapply validateCoinbaseTransactions_error; eassumption.
Qed.

(** [processBlock] on the in-memory store, check by check. *)
Lemma processBlock_inmem (b : Block) (s : InMemory.Store) :
  processBlock b s =
  if height b =? tip s + 1 then
    match fst (validateInputOutputSum b s) with
    | err e => (err e, s)
    | ok _ =>
        match validateBlockId b with
        | err e => (err e, s)
        | ok _ => processTransactions (height b) (transactions b) s
        end
    end
  else (err (InvalidBlockHeightError 400 (Some (tip s)) (Some (height b))), s).
Proof.
  unfold processBlock. rewrite validateHeight_inmem.
  destruct (height b =? tip s + 1); [|reflexivity].
  pose proof (validateInputOutputSum_snd b s) as E.
  destruct (validateInputOutputSum b s) as [[|e] s']; simpl in *; subst;
    reflexivity.
Qed.

(** * Errors of the apply phase on the in-memory store *)

Lemma markAsSpent_inmem_error (t : JSString) (v : Z) (x : JSString)
      (s : InMemory.Store) (e : AppError) :
  fst (markAsSpent t v x s) = err e ->
  e = UTXONotFoundError 404 /\ snd (markAsSpent t v x s) = s.
Proof.
  simpl. unfold InMemory.markAsSpent.
  destruct (JSMap.get (InMemory.utxos s) (InMemory.getKey t v)) as [u|];
    [destruct (spent u)|]; simpl; intros E; inversion E; auto.
Qed.

Lemma spendInputs_inmem_error (x : JSString) (ins : list Input)
      (s : InMemory.Store) (e : AppError) :
  fst (spendInputs x ins s) = err e -> e = UTXONotFoundError 404.
Proof.
  revert s; induction ins as [|i ins IH]; intros s; simpl; [discriminate|].
  destruct (isCoinbaseInput (txId i)); [apply IH|].
  pose proof (markAsSpent_inmem_error (txId i) (index i) x s) as M.
  simpl in M.
  destruct (InMemory.markAsSpent (txId i) (index i) x s) as [[|e'] s'] eqn:Em;
    simpl in *.
  - apply IH.
  - intros E; inversion E; subst. apply (M e eq_refl).
Qed.

Lemma createOutputs_inmem_ok (x : JSString) (h : Z) (outs : list Output)
      (i : nat) (s : InMemory.Store) :
  fst (createOutputs x h i outs s) = ok tt.
Proof.
  revert i s; induction outs as [|o outs IH]; intros i s; simpl;
    [reflexivity | apply IH].
Qed.

Lemma processTransactions_inmem_error (h : Z) (txs : list Transaction)
      (s : InMemory.Store) (e : AppError) :
  fst (processTransactions h txs s) = err e -> e = UTXONotFoundError 404.
Proof.
  revert s; induction txs as [|tx txs IH]; intros s; simpl; [discriminate|].
  unfold processTransaction.
  pose proof (spendInputs_inmem_error (tx_id tx) (inputs tx) s) as S1.
  destruct (spendInputs (tx_id tx) (inputs tx) s) as [[[]|e1] s1]; simpl in *.
  - pose proof (createOutputs_inmem_ok (tx_id tx) h (outputs tx) 0 s1) as C.
    destruct (createOutputs (tx_id tx) h 0 (outputs tx) s1) as [[[]|e2] s2];
      simpl in *; [apply IH | discriminate].
  - intros E; inversion E; subst. apply (S1 e eq_refl).
Qed.

(** * The block identity check *)


(** * The order of the checks *)

(** C6, as the code has it.  The checks run in the order height,
    conservation, identity; the height check asks for [tip + 1] and its
    error carries the height observed in the block and the current tip
    (one less than the height expected); a failed check returns its own
    error and leaves the store as it was. *)
Theorem validation_order (b : Block) (s : InMemory.Store) :
  (height b <> tip s + 1 ->
   processBlock b s
   = (err (InvalidBlockHeightError 400 (Some (tip s)) (Some (height b))), s))
  /\ (height b = tip s + 1 ->
      fst (validateInputOutputSum b s) <> ok tt ->
      processBlock b s = (err (InvalidInputOutputSumError 400), s))
  /\ (height b = tip s + 1 ->
      fst (validateInputOutputSum b s) = ok tt ->
      id b <> expectedHash b ->
      processBlock b s = (err (InvalidBlockIdError 400), s))
  /\ (height b = tip s + 1 ->
      fst (validateInputOutputSum b s) = ok tt ->
      id b = expectedHash b ->
      processBlock b s = processTransactions (height b) (transactions b) s).
Proof.
  rewrite processBlock_inmem.
  destruct (Z.eqb_spec (height b) (tip s + 1)) as [Eh | Nh].
  - split; [intros N; contradiction|].
    pose proof (validateBlockId_spec b) as V.
    destruct (fst (validateInputOutputSum b s)) as [[]|e] eqn:Es.
    + split; [intros _ N; exfalso; apply N; reflexivity|].
      split; intros _ _ E; destruct V as [[E' V] | [E' V]]; rewrite V;
        congruence.
    + apply validateInputOutputSum_error in Es; subst e.
      split; [reflexivity|]. split; intros _ E; discriminate.
  - split; [reflexivity|]. repeat split; intros E; contradiction.
Qed.

Lemma validation_order_witness :
  processBlock emptyBlockAt5 InMemory.empty
  = (err (InvalidBlockHeightError 400 (Some 0) (Some 5)), InMemory.empty).
Proof.
  apply (proj1 (validation_order emptyBlockAt5 InMemory.empty)).
  vm_compute. discriminate.
Defined.

(** C6, as stated, fails: on the empty store a block at height 5 is
    refused with an error that carries 5 and 0, the current tip, while the
    height expected is 1. *)
Lemma height_error_carries_tip_not_expected :
  exists e,
    fst (processBlock emptyBlockAt5 InMemory.empty) = err e
    /\ height emptyBlockAt5 <> tip InMemory.empty + 1
    /\ carriedHeights e = [tip InMemory.empty; height emptyBlockAt5]
    /\ ~ In (tip InMemory.empty + 1) (carriedHeights e).
Proof.
  exists (InvalidBlockHeightError 400 (Some 0) (Some 5)).
  split; [vm_compute; reflexivity|].
  split; [vm_compute; discriminate|].
  split; [reflexivity|].
  vm_compute. intros [E | [E | []]]; discriminate.
Qed.

(** * Validation of a rollback *)

Lemma rollbackToHeight_nothing_above (target : Z) (s : InMemory.Store) :
  0 <= target <= tip s ->
  above target s = [] ->
  rollbackToHeight target s
  = (err (NoBlocksToRollbackError 400 target (tip s)), s).
Proof.
  intros Ht Ha. unfold rollbackToHeight, validateRollbackHeight.
  destruct (Z.ltb_spec target 0); [lia|].
  rewrite getMaxBlockHeight_tip.
  destruct (Z.gtb_spec target (tip s)); [lia|].
  rewrite findUTXOsByBlockHeight_above, Ha. simpl.
  reflexivity.
Qed.

(** C7.  A negative target, or one above the tip, is refused with
    [InvalidRollbackHeight]; a target in range above which the store has no
    row, which is the case exactly when the target is the tip (in
    particular when the store is empty), is refused with
    [NoBlocksToRollback] carrying the target and the current height; so a
    rollback to the tip always fails that way.  The store is unchanged in
    every one of these cases. *)
Theorem rollback_validation (target : Z) (s : InMemory.Store) :
  (target < 0 ->
   rollbackToHeight target s
   = (err (InvalidRollbackHeightError 400 (Some target) None), s))
  /\ (0 <= target -> target > tip s ->
      rollbackToHeight target s
      = (err (InvalidRollbackHeightError 400 (Some target) (Some (tip s))), s))
  /\ (0 <= target <= tip s ->
      ((forall u, In u (rows s) -> blockHeight u <= target)
       <-> target = tip s \/ rows s = []))
  /\ (0 <= target <= tip s ->
      (forall u, In u (rows s) -> blockHeight u <= target) ->
      rollbackToHeight target s
      = (err (NoBlocksToRollbackError 400 target (tip s)), s))
  /\ rollbackToHeight (tip s) s
     = (err (NoBlocksToRollbackError 400 (tip s) (tip s)), s).
Proof.
  split; [|split; [|split; [|split]]].
  - intros Hneg. unfold rollbackToHeight, validateRollbackHeight.
    destruct (Z.ltb_spec target 0); [reflexivity | lia].
  - intros Hpos Hgt. unfold rollbackToHeight, validateRollbackHeight.
    destruct (Z.ltb_spec target 0); [lia|].
    rewrite getMaxBlockHeight_tip.
    destruct (Z.gtb_spec target (tip s)); [reflexivity | lia].
  - intros Ht. split.
    + intros Hall. destruct (tip_attained s) as [E0 | [u [Hu Eu]]].
      * left. lia.
      * left. specialize (Hall u Hu). lia.
    + intros [E | E] u Hu.
      * subst target. apply tip_upper, Hu.
      * rewrite E in Hu. destruct Hu.
  - intros Ht Hall. apply rollbackToHeight_nothing_above; [exact Ht|].
    apply above_nil_iff, Hall.
  - apply rollbackToHeight_nothing_above.
    + pose proof (tip_nonneg s). lia.
    + apply above_tip_nil.
Qed.

Lemma rollback_validation_witness :
  rollbackToHeight (-1) (storeAfter [readmeBlock1])
  = (err (InvalidRollbackHeightError 400 (Some (-1)) None),
     storeAfter [readmeBlock1])
  /\ rollbackToHeight 999 (storeAfter [readmeBlock1])
     = (err (InvalidRollbackHeightError 400 (Some 999) (Some 1)),
        storeAfter [readmeBlock1])
  /\ rollbackToHeight 0 InMemory.empty
     = (err (NoBlocksToRollbackError 400 0 0), InMemory.empty).
Proof.
  split; [|split].
  - apply (proj1 (rollback_validation (-1) (storeAfter [readmeBlock1]))).
    lia.
  - apply (proj1 (proj2 (rollback_validation 999 (storeAfter [readmeBlock1]))));
      [lia | vm_compute; reflexivity].
  - apply (proj1 (proj2 (proj2 (proj2
                   (rollback_validation 0 InMemory.empty))))).
    + vm_compute. split; discriminate.
    + intros u [].
Defined.

(** * Blocks that write nothing *)

Section WritesNothing.
Context {R : Type} `{IUTXORepository R}.

Lemma validateCoinbaseTransactions_bare (txs : list Transaction) :
  Forall noInputsNoOutputs txs -> validateCoinbaseTransactions txs = ok tt.
Proof.
  induction 1 as [|tx txs [Hi Ho] _ IH]; simpl; [reflexivity|].
  unfold hasCoinbaseInputs, hasRegularInputs. rewrite Hi, Ho. simpl.
  exact IH.
Qed.

Lemma filter_regular_bare (txs : list Transaction) :
  Forall noInputsNoOutputs txs -> filter isRegularTransaction txs = [].
Proof.
  induction 1 as [|tx txs [Hi Ho] _ IH]; simpl; [reflexivity|].
  unfold isRegularTransaction, hasCoinbaseInputs. rewrite Hi. simpl.
  exact IH.
Qed.

Lemma processTransactions_bare (h : Z) (txs : list Transaction) (s : R) :
  Forall noInputsNoOutputs txs -> processTransactions h txs s = (ok tt, s).
Proof.
  induction 1 as [|tx txs [Hi Ho] _ IH]; simpl; [reflexivity|].
  unfold processTransaction. rewrite Hi, Ho. simpl. exact IH.
Qed.

(** C10.  On any store whose tip reads [H], a block at height [H + 1]
    with the right identifier whose transactions (if any) have neither
    inputs nor outputs is accepted and the store is left as it was; the
    tip therefore still reads [H], and a block accepted next has the same
    height again. *)
Theorem bare_block_accepted_writes_nothing (b : Block) (s : R) (H0 : Z) :
  getMaxBlockHeight s = (ok H0, s) ->
  height b = H0 + 1 ->
  id b = expectedHash b ->
  Forall noInputsNoOutputs (transactions b) ->
  processBlock b s = (ok tt, s)
  /\ getMaxBlockHeight (snd (processBlock b s)) = (ok H0, s)
  /\ forall b', fst (processBlock b' (snd (processBlock b s))) = ok tt ->
                height b' = height b.
Proof.
  intros Hmax Hh Hid Hbare.
  assert (P : processBlock b s = (ok tt, s)).
  { unfold processBlock, validateHeight. rewrite Hmax.
    replace (height b =? H0 + 1) with true by (symmetry; apply Z.eqb_eq, Hh).
    simpl. unfold validateInputOutputSum.
    rewrite (validateCoinbaseTransactions_bare _ Hbare).
    unfold validateRegularTransactions.
    rewrite (filter_regular_bare _ Hbare). simpl.
    destruct (validateBlockId_spec b) as [[_ V] | [N _]];
      [rewrite V | contradiction].
    apply processTransactions_bare, Hbare. }
  rewrite P. simpl. split; [reflexivity|]. split; [exact Hmax|].
  intros b'. unfold processBlock, validateHeight. rewrite Hmax.
  destruct (Z.eqb_spec (height b') (H0 + 1)); simpl; [lia | discriminate].
Qed.
End WritesNothing.

Lemma bare_block_accepted_writes_nothing_witness :
  processBlock emptyBlockAt1 InMemory.empty = (ok tt, InMemory.empty)
  /\ processBlock noTransactionsAt1 InMemory.empty = (ok tt, InMemory.empty).
Proof.
  split.
  - apply (bare_block_accepted_writes_nothing emptyBlockAt1 InMemory.empty 0);
      [reflexivity | reflexivity | vm_compute; reflexivity |].
    repeat constructor.
  - apply (bare_block_accepted_writes_nothing noTransactionsAt1
             InMemory.empty 0);
      [reflexivity | reflexivity | vm_compute; reflexivity | constructor].
Defined.

(** * [Map]: reading after writing *)

Section MapFacts.
Context {V : Type}.
Implicit Types (m : JSMap.t V) (k : JSString) (v : V).

Lemma get_set_same m k v : JSMap.get (JSMap.set m k v) k = Some v.
Proof.
  induction m as [|[k' v'] m IH]; simpl.
  - rewrite JSString_eqb_refl; reflexivity.
  - destruct (JSString_eqb k' k) eqn:E; simpl; rewrite E; auto.
Qed.

Lemma get_set_other m k k' v :
  k <> k' -> JSMap.get (JSMap.set m k v) k' = JSMap.get m k'.
Proof.
  intros N. induction m as [|[k0 v0] m IH]; simpl.
  - apply JSString_eqb_neq in N. rewrite N. reflexivity.
  - destruct (JSString_eqb k0 k) eqn:E; simpl.
    + apply JSString_eqb_eq in E; subst k0.
      apply JSString_eqb_neq in N. rewrite N. reflexivity.
    + destruct (JSString_eqb k0 k'); [reflexivity | exact IH].
Qed.

Lemma get_In m k v : JSMap.get m k = Some v -> In (k, v) m.
Proof.
  induction m as [|[k' v'] m IH]; simpl; [discriminate|].
  destruct (JSString_eqb k' k) eqn:E.
  - apply JSString_eqb_eq in E. intros H; inversion H; subst. left; reflexivity.
  - intros H; right; apply IH, H.
Qed.

Lemma get_None_notin m k : JSMap.get m k = None -> ~ In k (map fst m).
Proof.
  induction m as [|[k' v'] m IH]; simpl; [tauto|].
  destruct (JSString_eqb k' k) eqn:E; [discriminate|].
  apply JSString_eqb_neq in E. intros H [F | F]; [congruence | exact (IH H F)].
Qed.

Lemma get_Some_in_keys m k v : JSMap.get m k = Some v -> In k (map fst m).
Proof. intros H. apply get_In in H. apply (in_map fst) in H. exact H. Qed.

Variable key : V -> JSString.

Lemma get_fold_set_origin (l : list V) m k v :
  JSMap.get (fold_left (fun m x => JSMap.set m (key x) x) l m) k = Some v ->
  (In v l /\ key v = k) \/ JSMap.get m k = Some v.
Proof.
  revert m; induction l as [|x l IH]; intros m; simpl; [auto|].
  intros H. destruct (IH _ H) as [[Hin Hk] | Hm]; [left; auto|].
  destruct (JSString_eqb (key x) k) eqn:E.
  - apply JSString_eqb_eq in E. subst k. rewrite get_set_same in Hm.
    inversion Hm; subst. left; auto.
  - apply JSString_eqb_neq in E. rewrite get_set_other in Hm by exact E.
    right; exact Hm.
Qed.

Lemma get_fold_set_present (l : list V) m k :
  (exists x, In x l /\ key x = k) ->
  exists v,
    JSMap.get (fold_left (fun m x => JSMap.set m (key x) x) l m) k = Some v.
Proof.
  revert m; induction l as [|x l IH]; intros m [y [Hin Hk]]; simpl in *;
    [destruct Hin|].
  destruct (in_dec (list_eq_dec Z.eq_dec) k (map key l)) as [Hl | Hl].
  - apply in_map_iff in Hl. destruct Hl as [z [Hz Hzin]].
    apply IH. exists z; auto.
  - destruct Hin as [-> | Hin];
      [|exfalso; apply Hl; apply in_map_iff; exists y; auto].
    subst k. clear IH.
    assert (G : forall m', JSMap.get m' (key y) = Some y ->
                JSMap.get (fold_left (fun m x => JSMap.set m (key x) x) l m')
                          (key y) = Some y).
    { induction l as [|z l IHl]; intros m' Hm'; simpl; [exact Hm'|].
      apply IHl.
      - intros F; apply Hl; right; exact F.
      - rewrite get_set_other; [exact Hm'|].
        intros F; apply Hl; left; exact F. }
    exists y. apply G, get_set_same.
Qed.
End MapFacts.

(** * The conservation check *)

Lemma collect_found (s : InMemory.Store) (refs : list Ref) (acc : list UTXO) :
  fold_left
    (fun results ref =>
       match JSMap.get (InMemory.utxos s)
                       (InMemory.getKey (ref_txId ref) (ref_vout ref)) with
       | Some utxo => if negb (spent utxo) then results ++ [utxo] else results
       | None => results
       end) refs acc
  = acc ++ found s refs.
Proof.
  revert acc; induction refs as [|r refs IH]; intros acc; simpl.
  - rewrite app_nil_r. reflexivity.
  - rewrite IH. unfold lookupUnspent.
    destruct (JSMap.get (InMemory.utxos s)
                (InMemory.getKey (ref_txId r) (ref_vout r))) as [u|];
      [destruct (spent u)|]; simpl; rewrite <- ?app_assoc; reflexivity.
Qed.

Lemma findByTxIdsAndVouts_found (refs : list Ref) (s : InMemory.Store) :
  findByTxIdsAndVouts refs s = (ok (found s refs), s).
Proof.
  simpl. unfold InMemory.findByTxIdsAndVouts. rewrite collect_found.
  reflexivity.
Qed.

Lemma lookupUnspent_key (s : InMemory.Store) (t t' : JSString) (v v' : Z) :
  InMemory.getKey t v = InMemory.getKey t' v' ->
  lookupUnspent s t v = lookupUnspent s t' v'.
Proof. unfold lookupUnspent. intros ->. reflexivity. Qed.

Lemma lookupUnspent_own_key (s : InMemory.Store) (t : JSString) (v : Z)
      (u : UTXO) :
  keyed s -> lookupUnspent s t v = Some u ->
  InMemory.getKey (txid u) (vout u) = InMemory.getKey t v /\ spent u = false.
Proof.
  unfold lookupUnspent. intros K H.
  destruct (JSMap.get (InMemory.utxos s) (InMemory.getKey t v)) as [u'|] eqn:G;
    [|discriminate].
  destruct (spent u') eqn:Sp; [discriminate|]. inversion H; subst u'.
  split; [|exact Sp].
  apply get_In in G. unfold keyed in K. rewrite Forall_forall in K.
  specialize (K _ G). simpl in K. symmetry; exact K.
Qed.

Lemma found_In (s : InMemory.Store) (refs : list Ref) (u : UTXO) :
  In u (found s refs) <->
  exists r, In r refs /\ lookupUnspent s (ref_txId r) (ref_vout r) = Some u.
Proof.
  unfold found. rewrite in_flat_map. split.
  - intros [r [Hr Hu]]. exists r. split; [exact Hr|].
    destruct (lookupUnspent s (ref_txId r) (ref_vout r)) as [u'|];
      [destruct Hu as [-> | []]; reflexivity | destruct Hu].
  - intros [r [Hr Hu]]. exists r. split; [exact Hr|]. rewrite Hu. left; auto.
Qed.

(** What the local [utxoMap] answers for a reference that was looked up. *)
Lemma utxoMap_lookup (s : InMemory.Store) (refs : list Ref) (t : JSString)
      (v : Z) :
  keyed s -> In (mkRef t v) refs ->
  JSMap.get (utxoMapOf (found s refs)) (utxoKey t v) = lookupUnspent s t v.
Proof.
  intros K Hin. unfold utxoMapOf.
  destruct (lookupUnspent s t v) as [u|] eqn:L.
  - destruct (lookupUnspent_own_key s t v u K L) as [Ek _].
    destruct (get_fold_set_present (fun x => utxoKey (txid x) (vout x))
                (found s refs) [] (utxoKey t v)) as [u' G].
    { exists u. split; [|exact Ek]. apply found_In. exists (mkRef t v). auto. }
    rewrite G. f_equal.
    apply get_fold_set_origin in G. destruct G as [[Hu' Ek'] | G];
      [|discriminate].
    apply found_In in Hu'. destruct Hu' as [r [_ Lr]].
    destruct (lookupUnspent_own_key s _ _ u' K Lr) as [Er _].
    assert (E : lookupUnspent s t v = Some u').
    { rewrite <- Lr. apply lookupUnspent_key.
      transitivity (InMemory.getKey (txid u') (vout u')); [|exact Er].
      symmetry; exact Ek'. }
    congruence.
  - destruct (JSMap.get _ _) as [u'|] eqn:G; [|reflexivity].
    apply get_fold_set_origin in G. destruct G as [[Hu' Ek'] | G];
      [|discriminate].
    apply found_In in Hu'. destruct Hu' as [r [_ Lr]].
    destruct (lookupUnspent_own_key s _ _ u' K Lr) as [Er _].
    assert (E : lookupUnspent s t v = Some u').
    { rewrite <- Lr. apply lookupUnspent_key.
      transitivity (InMemory.getKey (txid u') (vout u')); [|exact Er].
      symmetry; exact Ek'. }
    congruence.
Qed.

Lemma sumInputs_spec (s : InMemory.Store) (m : JSMap.t UTXO)
      (ins : list Input) (acc : Z) :
  (forall i, In i ins ->
             JSMap.get m (utxoKey (txId i) (index i))
             = lookupUnspent s (txId i) (index i)) ->
  (Forall (resolves s) ins /\
   sumInputs m ins acc
   = Some (fold_left (fun sum i => sum + inputValue s i) ins acc))
  \/ ((exists i, In i ins /\ ~ resolves s i) /\ sumInputs m ins acc = None).
Proof.
  revert acc; induction ins as [|i ins IH]; intros acc Hm; simpl.
  - left. split; [constructor | reflexivity].
  - rewrite (Hm i (or_introl eq_refl)).
    destruct (lookupUnspent s (txId i) (index i)) as [u|] eqn:L.
    + destruct (IH (acc + utxo_value u)) as [[Hall E] | [[j [Hj Nj]] E]].
      * intros j Hj; apply Hm; right; exact Hj.
      * left. split.
        -- constructor; [unfold resolves; rewrite L; discriminate | exact Hall].
        -- rewrite E. unfold inputValue. rewrite L. reflexivity.
      * right. split; [exists j; split; [right; exact Hj | exact Nj] | exact E].
    + right. split; [|reflexivity].
      exists i. split; [left; reflexivity|].
      unfold resolves. rewrite L. intros N; apply N; reflexivity.
Qed.

Lemma Forall_not_exists {A} (P : A -> Prop) (l : list A) :
  Forall P l -> ~ exists x, In x l /\ ~ P x.
Proof.
  intros F [x [Hx N]]. rewrite Forall_forall in F. exact (N (F x Hx)).
Qed.

Lemma checkRegularTransactions_spec (s : InMemory.Store) (m : JSMap.t UTXO)
      (txs : list Transaction) :
  (forall T i, In T txs -> In i (inputs T) ->
               JSMap.get m (utxoKey (txId i) (index i))
               = lookupUnspent s (txId i) (index i)) ->
  (checkRegularTransactions m txs = ok tt /\
   forall T, In T txs ->
             Forall (resolves s) (inputs T)
             /\ sumInputValues s (inputs T) = sumOutputs (outputs T))
  \/ (checkRegularTransactions m txs = err (InvalidInputOutputSumError 400) /\
      exists T, In T txs /\
                ((exists i, In i (inputs T) /\ ~ resolves s i)
                 \/ sumInputValues s (inputs T) <> sumOutputs (outputs T))).
Proof.
  induction txs as [|T txs IH]; intros Hm; simpl.
  - left. split; [reflexivity | intros T []].
  - destruct (sumInputs_spec s m (inputs T) 0) as [[Hall E] | [Hex E]].
    { intros i Hi. apply (Hm T i); [left; reflexivity | exact Hi]. }
    + rewrite E. fold (sumInputValues s (inputs T)).
      destruct (Z.eqb_spec (sumInputValues s (inputs T))
                           (sumOutputs (outputs T))) as [Es | Ns]; simpl.
      * destruct IH as [[Eok Hok] | [Eerr [T' [HT' V]]]].
        { intros T' i HT' Hi. apply (Hm T' i); [right; exact HT' | exact Hi]. }
        -- left. split; [exact Eok|]. intros T' [<- | HT']; auto.
        -- right. split; [exact Eerr|]. exists T'. split; [right|]; assumption.
      * right. split; [reflexivity|]. exists T. split; [left; reflexivity|].
        right; exact Ns.
    + rewrite E. right. split; [reflexivity|].
      exists T. split; [left; reflexivity | left; exact Hex].
Qed.

Lemma validateCoinbaseTransactions_spec (txs : list Transaction) :
  (validateCoinbaseTransactions txs = ok tt /\
   forall T, In T txs -> ~ mixesInputs T /\ ~ createsFromNothing T)
  \/ (validateCoinbaseTransactions txs = err (InvalidInputOutputSumError 400) /\
      exists T, In T txs /\ (mixesInputs T \/ createsFromNothing T)).
Proof.
  induction txs as [|T txs IH]; simpl.
  - left. split; [reflexivity | intros T []].
  - unfold mixesInputs, createsFromNothing in *.
    destruct (hasCoinbaseInputs T) eqn:Hc; destruct (hasRegularInputs T) eqn:Hr;
      simpl.
    + right. split; [reflexivity|]. exists T. split; [left; reflexivity|].
      left; rewrite Hc, Hr; auto.
    + destruct IH as [[E Hok] | [E [T' [HT' V]]]].
      * left. split; [exact E|]. intros T' [<- | HT']; [|auto].
        rewrite Hc, Hr. split; [intros [_ F]; discriminate|].
        intros [Hi _]. unfold hasCoinbaseInputs in Hc. rewrite Hi in Hc.
        discriminate.
      * right. split; [exact E|]. exists T'. split; [right|]; assumption.
    + destruct (inputs T) as [|i ins] eqn:Hi.
      { unfold hasRegularInputs in Hr. rewrite Hi in Hr. discriminate. }
      simpl. destruct IH as [[E Hok] | [E [T' [HT' V]]]].
      * left. split; [exact E|]. intros T' [<- | HT']; [|auto].
        rewrite Hc, Hi. split; [intros [F _]; discriminate|].
        intros [F _]; discriminate.
      * right. split; [exact E|]. exists T'. split; [right|]; assumption.
    + destruct (inputs T) as [|i ins] eqn:Hi; simpl.
      * destruct (Z.eqb_spec (sumOutputs (outputs T)) 0) as [E0 | N0]; simpl.
        -- destruct IH as [[E Hok] | [E [T' [HT' V]]]].
           ++ left. split; [exact E|]. intros T' [<- | HT']; [|auto].
              rewrite Hc, Hi. split; [intros [F _]; discriminate|].
              intros [_ F]; contradiction.
           ++ right. split; [exact E|]. exists T'. split; [right|]; assumption.
        -- right. split; [reflexivity|]. exists T. split; [left; reflexivity|].
           right. rewrite Hi. auto.
      * destruct IH as [[E Hok] | [E [T' [HT' V]]]].
        -- left. split; [exact E|]. intros T' [<- | HT']; [|auto].
           rewrite Hc, Hi. split; [intros [F _]; discriminate|].
           intros [F _]; discriminate.
        -- right. split; [exact E|]. exists T'. split; [right|]; assumption.
Qed.

Lemma regular_iff (T : Transaction) :
  isRegularTransaction T = true
  <-> hasCoinbaseInputs T = false /\ inputs T <> [].
Proof.
  unfold isRegularTransaction. rewrite andb_true_iff, negb_true_iff.
  destruct (inputs T); simpl; split; intros [A B]; split; auto;
    try discriminate; try congruence.
Qed.

Lemma inputRefsOf_In (txs : list Transaction) (T : Transaction) (i : Input) :
  In T txs -> In i (inputs T) -> In (mkRef (txId i) (index i)) (inputRefsOf txs).
Proof.
  intros HT Hi. unfold inputRefsOf. apply in_flat_map. exists T.
  split; [exact HT|]. apply in_map_iff. exists i. auto.
Qed.

Lemma validateRegularTransactions_inmem (txs : list Transaction)
      (s : InMemory.Store) :
  validateRegularTransactions txs s
  = (checkRegularTransactions
       (utxoMapOf (found s (inputRefsOf (filter isRegularTransaction txs))))
       (filter isRegularTransaction txs), s).
Proof.
  unfold validateRegularTransactions.
  destruct (filter isRegularTransaction txs) as [|T regs] eqn:E;
    [reflexivity|].
  simpl length. simpl Nat.eqb. cbv iota.
  fold (inputRefsOf (T :: regs)).
  rewrite findByTxIdsAndVouts_found. reflexivity.
Qed.

Lemma validateInputOutputSum_spec (b : Block) (s : InMemory.Store) :
  keyed s ->
  (fst (validateInputOutputSum b s) = ok tt /\
   forall T, In T (transactions b) -> ~ violatesConservation s T)
  \/ (fst (validateInputOutputSum b s) = err (InvalidInputOutputSumError 400) /\
      exists T, In T (transactions b) /\ violatesConservation s T).
Proof.
  intros K. unfold validateInputOutputSum, violatesConservation.
  destruct (validateCoinbaseTransactions_spec (transactions b))
    as [[E Hok] | [E [T [HT V]]]]; rewrite E.
  - rewrite validateRegularTransactions_inmem.
    set (regs := filter isRegularTransaction (transactions b)).
    destruct (checkRegularTransactions_spec s
                (utxoMapOf (found s (inputRefsOf regs))) regs)
      as [[Er Hr] | [Er [T [HT V]]]].
    { intros T i HT Hi. apply utxoMap_lookup; [exact K|].
      apply inputRefsOf_In with T; assumption. }
    + rewrite Er. simpl. left. split; [reflexivity|].
      intros T HT [M | [C | [Hc [Hi U]]]].
      * exact (proj1 (Hok T HT) M).
      * exact (proj2 (Hok T HT) C).
      * assert (HR : In T regs).
        { apply filter_In. split; [exact HT | apply regular_iff; auto]. }
        destruct (Hr T HR) as [Hall Hs].
        destruct U as [U | U]; [exact (Forall_not_exists _ _ Hall U) | auto].
    + rewrite Er. simpl. right. split; [reflexivity|].
      apply filter_In in HT. destruct HT as [HT HR].
      apply regular_iff in HR. destruct HR as [Hc Hi].
      exists T. split; [exact HT|]. right; right.
      unfold regularUnbalanced. auto.
  - simpl. right. split; [reflexivity|]. exists T. split; [exact HT|].
    destruct V; auto.
Qed.

Lemma isCoinbaseInput_spec (t : JSString) :
  isCoinbaseInput t = true <-> t <> [] /\ Forall (fun c => c = 48) t.
Proof.
  destruct t as [|c t].
  - simpl. split; [discriminate | intros [N _]; contradiction].
  - unfold isCoinbaseInput. rewrite forallb_forall, Forall_forall. split.
    + intros H. split; [discriminate|]. intros x Hx. apply Z.eqb_eq, H, Hx.
    + intros [_ H] x Hx. apply Z.eqb_eq, H, Hx.
Qed.


Lemma keyedb_keyed (s : InMemory.Store) : keyedb s = true -> keyed s.
Proof.
  unfold keyedb, keyed. rewrite forallb_forall, Forall_forall.
  intros H e He. apply JSString_eqb_eq, H, He.
Qed.

Lemma distinctb_NoDup (l : list JSString) : distinctb l = true -> NoDup l.
Proof.
  induction l as [|x l IH]; simpl; [constructor|].
  rewrite andb_true_iff, negb_true_iff. intros [Hx Hl].
  constructor; [|apply IH, Hl].
  intros Hin. assert (E : existsb (JSString_eqb x) l = true).
  { apply existsb_exists. exists x. split; [exact Hin | apply JSString_eqb_refl]. }
  congruence.
Qed.

Lemma wfb_wf (s : InMemory.Store) : wfb s = true -> wf s.
Proof.
  unfold wfb, wf. rewrite andb_true_iff. intros [D K].
  split; [apply distinctb_NoDup, D | apply keyedb_keyed, K].
Qed.


(** * Failures of the store *)

Section StoreFailures.
Context {R : Type} `{IUTXORepository R}.

Lemma processBlock_height_read_fails (b : Block) (s s' : R) (e : AppError) :
  getMaxBlockHeight s = (err e, s') ->
  processBlock b s = (err (InvalidBlockHeightError 400 None None), s').
Proof.
  intros E. unfold processBlock, validateHeight. rewrite E. reflexivity.
Qed.

Lemma rollback_height_read_fails (t : Z) (s s' : R) (e : AppError) :
  0 <= t -> getMaxBlockHeight s = (err e, s') ->
  rollbackToHeight t s
  = (err (InvalidRollbackHeightError 400 (Some t) None), s').
Proof.
  intros Ht E. unfold rollbackToHeight, validateRollbackHeight.
  destruct (Z.ltb_spec t 0); [lia|]. rewrite E. reflexivity.
Qed.

Lemma validateInputOutputSum_read_fails (b : Block) (s s' : R)
      (e : AppError) :
  validateCoinbaseTransactions (transactions b) = ok tt ->
  filter isRegularTransaction (transactions b) <> [] ->
  findByTxIdsAndVouts
    (inputRefsOf (filter isRegularTransaction (transactions b))) s
  = (err e, s') ->
  validateInputOutputSum b s = (err (InvalidInputOutputSumError 400), s').
Proof.
  intros Ec Hne E. unfold validateInputOutputSum. rewrite Ec.
  unfold validateRegularTransactions.
  destruct (filter isRegularTransaction (transactions b)) as [|T regs];
    [contradiction|].
  simpl length. simpl Nat.eqb. cbv iota.
  fold (inputRefsOf (T :: regs)). rewrite E. reflexivity.
Qed.

Lemma rollback_find_fails (t : Z) (s s1 s' : R) (e : AppError) :
  validateRollbackHeight t s = (ok tt, s1) ->
  findUTXOsByBlockHeight t s1 = (err e, s') ->
  rollbackToHeight t s = (err e, s').
Proof.
  intros Ev E. unfold rollbackToHeight. rewrite Ev, E. reflexivity.
Qed.

(** The route answers with the status code and the message of the
    error the service returned, whatever it is. *)
Lemma blocksRoute_of_error (b : Block) (s : R) (e : AppError) :
  fst (processBlock b s) = err e ->
  fst (blocksRoute b s) = mkReply (errorStatusCode e) (Error (errorMessage e)).
Proof.
  unfold blocksRoute. destruct (processBlock b s) as [[v|e'] s']; simpl;
    [discriminate|].
  intros E; inversion E; reflexivity.
Qed.
End StoreFailures.

(** C8, as the code has it.  A failing read of the store during the height
    check, the conservation check or the check of a rollback height is
    answered with that check's own error, status 400; a failure of
    [findUTXOsByBlockHeight] is returned as it is, a [DatabaseError] with
    status 500; and the route replies with the status and the message of
    whatever error [processBlock] returns, which on the in-memory store is
    one of the three validation errors or the [UTXONotFound], status 404, of
    [markAsSpent]. *)
Theorem store_failures_surface (b : Block) (t : Z)
        (s : Throwing InMemory.Store) :
  (throws s GetMaxBlockHeight = true ->
   processBlock b s = (err (InvalidBlockHeightError 400 None None), s)
   /\ status (fst (blocksRoute b s)) = 400
   /\ (0 <= t ->
       rollbackToHeight t s
       = (err (InvalidRollbackHeightError 400 (Some t) None), s)))
  /\ (throws s GetMaxBlockHeight = false ->
      throws s FindByTxIdsAndVouts = true ->
      height b = tip (inner s) + 1 ->
      validateCoinbaseTransactions (transactions b) = ok tt ->
      filter isRegularTransaction (transactions b) <> [] ->
      processBlock b s = (err (InvalidInputOutputSumError 400), s))
  /\ (throws s GetMaxBlockHeight = false ->
      throws s FindUTXOsByBlockHeight = true ->
      0 <= t <= tip (inner s) ->
      rollbackToHeight t s = (err (DatabaseError 500), s)
      /\ status (fst (rollbackRoute t s)) = 500)
  /\ (forall (b' : Block) (m : InMemory.Store) (e : AppError),
        fst (processBlock b' m) = err e ->
        fst (blocksRoute b' m)
        = mkReply (errorStatusCode e) (Error (errorMessage e))
        /\ (e = InvalidBlockHeightError 400 (Some (tip m)) (Some (height b'))
            \/ e = InvalidInputOutputSumError 400
            \/ e = InvalidBlockIdError 400
            \/ e = UTXONotFoundError 404)).
Proof.
  destruct s as [m th]. simpl.
  split; [|split; [|split]].
  - intros Th.
    assert (G : getMaxBlockHeight (mkThrowing m th)
                = (err (DatabaseError 500), mkThrowing m th)).
    { simpl. unfold guarded. simpl. rewrite Th. reflexivity. }
    split; [apply (processBlock_height_read_fails _ _ _ _ G)|].
    split.
    + unfold blocksRoute.
      rewrite (processBlock_height_read_fails _ _ _ _ G). reflexivity.
    + intros Ht. apply (rollback_height_read_fails _ _ _ _ Ht G).
  - intros Tg Tf Hh Ec Hne.
    unfold processBlock, validateHeight.
    assert (G : getMaxBlockHeight (mkThrowing m th)
                = (ok (tip m), mkThrowing m th)).
    { simpl. unfold guarded. simpl. rewrite Tg. reflexivity. }
    rewrite G.
    replace (height b =? tip m + 1) with true by (symmetry; apply Z.eqb_eq, Hh).
    simpl negb. cbv iota.
    rewrite (validateInputOutputSum_read_fails b (mkThrowing m th)
               (mkThrowing m th) (DatabaseError 500) Ec Hne); [reflexivity|].
    simpl. unfold guarded. simpl. rewrite Tf. reflexivity.
  - intros Tg Tf Ht.
    assert (G : rollbackToHeight t (mkThrowing m th)
                = (err (DatabaseError 500), mkThrowing m th)).
    { apply rollback_find_fails with (s1 := mkThrowing m th).
      - unfold validateRollbackHeight.
        destruct (Z.ltb_spec t 0); [lia|].
        assert (G0 : getMaxBlockHeight (mkThrowing m th)
                     = (ok (tip m), mkThrowing m th)).
        { simpl. unfold guarded. simpl. rewrite Tg. reflexivity. }
        rewrite G0.
        destruct (Z.gtb_spec t (tip m)); [lia | reflexivity].
      - simpl. unfold guarded. simpl. rewrite Tf. reflexivity. }
    split; [exact G|]. unfold rollbackRoute. rewrite G. reflexivity.
  - intros b' m' e E. split; [apply blocksRoute_of_error, E|].
    rewrite processBlock_inmem in E.
    destruct (height b' =? tip m' + 1).
    + destruct (fst (validateInputOutputSum b' m')) as [[]|e1] eqn:Es.
      * destruct (validateBlockId_spec b') as [[_ Ev] | [_ Ev]];
          rewrite Ev in E.
        -- apply processTransactions_inmem_error in E. auto.
        -- simpl in E. inversion E. auto.
      * simpl in E. inversion E; subst e1.
        apply validateInputOutputSum_error in Es. auto.
    + simpl in E. inversion E. auto.
Qed.

Lemma store_failures_surface_witness :
  processBlock readmeBlock1 heightQueryDown
  = (err (InvalidBlockHeightError 400 None None), heightQueryDown).
Proof.
  apply (proj1 (store_failures_surface readmeBlock1 0 heightQueryDown)).
  reflexivity.
Defined.

(** C8, as stated, fails.  With the maximum-height query failing, a block
    is answered with [InvalidBlockHeight] and status 400 and a rollback
    with [InvalidRollbackHeight], not with a [DatabaseError]; and a block
    that passes validation but names the same unspent output twice is
    answered, from the apply phase, with [UTXONotFound] and status 404. *)
Lemma store_failure_not_database_error :
  fst (processBlock readmeBlock1 heightQueryDown)
  = err (InvalidBlockHeightError 400 None None)
  /\ status (fst (blocksRoute readmeBlock1 heightQueryDown)) = 400
  /\ fst (rollbackToHeight 0 heightQueryDown)
     = err (InvalidRollbackHeightError 400 (Some 0) None)
  /\ fst (processBlock doubleInputAt2 (storeAfter [readmeBlock1]))
     = err (UTXONotFoundError 404)
  /\ fst (blocksRoute doubleInputAt2 (storeAfter [readmeBlock1]))
     = mkReply 404 (Error (js "UTXO not found")).
Proof. vm_compute. repeat split. Qed.

(** * Transaction identifiers in the store *)

(** C2, on the code.  Two blocks whose transaction identifiers are the
    three-character strings [tx1] and [tx2] are accepted, since the
    identifier check pads them; the row inserted for [tx1] carries the
    identifier [tx1] as it came, not padded to 64, and the spend mark put
    on it is [tx2], not padded either. *)
Theorem unpadded_ids_reach_the_store :
  fst (processBlock shortIdBlock1 InMemory.empty) = ok tt
  /\ map txid (rows (storeAfter [shortIdBlock1])) = [js "tx1"]
  /\ fst (processBlock shortIdBlock2 (storeAfter [shortIdBlock1])) = ok tt
  /\ map (fun u => (txid u, spentTxid u))
         (rows (storeAfter [shortIdBlock1; shortIdBlock2]))
     = [(js "tx1", Some (js "tx2")); (js "tx2", None)]
  /\ js "tx1" <> padTxId (js "tx1")
  /\ js "tx2" <> padTxId (js "tx2").
Proof.
  vm_compute. repeat split; discriminate.
Qed.

(** * Lookups see the store as it was before the block *)





(** * The writes of the in-memory store *)

Section MapWrites.
Context {V : Type}.
Implicit Types (m : JSMap.t V) (k : JSString) (v : V).

Lemma get_notin m k : ~ In k (map fst m) -> JSMap.get m k = None.
Proof.
  induction m as [|[k' v'] m IH]; simpl; [reflexivity|].
  intros N. destruct (JSString_eqb k' k) eqn:E.
  - apply JSString_eqb_eq in E. exfalso. apply N. left. exact E.
  - apply IH. intros F. apply N. right. exact F.
Qed.

Lemma get_of_In m k v :
  NoDup (map fst m) -> In (k, v) m -> JSMap.get m k = Some v.
Proof.
  induction m as [|[k' v'] m IH]; simpl; [intros _ []|].
  intros ND [E | Hin].
  - inversion E; subst. rewrite JSString_eqb_refl. reflexivity.
  - inversion ND as [|? ? Hk ND']; subst.
    destruct (JSString_eqb k' k) eqn:E.
    + apply JSString_eqb_eq in E. subst k'. exfalso. apply Hk.
      apply (in_map fst) in Hin. exact Hin.
    + apply IH; assumption.
Qed.

Lemma set_notin m k v : ~ In k (map fst m) -> JSMap.set m k v = m ++ [(k, v)].
Proof.
  induction m as [|[k' v'] m IH]; simpl; [reflexivity|].
  intros N. destruct (JSString_eqb k' k) eqn:E.
  - apply JSString_eqb_eq in E. exfalso. apply N. left. exact E.
  - rewrite IH; [reflexivity|]. intros F. apply N. right. exact F.
Qed.

Lemma set_here (pre suf : JSMap.t V) k v0 v :
  ~ In k (map fst pre) ->
  JSMap.set (pre ++ (k, v0) :: suf) k v = pre ++ (k, v) :: suf.
Proof.
  induction pre as [|[k' v'] pre IH]; simpl.
  - rewrite JSString_eqb_refl. reflexivity.
  - intros N. destruct (JSString_eqb k' k) eqn:E.
    + apply JSString_eqb_eq in E. exfalso. apply N. left. exact E.
    + rewrite IH; [reflexivity|]. intros F. apply N. right. exact F.
Qed.

Lemma get_split m k v :
  JSMap.get m k = Some v ->
  exists pre suf, m = pre ++ (k, v) :: suf /\ ~ In k (map fst pre).
Proof.
  induction m as [|[k' v'] m IH]; simpl; [discriminate|].
  destruct (JSString_eqb k' k) eqn:E.
  - apply JSString_eqb_eq in E. subst k'. intros H; inversion H; subst.
    exists [], m. split; [reflexivity | intros []].
  - intros H. destruct (IH H) as [pre [suf [Em Hn]]].
    exists ((k', v') :: pre), suf. split; [rewrite Em; reflexivity|].
    apply JSString_eqb_neq in E. simpl. intros [F | F]; [congruence | auto].
Qed.

Lemma delete_fold (ks : list JSString) m :
  fold_left JSMap.delete ks m
  = filter (fun e => negb (existsb (JSString_eqb (fst e)) ks)) m.
Proof.
  revert m; induction ks as [|k ks IH]; intros m; simpl.
  - induction m as [|e m IHm]; simpl; [reflexivity | rewrite <- IHm; reflexivity].
  - rewrite IH. unfold JSMap.delete.
    induction m as [|e m IHm]; simpl; [reflexivity|].
    destruct (JSString_eqb (fst e) k); simpl; rewrite IHm; reflexivity.
Qed.
End MapWrites.

Lemma keys_collect (p : UTXO -> bool) (m : JSMap.t UTXO) (acc : list JSString) :
  fold_left (fun keys (e : JSString * UTXO) =>
               let '(key, utxo) := e in
               if p utxo then keys ++ [key] else keys) m acc
  = acc ++ map fst (filter (fun e => p (snd e)) m).
Proof.
  revert acc; induction m as [|[k u] m IH]; intros acc; simpl.
  - rewrite app_nil_r. reflexivity.
  - rewrite IH. destruct (p u); simpl; rewrite <- ?app_assoc; reflexivity.
Qed.

Lemma deleteUTXOsByBlockHeight_filter (h : Z) (s : InMemory.Store) :
  distinctKeys s ->
  deleteUTXOsByBlockHeight h s
  = (ok tt, InMemory.mkStore
              (filter (fun e => negb (isAbove h e)) (InMemory.utxos s))
              (InMemory.nextId s)).
Proof.
  intros ND. simpl. unfold InMemory.deleteUTXOsByBlockHeight. f_equal. f_equal.
  unfold JSMap.entries.
  rewrite (keys_collect (fun u => blockHeight u >? h)). simpl.
  rewrite delete_fold. apply filter_ext_in. intros [k u] Hin. f_equal.
  unfold isAbove. simpl.
  destruct (blockHeight u >? h) eqn:Hu.
  - apply existsb_exists. exists k. split; [|apply JSString_eqb_refl].
    apply in_map_iff. exists (k, u). split; [reflexivity|].
    apply filter_In. split; [exact Hin | exact Hu].
  - destruct (existsb _ _) eqn:Ex; [|reflexivity].
    apply existsb_exists in Ex. destruct Ex as [k' [Hk' Ek]].
    apply JSString_eqb_eq in Ek. subst k'.
    apply in_map_iff in Hk'. destruct Hk' as [[k' u'] [Ek Hf]].
    simpl in Ek. subst k'. apply filter_In in Hf. destruct Hf as [Hin' Hu'].
    simpl in Hu'.
    assert (E : Some u = Some u').
    { rewrite <- (get_of_In _ _ _ ND Hin). apply get_of_In; assumption. }
    inversion E; subst. congruence.
Qed.

Lemma unmark_fold (ids : list JSString) (pre suf : JSMap.t UTXO) :
  NoDup (map fst (pre ++ suf)) ->
  fold_left
    (fun m (e : JSString * UTXO) =>
       let '(key, utxo) := e in
       if spent utxo && InMemory.truthy (spentTxid utxo)
          && match spentTxid utxo with
             | Some x => JSSet.has (JSSet.ofArray ids) x
             | None => false
             end
       then JSMap.set m key (InMemory.withUnspent utxo)
       else m)
    suf (pre ++ suf)
  = pre ++ map (unmarkEntry ids) suf.
Proof.
  revert pre; induction suf as [|[k u] suf IH]; intros pre ND; simpl.
  - reflexivity.
  - assert (Hk : ~ In k (map fst pre)).
    { rewrite map_app in ND. simpl in ND.
      apply NoDup_remove_2 in ND. intros F. apply ND.
      apply in_or_app. left. exact F. }
    assert (ND' : forall v, NoDup (map fst ((pre ++ [(k, v)]) ++ suf))).
    { intros v. rewrite <- app_assoc. simpl.
      rewrite map_app in *. simpl in *. exact ND. }
    unfold unmarkEntry at 1. unfold spentBy. simpl.
    match goal with
    | |- context [if ?c then _ else _] => destruct c
    end.
    + rewrite set_here by exact Hk.
      change (pre ++ (k, InMemory.withUnspent u) :: suf)
        with (pre ++ [(k, InMemory.withUnspent u)] ++ suf).
      rewrite app_assoc. rewrite IH by apply ND'.
      rewrite <- app_assoc. reflexivity.
    + change (pre ++ (k, u) :: suf) with (pre ++ [(k, u)] ++ suf).
      rewrite app_assoc. rewrite IH by apply ND'.
      rewrite <- app_assoc. reflexivity.
Qed.

Lemma unmarkAsSpent_map (ids : list JSString) (s : InMemory.Store) :
  distinctKeys s ->
  unmarkAsSpent ids s
  = (ok tt, InMemory.mkStore (map (unmarkEntry ids) (InMemory.utxos s))
                             (InMemory.nextId s)).
Proof.
  intros ND. simpl. unfold InMemory.unmarkAsSpent, JSMap.entries.
  f_equal. f_equal.
  apply (unmark_fold ids [] (InMemory.utxos s)). exact ND.
Qed.

(** * Sets of identifiers *)

Lemma has_add (s : JSSet.t) (x y : JSString) :
  JSSet.has (JSSet.add s y) x = JSSet.has s x || JSString_eqb x y.
Proof.
  unfold JSSet.add. destruct (JSSet.has s y) eqn:Hy.
  - destruct (JSString_eqb x y) eqn:E; [|rewrite orb_false_r; reflexivity].
    apply JSString_eqb_eq in E. subst. rewrite Hy. reflexivity.
  - unfold JSSet.has. rewrite existsb_app. simpl. rewrite orb_false_r.
    reflexivity.
Qed.

Lemma has_fold_add {A} (f : A -> JSString) (l : list A) (acc : JSSet.t)
      (x : JSString) :
  JSSet.has (fold_left (fun set a => JSSet.add set (f a)) l acc) x
  = JSSet.has acc x || existsb (fun a => JSString_eqb x (f a)) l.
Proof.
  revert acc; induction l as [|a l IH]; intros acc; simpl.
  - rewrite orb_false_r. reflexivity.
  - rewrite IH, has_add, orb_assoc. reflexivity.
Qed.

Lemma has_ofArray (l : list JSString) (x : JSString) :
  JSSet.has (JSSet.ofArray l) x = existsb (JSString_eqb x) l.
Proof.
  unfold JSSet.ofArray.
  change (existsb (JSString_eqb x) l)
    with (JSSet.has [] x || existsb (JSString_eqb x) l).
  generalize (@nil JSString) as acc.
  induction l as [|a l IH]; intros acc; simpl.
  - rewrite orb_false_r. reflexivity.
  - rewrite IH, has_add, orb_assoc. reflexivity.
Qed.

Lemma has_idsOf (us : list UTXO) (x : JSString) :
  JSSet.has (JSSet.ofArray (idsOf us)) x
  = existsb (fun u => JSString_eqb x (txid u)) us.
Proof.
  rewrite has_ofArray. unfold idsOf.
  change (existsb (JSString_eqb x)
            (fold_left (fun set utxo => JSSet.add set (txid utxo)) us []))
    with (JSSet.has (fold_left (fun set utxo => JSSet.add set (txid utxo)) us [])
                    x).
  rewrite (has_fold_add txid us [] x). reflexivity.
Qed.

Lemma fold_add_nonempty {A} (f : A -> JSString) (l : list A) (acc : JSSet.t) :
  acc <> [] -> fold_left (fun set a => JSSet.add set (f a)) l acc <> [].
Proof.
  revert acc; induction l as [|a l IH]; intros acc N; simpl; [exact N|].
  apply IH. unfold JSSet.add. destruct (JSSet.has acc (f a)); [exact N|].
  destruct acc; [contradiction | discriminate].
Qed.

Lemma idsOf_nonempty (us : list UTXO) : us <> [] -> idsOf us <> [].
Proof.
  destruct us as [|u us]; [contradiction|]. intros _. unfold idsOf. simpl.
  apply fold_add_nonempty. discriminate.
Qed.

(** * A successful rollback *)

Lemma unmarkEntry_fst (ids : list JSString) (e : JSString * UTXO) :
  fst (unmarkEntry ids e) = fst e.
Proof. unfold unmarkEntry. destruct (spentBy ids (snd e)); reflexivity. Qed.

Lemma unmarkEntry_same (ids : list JSString) (e : JSString * UTXO) :
  txid (snd (unmarkEntry ids e)) = txid (snd e)
  /\ vout (snd (unmarkEntry ids e)) = vout (snd e)
  /\ blockHeight (snd (unmarkEntry ids e)) = blockHeight (snd e).
Proof. unfold unmarkEntry. destruct (spentBy ids (snd e)); auto. Qed.

Lemma unmark_keys (ids : list JSString) (m : JSMap.t UTXO) :
  map fst (map (unmarkEntry ids) m) = map fst m.
Proof.
  rewrite map_map. apply map_ext. intros e. apply unmarkEntry_fst.
Qed.

Lemma unmark_isAbove (ids : list JSString) (h : Z) (e : JSString * UTXO) :
  isAbove h (unmarkEntry ids e) = isAbove h e.
Proof.
  unfold isAbove. rewrite (proj2 (proj2 (unmarkEntry_same ids e))). reflexivity.
Qed.

Lemma rollbackToHeight_ok (t : Z) (s : InMemory.Store) :
  distinctKeys s ->
  0 <= t <= tip s ->
  above t s <> [] ->
  rollbackToHeight t s
  = (ok tt, InMemory.mkStore (rolledBack t (InMemory.utxos s))
                             (InMemory.nextId s)).
Proof.
  intros ND Ht Ha. unfold rollbackToHeight, validateRollbackHeight.
  destruct (Z.ltb_spec t 0); [lia|].
  rewrite getMaxBlockHeight_tip.
  destruct (Z.gtb_spec t (tip s)); [lia|].
  rewrite findUTXOsByBlockHeight_above.
  destruct (above t s) as [|u us] eqn:Ea; [contradiction|].
  simpl length. simpl Nat.eqb. cbv iota.
  fold (idsOf (u :: us)).
  pose proof (idsOf_nonempty (u :: us) ltac:(discriminate)) as Hne.
  unfold JSSet.size, JSSet.toArray.
  destruct (idsOf (u :: us)) as [|i ids] eqn:Ei; [contradiction|].
  rewrite unmarkAsSpent_map by exact ND.
  change (0 <? length (i :: ids))%nat with true. cbv iota beta.
  rewrite deleteUTXOsByBlockHeight_filter.
  - simpl. unfold rolledBack. unfold above, rows in Ea. rewrite Ea, Ei.
    reflexivity.
  - unfold distinctKeys. simpl. rewrite unmark_keys. exact ND.
Qed.

Lemma NoDup_keys_filter {V} (p : JSString * V -> bool) (m : JSMap.t V) :
  NoDup (map fst m) -> NoDup (map fst (filter p m)).
Proof.
  induction m as [|e m IH]; simpl; [auto|].
  intros ND. inversion ND as [|? ? Hk ND']; subst.
  destruct (p e); simpl; [|auto].
  constructor; [|auto]. intros F. apply Hk.
  apply in_map_iff in F. destruct F as [e' [E Hin]].
  apply filter_In in Hin. apply in_map_iff. exists e'. tauto.
Qed.

Lemma rolledBack_wf (t : Z) (s : InMemory.Store) (n : Z) :
  wf s -> wf (InMemory.mkStore (rolledBack t (InMemory.utxos s)) n).
Proof.
  intros [ND K]. unfold wf, distinctKeys, keyed, rolledBack in *. simpl.
  split.
  - apply NoDup_keys_filter. rewrite unmark_keys. exact ND.
  - apply Forall_forall. intros e He. apply filter_In in He.
    destruct He as [He _]. apply in_map_iff in He.
    destruct He as [e0 [<- He0]].
    rewrite Forall_forall in K. specialize (K e0 He0).
    rewrite unmarkEntry_fst.
    destruct (unmarkEntry_same
                (idsOf (filter (fun u => blockHeight u >? t)
                               (JSMap.values (InMemory.utxos s)))) e0)
      as [E1 [E2 _]].
    rewrite E1, E2. exact K.
Qed.

Lemma rolledBack_rows (t : Z) (m : JSMap.t UTXO) (u : UTXO) :
  In u (JSMap.values (rolledBack t m)) ->
  blockHeight u <= t
  /\ exists u0, In u0 (JSMap.values m) /\ blockHeight u0 = blockHeight u.
Proof.
  unfold rolledBack, JSMap.values. intros H.
  apply in_map_iff in H. destruct H as [e [<- He]].
  apply filter_In in He. destruct He as [He Hk].
  apply in_map_iff in He. destruct He as [e0 [<- He0]].
  rewrite unmark_isAbove in Hk. unfold isAbove in Hk.
  destruct (unmarkEntry_same
              (idsOf (filter (fun u => blockHeight u >? t) (map snd m))) e0)
    as [_ [_ E3]].
  rewrite E3. split.
  - destruct (Z.gtb_spec (blockHeight (snd e0)) t); [discriminate | lia].
  - exists (snd e0). split; [apply in_map; exact He0 | reflexivity].
Qed.


(** * The shape of the store after one transaction *)

Lemma markedBy_refl (x : JSString) (l : JSMap.t UTXO) :
  Forall2 (markedBy x) l l.
Proof. induction l; constructor; [left; reflexivity | assumption]. Qed.

Lemma markedBy_trans (x : JSString) (l1 l2 l3 : JSMap.t UTXO) :
  Forall2 (markedBy x) l1 l2 -> Forall2 (markedBy x) l2 l3 ->
  Forall2 (markedBy x) l1 l3.
Proof.
  intros H12; revert l3; induction H12 as [|e1 e2 l1 l2 M12 _ IH];
    intros l3 H23; inversion H23; subst; constructor; [|apply IH; assumption].
  match goal with M23 : markedBy x e2 _ |- _ => destruct M23 as [-> | [S2 ->]] end;
    [exact M12|].
  destruct M12 as [-> | [S1 ->]]; [right; auto | simpl in S2; discriminate].
Qed.

Lemma markedBy_keys (x : JSString) (l l' : JSMap.t UTXO) :
  Forall2 (markedBy x) l l' -> map fst l' = map fst l.
Proof.
  induction 1 as [|e e' l l' M _ IH]; simpl; [reflexivity|].
  rewrite IH. destruct M as [-> | [_ ->]]; reflexivity.
Qed.

Lemma markedBy_same (x : JSString) (e e' : JSString * UTXO) :
  markedBy x e e' ->
  fst e' = fst e /\ txid (snd e') = txid (snd e)
  /\ vout (snd e') = vout (snd e)
  /\ blockHeight (snd e') = blockHeight (snd e).
Proof. intros [-> | [_ ->]]; simpl; auto. Qed.

Lemma markAsSpent_shape (t : JSString) (v : Z) (x : JSString)
      (s s' : InMemory.Store) :
  markAsSpent t v x s = (ok tt, s') ->
  Forall2 (markedBy x) (InMemory.utxos s) (InMemory.utxos s')
  /\ InMemory.nextId s' = InMemory.nextId s.
Proof.
  simpl. unfold InMemory.markAsSpent.
  destruct (JSMap.get (InMemory.utxos s) (InMemory.getKey t v)) as [u|] eqn:G;
    [|discriminate].
  destruct (spent u) eqn:Sp; [discriminate|].
  intros E; inversion E; subst s'; simpl. split; [|reflexivity].
  destruct (get_split _ _ _ G) as [pre [suf [Em Hn]]].
  rewrite Em. rewrite set_here by exact Hn.
  apply Forall2_app; [apply markedBy_refl|].
  constructor; [right; simpl; auto | apply markedBy_refl].
Qed.

Lemma spendInputs_shape (x : JSString) (ins : list Input)
      (s s' : InMemory.Store) :
  spendInputs x ins s = (ok tt, s') ->
  Forall2 (markedBy x) (InMemory.utxos s) (InMemory.utxos s')
  /\ InMemory.nextId s' = InMemory.nextId s
  /\ (forallb (fun i => isCoinbaseInput (txId i)) ins = true -> s' = s).
Proof.
  revert s; induction ins as [|i ins IH]; intros s; cbn [spendInputs forallb].
  - intros E; inversion E; subst. split; [apply markedBy_refl | auto].
  - destruct (isCoinbaseInput (txId i)) eqn:Ci.
    + intros E. destruct (IH s E) as [F [N C]]. simpl. auto.
    + destruct (markAsSpent (txId i) (index i) x s) as [[[]|e] s1] eqn:M;
        [|discriminate].
      intros E. destruct (IH s1 E) as [F [N _]].
      destruct (markAsSpent_shape _ _ _ _ _ M) as [F1 N1].
      split; [eapply markedBy_trans; eassumption|].
      split; [congruence | simpl; discriminate].
Qed.

Lemma newEntries_keys (x : JSString) (h : Z) (outs : list Output) (i : nat)
      (n : Z) :
  map fst (newEntries x h i outs n)
  = map (fun j => InMemory.getKey x (Z.of_nat j)) (seq i (length outs)).
Proof.
  revert i n; induction outs as [|o outs IH]; intros i n; simpl;
    [reflexivity | rewrite IH; reflexivity].
Qed.

Lemma createOutputs_shape (x : JSString) (h : Z) (outs : list Output)
      (i : nat) (s : InMemory.Store) :
  NoDup (map (fun j => InMemory.getKey x (Z.of_nat j)) (seq i (length outs))) ->
  (forall j, In j (seq i (length outs)) ->
             ~ In (InMemory.getKey x (Z.of_nat j)) (map fst (InMemory.utxos s))) ->
  createOutputs x h i outs s
  = (ok tt,
     InMemory.mkStore (InMemory.utxos s ++ newEntries x h i outs (InMemory.nextId s))
                      (InMemory.nextId s + Z.of_nat (length outs))).
Proof.
  revert i s; induction outs as [|o outs IH]; intros i s ND Hf;
    cbn [createOutputs newEntries length].
  - rewrite app_nil_r, Z.add_0_r. destruct s; reflexivity.
  - simpl in ND. inversion ND as [|? ? Hi ND']; subst.
    cbn [insert InMemoryUTXORepository]. unfold InMemory.insert.
    cbn [new_txid new_vout new_address new_value new_scriptPubkey
         new_blockHeight new_spent].
    rewrite set_notin by (apply Hf; left; reflexivity).
    rewrite IH.
    + cbn [InMemory.utxos InMemory.nextId]. rewrite <- app_assoc.
      cbn [app]. f_equal. f_equal. lia.
    + exact ND'.
    + intros j Hj. simpl. rewrite map_app. simpl. intros F.
      apply in_app_or in F. destruct F as [F | [F | []]].
      * apply (Hf j); [right; exact Hj | exact F].
      * apply Hi. rewrite F. apply in_map_iff. exists j. auto.
Qed.

Lemma processTransaction_shape (h : Z) (tx : Transaction)
      (s s' : InMemory.Store) :
  NoDup (txKeys tx) ->
  (forall k, In k (txKeys tx) -> ~ In k (map fst (InMemory.utxos s))) ->
  processTransaction h tx s = (ok tt, s') ->
  exists l',
    Forall2 (markedBy (tx_id tx)) (InMemory.utxos s) l'
    /\ InMemory.utxos s'
       = l' ++ newEntries (tx_id tx) h 0 (outputs tx) (InMemory.nextId s)
    /\ (hasRegularInputs tx = false -> l' = InMemory.utxos s).
Proof.
  intros ND Hf. unfold processTransaction.
  destruct (spendInputs (tx_id tx) (inputs tx) s) as [[[]|e] s1] eqn:Sp;
    [|discriminate].
  destruct (spendInputs_shape _ _ _ _ Sp) as [F [N C]].
  rewrite createOutputs_shape.
  - intros E; inversion E; subst s'; simpl.
    exists (InMemory.utxos s1). rewrite N. split; [exact F|].
    split; [reflexivity|].
    intros Hr. rewrite C; [reflexivity|].
    unfold hasRegularInputs in Hr.
    apply forallb_forall. intros i Hi.
    destruct (isCoinbaseInput (txId i)) eqn:Ci; [reflexivity|].
    assert (X : existsb (fun input => negb (isCoinbaseInput (txId input)))
                        (inputs tx) = true).
    { apply existsb_exists. exists i. rewrite Ci. auto. }
    congruence.
  - exact ND.
  - intros j Hj. rewrite (markedBy_keys _ _ _ F). apply Hf.
    unfold txKeys. apply in_map_iff. exists j. auto.
Qed.

(** * The store invariant is kept *)

Lemma wf_empty : wf InMemory.empty.
Proof. split; [constructor | constructor]. Qed.

Lemma newEntries_keyed (x : JSString) (h : Z) (outs : list Output) (i : nat)
      (n : Z) :
  Forall (fun e => fst e = InMemory.getKey (txid (snd e)) (vout (snd e)))
         (newEntries x h i outs n).
Proof.
  revert i n; induction outs as [|o outs IH]; intros i n; simpl;
    constructor; [reflexivity | apply IH].
Qed.

Lemma markedBy_keyed (x : JSString) (l l' : JSMap.t UTXO) :
  Forall2 (markedBy x) l l' ->
  Forall (fun e => fst e = InMemory.getKey (txid (snd e)) (vout (snd e))) l ->
  Forall (fun e => fst e = InMemory.getKey (txid (snd e)) (vout (snd e))) l'.
Proof.
  induction 1 as [|e e' l l' M _ IH]; intros K; [constructor|].
  inversion K; subst. constructor; [|apply IH; assumption].
  destruct (markedBy_same _ _ _ M) as [E1 [E2 [E3 _]]].
  rewrite E1, E2, E3. assumption.
Qed.

Lemma processTransaction_wf (h : Z) (tx : Transaction)
      (s s' : InMemory.Store) :
  wf s ->
  NoDup (txKeys tx) ->
  (forall k, In k (txKeys tx) -> ~ In k (map fst (InMemory.utxos s))) ->
  processTransaction h tx s = (ok tt, s') ->
  wf s'
  /\ map fst (InMemory.utxos s') = map fst (InMemory.utxos s) ++ txKeys tx.
Proof.
  intros [ND K] NDk Hf P.
  destruct (processTransaction_shape _ _ _ _ NDk Hf P) as [l' [F [E _]]].
  assert (Ek : map fst (InMemory.utxos s')
               = map fst (InMemory.utxos s) ++ txKeys tx).
  { rewrite E, map_app, (markedBy_keys _ _ _ F), newEntries_keys.
    reflexivity. }
  split; [|exact Ek]. split.
  - unfold distinctKeys. rewrite Ek. apply NoDup_app; try assumption.
    intros k Hk Hk'. exact (Hf k Hk' Hk).
  - unfold keyed in *. rewrite E. apply Forall_app. split.
    + apply (markedBy_keyed _ _ _ F K).
    + apply newEntries_keyed.
Qed.

(** Induction over the transactions of a block whose inserts are all
    new. *)
Lemma processTransactions_fresh_ind (P : InMemory.Store -> Prop) (h : Z)
      (all : list Transaction) :
  (forall tx s s',
      In tx all -> wf s -> P s ->
      NoDup (txKeys tx) ->
      (forall k, In k (txKeys tx) -> ~ In k (map fst (InMemory.utxos s))) ->
      processTransaction h tx s = (ok tt, s') -> P s') ->
  forall (txs : list Transaction) (s s' : InMemory.Store),
    incl txs all -> wf s -> P s -> freshFor s txs ->
    processTransactions h txs s = (ok tt, s') ->
    wf s' /\ P s'
    /\ map fst (InMemory.utxos s') = map fst (InMemory.utxos s) ++ outputKeys txs.
Proof.
  intros Step txs. induction txs as [|tx txs IH]; intros s s' Hincl W Ps [ND Hf];
    simpl.
  - intros E; inversion E; subst. rewrite app_nil_r. auto.
  - destruct (processTransaction h tx s) as [[[]|e] s1] eqn:T; [|discriminate].
    intros E. simpl in ND. apply NoDup_app_remove_l in ND as ND2.
    assert (ND1 : NoDup (txKeys tx)).
    { simpl in ND. apply NoDup_app_remove_r in ND. exact ND. }
    assert (Hf1 : forall k, In k (txKeys tx) ->
                            ~ In k (map fst (InMemory.utxos s))).
    { intros k Hk. apply Hf. simpl. apply in_or_app. left. exact Hk. }
    destruct (processTransaction_wf _ _ _ _ W ND1 Hf1 T) as [W1 K1].
    assert (P1 : P s1).
    { apply (Step tx s s1); auto. apply Hincl. left. reflexivity. }
    destruct (IH s1 s') as [W' [P' K']]; auto.
    + intros y Hy. apply Hincl. right. exact Hy.
    + split; [exact ND2|]. intros k Hk. rewrite K1. intros F.
      apply in_app_or in F. destruct F as [F | F].
      * apply (Hf k); [simpl; apply in_or_app; right; exact Hk | exact F].
      * simpl in ND. clear - ND F Hk.
        induction (txKeys tx) as [|a l IHl]; [destruct F|].
        simpl in ND. inversion ND; subst.
        destruct F as [-> | F].
        -- match goal with N : ~ In _ _ |- _ => apply N end.
           apply in_or_app. right. exact Hk.
        -- apply IHl; assumption.
    + split; [exact W'|]. split; [exact P'|].
      rewrite K', K1. simpl. rewrite app_assoc. reflexivity.
Qed.

(** * Heights *)

Lemma tip_of_heights (s : InMemory.Store) (h : Z) :
  0 <= h -> heightsAre s h -> tip s = h.
Proof.
  intros Hh Ha. unfold heightsAre in Ha.
  destruct (tip_attained s) as [E0 | [u [Hu Eu]]].
  - destruct (Z.eq_dec h 0) as [-> | N]; [exact E0|].
    destruct (proj2 (Ha h)) as [u [Hu Eu]]; [lia|].
    pose proof (tip_upper s u Hu). lia.
  - assert (B : 1 <= tip s <= h) by (apply Ha; exists u; auto).
    destruct (Z.eq_dec (tip s) h) as [E | N]; [exact E|].
    destruct (proj2 (Ha h)) as [v [Hv Ev]]; [lia|].
    pose proof (tip_upper s v Hv). lia.
Qed.

Lemma markedBy_heights (x : JSString) (l l' : JSMap.t UTXO) :
  Forall2 (markedBy x) l l' ->
  map (fun e => blockHeight (snd e)) l' = map (fun e => blockHeight (snd e)) l.
Proof.
  induction 1 as [|e e' l l' M _ IH]; simpl; [reflexivity|].
  rewrite IH. f_equal. apply markedBy_same in M. tauto.
Qed.

Lemma newEntries_heights (x : JSString) (h : Z) (outs : list Output) (i : nat)
      (n : Z) (e : JSString * UTXO) :
  In e (newEntries x h i outs n) -> blockHeight (snd e) = h.
Proof.
  revert i n; induction outs as [|o outs IH]; intros i n; simpl; [tauto|].
  intros [<- | H]; [reflexivity | eapply IH; exact H].
Qed.

Lemma newEntries_length (x : JSString) (h : Z) (outs : list Output) (i : nat)
      (n : Z) :
  length (newEntries x h i outs n) = length outs.
Proof.
  revert i n; induction outs as [|o outs IH]; intros i n; simpl;
    [reflexivity | rewrite IH; reflexivity].
Qed.

Lemma newEntries_txid (x : JSString) (h : Z) (outs : list Output) (i : nat)
      (n : Z) :
  Forall (fun e => txid (snd e) = x) (newEntries x h i outs n).
Proof.
  revert i n; induction outs as [|o outs IH]; intros i n; simpl;
    constructor; [reflexivity | apply IH].
Qed.

(** What the apply phase writes for a transaction: the rows it inserts
    carry [transaction.id] as it is, and so do the marks it leaves. *)
Lemma processTransaction_writes_raw_id (h : Z) (tx : Transaction)
      (s s' : InMemory.Store) :
  NoDup (txKeys tx) ->
  (forall k, In k (txKeys tx) -> ~ In k (map fst (InMemory.utxos s))) ->
  processTransaction h tx s = (ok tt, s') ->
  exists l' new,
    InMemory.utxos s' = l' ++ new
    /\ Forall (fun e => txid (snd e) = tx_id tx) new
    /\ length new = length (outputs tx)
    /\ Forall2 (fun e e' => e' = e \/ spentTxid (snd e') = Some (tx_id tx))
               (InMemory.utxos s) l'.
Proof.
  intros ND Hf P.
  destruct (processTransaction_shape _ _ _ _ ND Hf P) as [l' [F [E _]]].
  exists l', (newEntries (tx_id tx) h 0 (outputs tx) (InMemory.nextId s)).
  split; [exact E|]. split; [apply newEntries_txid|].
  split; [apply newEntries_length|].
  revert F. apply Forall2_impl.
  intros e e' [-> | [_ ->]]; [left; reflexivity | right; reflexivity].
Qed.

Lemma heightPresent_map (s : InMemory.Store) (x : Z) :
  heightPresent s x
  <-> In x (map (fun e => blockHeight (snd e)) (InMemory.utxos s)).
Proof.
  unfold heightPresent, rows, JSMap.values. rewrite in_map_iff. split.
  - intros [u [Hu E]]. apply in_map_iff in Hu. destruct Hu as [e [<- He]].
    exists e. auto.
  - intros [e [E He]]. exists (snd e). split; [apply in_map; exact He | exact E].
Qed.

Lemma processTransaction_heights (h : Z) (tx : Transaction)
      (s s' : InMemory.Store) :
  NoDup (txKeys tx) ->
  (forall k, In k (txKeys tx) -> ~ In k (map fst (InMemory.utxos s))) ->
  processTransaction h tx s = (ok tt, s') ->
  length (InMemory.utxos s')
  = (length (InMemory.utxos s) + length (outputs tx))%nat
  /\ forall x, heightPresent s' x
               <-> heightPresent s x \/ (x = h /\ outputs tx <> []).
Proof.
  intros ND Hf P.
  destruct (processTransaction_shape _ _ _ _ ND Hf P) as [l' [F [E _]]].
  split.
  - rewrite E, length_app, newEntries_length.
    rewrite <- (length_map fst l'), (markedBy_keys _ _ _ F), length_map.
    reflexivity.
  - intros x. rewrite !heightPresent_map, E, map_app, in_app_iff.
    rewrite (markedBy_heights _ _ _ F).
    split; (intros [H | H]; [left; exact H | right]).
    + apply in_map_iff in H. destruct H as [e [<- He]].
      split; [eapply newEntries_heights; exact He|].
      intros N. rewrite N in He. destruct He.
    + destruct H as [-> Hne]. destruct (outputs tx) as [|o outs];
        [contradiction|]. simpl. left. reflexivity.
Qed.

Lemma processTransactions_heights (h : Z) (txs : list Transaction)
      (s s' : InMemory.Store) :
  wf s -> freshFor s txs ->
  processTransactions h txs s = (ok tt, s') ->
  wf s'
  /\ (length (InMemory.utxos s) <= length (InMemory.utxos s'))%nat
  /\ forall x, heightPresent s' x
               <-> heightPresent s x
                   \/ (x = h /\ (length (InMemory.utxos s)
                                 < length (InMemory.utxos s'))%nat).
Proof.
  intros W Fr P.
  destruct (processTransactions_fresh_ind
              (fun c =>
                 (length (InMemory.utxos s) <= length (InMemory.utxos c))%nat
                 /\ forall x, heightPresent c x
                              <-> heightPresent s x
                                  \/ (x = h /\ (length (InMemory.utxos s)
                                                < length (InMemory.utxos c))%nat))
              h txs) with (txs := txs) (s := s) (s' := s')
    as [W' [P' _]]; auto.
  - intros tx c c' _ Wc [Lc Hc] ND Hf T.
    destruct (processTransaction_heights _ _ _ _ ND Hf T) as [L H].
    split; [lia|]. intros x. rewrite H, Hc. split.
    + intros [[A | [A B]] | [A B]]; auto.
      * right. split; [exact A | lia].
      * right. split; [exact A|]. destruct (outputs tx); [contradiction|].
        simpl in L. lia.
    + intros [A | [A B]]; [left; left; exact A|].
      destruct (outputs tx) as [|o outs] eqn:Eo.
      * left. right. split; [exact A|]. simpl in L. lia.
      * right. split; [exact A | discriminate].
  - apply incl_refl.
  - split; [lia|]. intros x. split; [auto|]. intros [A | [_ B]]; [exact A | lia].
Qed.

Lemma processBlock_ok_inv (b : Block) (s s' : InMemory.Store) :
  processBlock b s = (ok tt, s') ->
  height b = tip s + 1
  /\ fst (validateInputOutputSum b s) = ok tt
  /\ id b = expectedHash b
  /\ processTransactions (height b) (transactions b) s = (ok tt, s').
Proof.
  rewrite processBlock_inmem.
  destruct (Z.eqb_spec (height b) (tip s + 1)) as [E | N]; [|discriminate].
  destruct (fst (validateInputOutputSum b s)) as [[]|e]; [|discriminate].
  destruct (validateBlockId_spec b) as [[Ei Ev] | [_ Ev]]; rewrite Ev;
    [auto | discriminate].
Qed.

Lemma rollbackToHeight_ok_inv (t : Z) (s s' : InMemory.Store) :
  rollbackToHeight t s = (ok tt, s') -> 0 <= t <= tip s /\ above t s <> [].
Proof.
  intros R.
  destruct (Z.ltb_spec t 0) as [Hneg | Hpos].
  { unfold rollbackToHeight, validateRollbackHeight in R.
    destruct (Z.ltb_spec t 0); [discriminate | lia]. }
  destruct (Z.gtb_spec t (tip s)) as [Hgt | Hle].
  { unfold rollbackToHeight, validateRollbackHeight in R.
    destruct (Z.ltb_spec t 0); [lia|].
    rewrite getMaxBlockHeight_tip in R.
    destruct (Z.gtb_spec t (tip s)); [discriminate | lia]. }
  split; [lia|]. intros Ha.
  rewrite rollbackToHeight_nothing_above in R by (auto; lia). discriminate.
Qed.

Lemma ingest_keeps_heights (b : Block) (s s' : InMemory.Store) :
  wf s -> heightsAre s (tip s) -> freshFor s (transactions b) ->
  processBlock b s = (ok tt, s') ->
  wf s' /\ heightsAre s' (tip s') /\ tip s <= tip s' <= tip s + 1.
Proof.
  intros W Ha Fr P.
  destruct (processBlock_ok_inv _ _ _ P) as [Eh [_ [_ T]]].
  destruct (processTransactions_heights _ _ _ _ W Fr T) as [W' [L H]].
  split; [exact W'|].
  pose proof (tip_nonneg s) as T0.
  destruct (Nat.eq_dec (length (InMemory.utxos s)) (length (InMemory.utxos s')))
    as [El | Nl].
  - assert (Ha' : heightsAre s' (tip s)).
    { intros x. fold (heightPresent s' x). rewrite H. rewrite <- (Ha x).
      fold (heightPresent s x). split; [|auto].
      intros [A | [_ B]]; [exact A | lia]. }
    rewrite (tip_of_heights s' (tip s) T0 Ha'). split; [exact Ha' | lia].
  - assert (Ha' : heightsAre s' (tip s + 1)).
    { intros x. fold (heightPresent s' x). rewrite H. split.
      - intros [A | [A _]]; [apply Ha in A; lia | lia].
      - intros B. destruct (Z.eq_dec x (tip s + 1)) as [E | N].
        + right. split; [congruence | lia].
        + left. apply Ha. lia. }
    rewrite (tip_of_heights s' (tip s + 1) ltac:(lia) Ha').
    split; [exact Ha' | lia].
Qed.



Lemma freshForb_freshFor (s : InMemory.Store) (txs : list Transaction) :
  freshForb s txs = true -> freshFor s txs.
Proof.
  unfold freshForb, freshFor. rewrite andb_true_iff, forallb_forall.
  intros [D H]. split; [apply distinctb_NoDup, D|].
  intros k Hk Hin. specialize (H k Hk). apply negb_true_iff in H.
  assert (X : existsb (JSString_eqb k) (map fst (InMemory.utxos s)) = true).
  { apply existsb_exists. exists k. split; [exact Hin | apply JSString_eqb_refl]. }
  congruence.
Qed.




(** * Rollback undoes one transaction *)

Lemma spentBy_nil (u : UTXO) : spentBy [] u = false.
Proof.
  unfold spentBy. destruct (spentTxid u); simpl;
    rewrite ?andb_false_r; reflexivity.
Qed.

Lemma unmarkEntry_nil (m : JSMap.t UTXO) : map (unmarkEntry []) m = m.
Proof.
  induction m as [|e m IH]; simpl; [reflexivity|].
  rewrite IH. unfold unmarkEntry. rewrite spentBy_nil. reflexivity.
Qed.

Lemma rolledBack_nothing_above (t : Z) (m : JSMap.t UTXO) :
  (forall e, In e m -> blockHeight (snd e) <= t) -> rolledBack t m = m.
Proof.
  intros H. unfold rolledBack, JSMap.values.
  assert (E : filter (fun u => blockHeight u >? t) (map snd m) = []).
  { induction m as [|e m IH]; simpl; [reflexivity|].
    specialize (H e (or_introl eq_refl)) as He.
    destruct (Z.gtb_spec (blockHeight (snd e)) t); [lia|].
    apply IH. intros e' He'. apply H. right. exact He'. }
  rewrite E. change (idsOf []) with (@nil JSString). rewrite unmarkEntry_nil.
  induction m as [|e m IH]; simpl; [reflexivity|].
  unfold isAbove at 1.
  specialize (H e (or_introl eq_refl)) as He.
  destruct (Z.gtb_spec (blockHeight (snd e)) t); [lia|]. simpl.
  f_equal. apply IH.
  - intros e' He'. apply H. right. exact He'.
  - simpl in E. destruct (Z.gtb_spec (blockHeight (snd e)) t); [lia | exact E].
Qed.

(** Rows above [t] that carry a given identifier, before and after the
    marks of one transaction. *)
Lemma markedBy_above_ids (x y : JSString) (t : Z) (l l' : JSMap.t UTXO) :
  Forall2 (markedBy x) l l' ->
  existsb (fun u => JSString_eqb y (txid u))
          (filter (fun u => blockHeight u >? t) (map snd l'))
  = existsb (fun u => JSString_eqb y (txid u))
            (filter (fun u => blockHeight u >? t) (map snd l)).
Proof.
  induction 1 as [|e e' l l' M _ IH]; simpl; [reflexivity|].
  destruct (markedBy_same _ _ _ M) as [_ [E2 [_ E4]]].
  rewrite E4. destruct (blockHeight (snd e) >? t); simpl; [|exact IH].
  rewrite E2, IH. reflexivity.
Qed.

Lemma newEntries_above_ids (x y : JSString) (h t : Z) (outs : list Output)
      (i : nat) (n : Z) :
  t < h -> outs <> [] ->
  existsb (fun u => JSString_eqb y (txid u))
          (filter (fun u => blockHeight u >? t)
                  (map snd (newEntries x h i outs n)))
  = JSString_eqb y x.
Proof.
  intros Ht. revert i n. induction outs as [|o outs IH]; intros i n Hne;
    [contradiction|].
  simpl. destruct (Z.gtb_spec h t); [|lia]. simpl.
  destruct (JSString_eqb y x) eqn:E; [reflexivity|]. simpl.
  destruct outs as [|o' outs']; [reflexivity|].
  apply IH. discriminate.
Qed.

Lemma spentBy_after (x : JSString) (t h : Z) (tx_outs : list Output) (n : Z)
      (l l' : JSMap.t UTXO) (u : UTXO) :
  Forall2 (markedBy x) l l' -> t < h -> tx_outs <> [] ->
  spentBy (idsOf (filter (fun u => blockHeight u >? t)
                         (JSMap.values (l' ++ newEntries x h 0 tx_outs n)))) u
  = spent u && InMemory.truthy (spentTxid u)
    && match spentTxid u with
       | Some y =>
           JSSet.has (JSSet.ofArray
                        (idsOf (filter (fun u => blockHeight u >? t)
                                       (JSMap.values l)))) y
           || JSString_eqb y x
       | None => false
       end.
Proof.
  intros F Ht Hne. unfold spentBy. f_equal.
  destruct (spentTxid u) as [y|]; [|reflexivity].
  rewrite !has_idsOf. unfold JSMap.values.
  rewrite map_app, filter_app, existsb_app.
  rewrite (markedBy_above_ids x y t l l' F).
  rewrite newEntries_above_ids by assumption. reflexivity.
Qed.

Lemma newEntries_all_above (x : JSString) (h t : Z) (outs : list Output)
      (i : nat) (n : Z) (ids : list JSString) :
  t < h ->
  filter (fun e => negb (isAbove t e))
         (map (unmarkEntry ids) (newEntries x h i outs n)) = [].
Proof.
  intros Ht. revert i n; induction outs as [|o outs IH]; intros i n; simpl;
    [reflexivity|].
  rewrite unmark_isAbove. unfold isAbove at 1. simpl.
  destruct (Z.gtb_spec h t); [|lia]. simpl. apply IH.
Qed.

Lemma newEntries_first_key (x : JSString) (h : Z) (outs : list Output) (n : Z) :
  outs <> [] ->
  In (InMemory.getKey x 0) (map fst (newEntries x h 0 outs n)).
Proof.
  destruct outs as [|o outs]; [contradiction|]. intros _. simpl. left.
  reflexivity.
Qed.

Lemma newEntries_unspent (x : JSString) (h : Z) (outs : list Output) (i : nat)
      (n : Z) (e : JSString * UTXO) :
  In e (newEntries x h i outs n) ->
  spent (snd e) = false /\ spentTxid (snd e) = None /\ spentAt (snd e) = None.
Proof.
  revert i n; induction outs as [|o outs IH]; intros i n; simpl; [tauto|].
  intros [<- | H]; [simpl; auto | eapply IH; exact H].
Qed.

(** The marks of a transaction with an output above [t] are taken back
    entry by entry. *)
Lemma unmark_after_marks (x : JSString) (ids ids' : list JSString)
      (l l' : JSMap.t UTXO) :
  (forall u, spentBy ids' u
             = spent u && InMemory.truthy (spentTxid u)
               && match spentTxid u with
                  | Some y => JSSet.has (JSSet.ofArray ids) y || JSString_eqb y x
                  | None => false
                  end) ->
  Forall2 (markedByNonEmpty x) l l' ->
  unspentClean l ->
  Forall (fun e => spentTxid (snd e) <> Some x) l ->
  map (unmarkEntry ids') l' = map (unmarkEntry ids) l.
Proof.
  intros Hs F. induction F as [|e e' l l' M _ IH]; intros C N;
    [reflexivity|].
  inversion C as [|? ? Ce C']; subst. inversion N as [|? ? Ne N']; subst.
  simpl. rewrite (IH C' N'). f_equal.
  destruct M as [-> | [Hx [Sp ->]]].
  - unfold unmarkEntry. rewrite Hs. unfold spentBy.
    destruct (spentTxid (snd e)) as [y|] eqn:Ey; [|reflexivity].
    assert (Eyx : JSString_eqb y x = false).
    { apply JSString_eqb_neq. intros ->. apply Ne. reflexivity. }
    rewrite Eyx, orb_false_r. reflexivity.
  - unfold unmarkEntry. rewrite Hs. simpl.
    rewrite JSString_eqb_refl, orb_true_r.
    destruct x as [|c x]; [contradiction|]. simpl.
    unfold spentBy. rewrite Sp. simpl.
    destruct e as [k u]. simpl in *. f_equal.
    destruct (Ce Sp) as [E1 E2]. destruct u; simpl in *. subst.
    reflexivity.
Qed.

Lemma markedBy_nonEmpty (x : JSString) (l l' : JSMap.t UTXO) :
  Forall2 (markedBy x) l l' -> x <> [] \/ l' = l ->
  Forall2 (markedByNonEmpty x) l l'.
Proof.
  intros F [Hx | ->].
  - induction F as [|e e' l l' M _ IH]; constructor; [|exact IH].
    destruct M as [-> | [Sp ->]]; [left; reflexivity | right; auto].
  - clear F. induction l; constructor; [left; reflexivity | assumption].
Qed.

Lemma unspentClean_after (x : JSString) (l l' : JSMap.t UTXO) :
  Forall2 (markedByNonEmpty x) l l' -> unspentClean l -> unspentClean l'.
Proof.
  unfold unspentClean.
  induction 1 as [|e e' l l' M _ IH]; intros C; [constructor|].
  inversion C; subst. constructor; [|apply IH; assumption].
  destruct M as [-> | [_ [_ ->]]]; [assumption | simpl; discriminate].
Qed.

Lemma spenderPresent_after (x : JSString) (keys : list JSString)
      (l l' : JSMap.t UTXO) :
  Forall2 (markedByNonEmpty x) l l' ->
  (l' <> l -> In (InMemory.getKey x 0) keys) ->
  Forall (fun e => spent (snd e) = true ->
                   exists y, spentTxid (snd e) = Some y /\ y <> []
                             /\ In (InMemory.getKey y 0) keys) l ->
  Forall (fun e => spent (snd e) = true ->
                   exists y, spentTxid (snd e) = Some y /\ y <> []
                             /\ In (InMemory.getKey y 0) keys) l'.
Proof.
  induction 1 as [|e e' l l' M _ IH]; intros Hk G; [constructor|].
  inversion G as [|? ? Ge G']; subst.
  constructor.
  - destruct M as [-> | [Hx [Sp ->]]]; [exact Ge|].
    simpl. intros _. exists x. split; [reflexivity|]. split; [exact Hx|].
    apply Hk. intros E. inversion E as [[E1 E2]].
    rewrite <- E1 in Sp. simpl in Sp. discriminate.
  - apply IH; [|exact G']. intros N. apply Hk. intros E. apply N.
    inversion E. reflexivity.
Qed.

Lemma processTransaction_rolledBack (t h : Z) (tx : Transaction)
      (s s' : InMemory.Store) :
  unspentClean (InMemory.utxos s) ->
  spenderPresent (InMemory.utxos s) ->
  traceable tx -> t < h ->
  NoDup (txKeys tx) ->
  (forall k, In k (txKeys tx) -> ~ In k (map fst (InMemory.utxos s))) ->
  processTransaction h tx s = (ok tt, s') ->
  unspentClean (InMemory.utxos s')
  /\ spenderPresent (InMemory.utxos s')
  /\ rolledBack t (InMemory.utxos s') = rolledBack t (InMemory.utxos s).
Proof.
  intros C SP Tr Ht ND Hf P.
  destruct (processTransaction_shape _ _ _ _ ND Hf P) as [l' [F0 [E R]]].
  destruct (outputs tx) as [|o outs] eqn:Eo.
  - (* no output: by traceability, no mark either *)
    assert (Hr : hasRegularInputs tx = false).
    { destruct (hasRegularInputs tx) eqn:Hr; [|reflexivity].
      destruct (Tr Hr) as [_ N]. contradiction. }
    simpl in E. rewrite app_nil_r in E. rewrite E, (R Hr). auto.
  - set (new := newEntries (tx_id tx) h 0 (o :: outs) (InMemory.nextId s)) in *.
    assert (F : Forall2 (markedByNonEmpty (tx_id tx)) (InMemory.utxos s) l').
    { apply markedBy_nonEmpty; [exact F0|].
      destruct (hasRegularInputs tx) eqn:Hr.
      - left. apply Tr, Hr.
      - right. apply R. reflexivity. }
    assert (Hk0 : In (InMemory.getKey (tx_id tx) 0) (map fst new)).
    { apply newEntries_first_key. discriminate. }
    assert (Nx : Forall (fun e => spentTxid (snd e) <> Some (tx_id tx))
                        (InMemory.utxos s)).
    { unfold spenderPresent in SP. rewrite Forall_forall in *.
      intros e He Ex.
      destruct (spent (snd e)) eqn:Sp.
      - destruct (SP e He Sp) as [y [Ey [_ Hy]]].
        rewrite Ex in Ey. inversion Ey; subst y.
        apply (Hf (InMemory.getKey (tx_id tx) 0)); [|exact Hy].
        unfold txKeys. rewrite Eo. simpl. left. reflexivity.
      - unfold unspentClean in C. rewrite Forall_forall in C.
        destruct (C e He Sp) as [E1 _]. congruence. }
    split; [|split].
    + rewrite E. unfold unspentClean. apply Forall_app. split.
      * apply (unspentClean_after _ _ _ F C).
      * apply Forall_forall. intros e He _.
        apply newEntries_unspent in He. tauto.
    + rewrite E. unfold spenderPresent. apply Forall_app. split.
      * apply (spenderPresent_after (tx_id tx) _ _ _ F).
        -- intros _. rewrite map_app. apply in_or_app. right. exact Hk0.
        -- unfold spenderPresent in SP. rewrite Forall_forall in *.
           intros e He Sp. destruct (SP e He Sp) as [y [Ey [Ny Hy]]].
           exists y. split; [exact Ey|]. split; [exact Ny|].
           rewrite map_app, (markedBy_keys _ _ _ F0).
           apply in_or_app. left. exact Hy.
      * apply Forall_forall. intros e He Sp.
        apply newEntries_unspent in He. destruct He as [He _]. congruence.
    + rewrite E. unfold new. unfold rolledBack at 1.
      rewrite map_app, filter_app, newEntries_all_above by exact Ht.
      rewrite app_nil_r. unfold rolledBack. f_equal.
      apply (unmark_after_marks (tx_id tx)); [|exact F | exact C | exact Nx].
      intros u. apply spentBy_after; [exact F0 | exact Ht | discriminate].
Qed.

(** * Rollback undoes a chain of blocks *)

Lemma sound_empty : sound InMemory.empty.
Proof.
  split; [apply wf_empty|]. split; [|split; constructor].
  intros x. unfold rows, tip. simpl. split; [intros [u [[] _]] | lia].
Qed.

Lemma processBlock_rolledBack (t : Z) (b : Block) (s s' : InMemory.Store) :
  sound s ->
  freshFor s (transactions b) ->
  Forall traceable (transactions b) ->
  t <= tip s ->
  processBlock b s = (ok tt, s') ->
  sound s' /\ tip s <= tip s' <= tip s + 1
  /\ rolledBack t (InMemory.utxos s') = rolledBack t (InMemory.utxos s).
Proof.
  intros [W [Ha [C SP]]] Fr Tr Ht P.
  destruct (ingest_keeps_heights _ _ _ W Ha Fr P) as [W' [Ha' Tip]].
  destruct (processBlock_ok_inv _ _ _ P) as [Eh [_ [_ T]]].
  destruct (processTransactions_fresh_ind
              (fun c => unspentClean (InMemory.utxos c)
                        /\ spenderPresent (InMemory.utxos c)
                        /\ rolledBack t (InMemory.utxos c)
                           = rolledBack t (InMemory.utxos s))
              (height b) (transactions b))
    with (txs := transactions b) (s := s) (s' := s')
    as [_ [[C' [SP' RB]] _]]; auto.
  - intros tx c c' Hin Wc [Cc [SPc RBc]] ND Hf Tc.
    rewrite Forall_forall in Tr.
    destruct (processTransaction_rolledBack t (height b) tx c c' Cc SPc
                (Tr tx Hin) ltac:(lia) ND Hf Tc) as [C1 [SP1 RB1]].
    split; [exact C1|]. split; [exact SP1|]. congruence.
  - apply incl_refl.
  - unfold sound. auto.
Qed.

Lemma ingest_app (l1 l2 : list Block) (s : InMemory.Store) :
  ingest (l1 ++ l2) s
  = match ingest l1 s with Some s1 => ingest l2 s1 | None => None end.
Proof.
  revert s; induction l1 as [|b l1 IH]; intros s; simpl; [reflexivity|].
  destruct (processBlock b s) as [[[]|e] s1]; [apply IH | reflexivity].
Qed.

Lemma orderly_app (l1 l2 : list Block) (s s1 : InMemory.Store) :
  orderly (l1 ++ l2) s -> ingest l1 s = Some s1 -> orderly l2 s1.
Proof.
  revert s; induction l1 as [|b l1 IH]; intros s; simpl.
  - intros O E; inversion E; subst; exact O.
  - intros [_ [_ O]].
    destruct (processBlock b s) as [[[]|e] s'] eqn:P; [|discriminate].
    intros E. apply (IH s'); [apply O; reflexivity | exact E].
Qed.

Lemma ingest_rolledBack (t : Z) (bs : list Block) (s s' : InMemory.Store) :
  sound s -> orderly bs s -> t <= tip s ->
  ingest bs s = Some s' ->
  sound s' /\ tip s <= tip s'
  /\ rolledBack t (InMemory.utxos s') = rolledBack t (InMemory.utxos s).
Proof.
  revert s; induction bs as [|b bs IH]; intros s S O Ht; simpl.
  - intros E; inversion E; subst. split; [exact S|]. split; [lia | reflexivity].
  - destruct O as [Fr [Tr O]].
    destruct (processBlock b s) as [[[]|e] s1] eqn:P; [|discriminate].
    intros E.
    destruct (processBlock_rolledBack t b s s1 S Fr Tr Ht P) as [S1 [T1 R1]].
    destruct (IH s1 S1 (O s1 eq_refl) ltac:(lia) E) as [S' [T' R']].
    split; [exact S'|]. split; [lia | congruence].
Qed.

Lemma outputKeys_nonempty (txs : list Transaction) :
  (exists tx, In tx txs /\ outputs tx <> []) -> outputKeys txs <> [].
Proof.
  intros [tx [Hin Hne]] E.
  assert (X : forall k, In k (txKeys tx) -> In k (outputKeys txs)).
  { intros k Hk. unfold outputKeys. apply in_flat_map. exists tx. auto. }
  unfold txKeys in X. destruct (outputs tx) as [|o outs]; [contradiction|].
  specialize (X _ (or_introl eq_refl)). rewrite E in X. destruct X.
Qed.

Lemma ingest_tip_step (b : Block) (s s' : InMemory.Store) :
  wf s -> heightsAre s (tip s) -> freshFor s (transactions b) ->
  createsOutput b ->
  processBlock b s = (ok tt, s') ->
  tip s' = tip s + 1.
Proof.
  intros W Ha Fr Co P.
  destruct (ingest_keeps_heights _ _ _ W Ha Fr P) as [_ [_ Tip]].
  destruct (processBlock_ok_inv _ _ _ P) as [Eh [_ [_ T]]].
  destruct (processTransactions_heights _ _ _ _ W Fr T) as [_ [_ H]].
  destruct (processTransactions_fresh_ind (fun _ => True) (height b)
              (transactions b))
    with (txs := transactions b) (s := s) (s' := s') as [_ [_ K]]; auto.
  { apply incl_refl. }
  assert (L : (length (InMemory.utxos s) < length (InMemory.utxos s'))%nat).
  { rewrite <- (length_map fst (InMemory.utxos s')), K, length_app, length_map.
    pose proof (outputKeys_nonempty _ Co) as N.
    destruct (outputKeys (transactions b)); [contradiction | simpl; lia]. }
  destruct (proj2 (H (height b))) as [u [Hu Eu]]; [right; auto|].
  pose proof (tip_upper s' u Hu). lia.
Qed.

Lemma ingest_tip_counts (bs : list Block) (s s' : InMemory.Store) :
  sound s -> orderly bs s -> Forall createsOutput bs ->
  ingest bs s = Some s' ->
  tip s' = tip s + Z.of_nat (length bs).
Proof.
  revert s; induction bs as [|b bs IH]; intros s S O Co; simpl length.
  - simpl. intros E; inversion E; subst. lia.
  - simpl ingest. destruct O as [Fr [Tr O]].
    destruct (processBlock b s) as [[[]|e] s1] eqn:P; [|discriminate].
    intros E. inversion Co as [|? ? Cb Co']; subst.
    destruct (processBlock_rolledBack 0 b s s1 S Fr Tr (tip_nonneg s) P)
      as [S1 _].
    destruct S as [W [Ha _]].
    rewrite (IH s1 S1 (O s1 eq_refl) Co' E).
    rewrite (ingest_tip_step b s s1 W Ha Fr Cb P). lia.
Qed.

Lemma rolledBack_at_tip (s : InMemory.Store) :
  rolledBack (tip s) (InMemory.utxos s) = InMemory.utxos s.
Proof.
  apply rolledBack_nothing_above. intros e He.
  apply tip_upper. unfold rows, JSMap.values. apply in_map. exact He.
Qed.

Lemma above_nonempty_below_tip (t : Z) (s : InMemory.Store) :
  0 <= t < tip s -> above t s <> [].
Proof.
  intros Ht E. destruct (tip_attained s) as [E0 | [u [Hu Eu]]]; [lia|].
  rewrite above_nil_iff in E. specialize (E u Hu). lia.
Qed.

Lemma orderly_prefix (l1 l2 : list Block) (s : InMemory.Store) :
  orderly (l1 ++ l2) s -> orderly l1 s.
Proof.
  revert s; induction l1 as [|b l1 IH]; intros s; simpl; [auto|].
  intros [Fr [Tr O]]. split; [exact Fr|]. split; [exact Tr|].
  intros s' P. apply IH, O, P.
Qed.

(** C1, as the code has it.  Take a chain of blocks, accepted in order
    from the empty store, in which no insert meets a key already in the
    store and every transaction with a non-coinbase input has a non-empty
    identifier and creates an output.  For every prefix of the chain, a
    rollback to the tip reached after the prefix leaves exactly the rows
    the store held after the prefix: it succeeds when the chain went on
    to a higher tip, and fails with [NoBlocksToRollback], changing
    nothing, when it did not.  When every block creates an output, the
    tip after [k] blocks is [k]. *)
Theorem rollback_inverts_ingest (bs : list Block) (k : nat)
        (s_k s_n : InMemory.Store) :
  orderly bs InMemory.empty ->
  ingest (firstn k bs) InMemory.empty = Some s_k ->
  ingest bs InMemory.empty = Some s_n ->
  InMemory.utxos (snd (rollbackToHeight (tip s_k) s_n)) = InMemory.utxos s_k
  /\ (tip s_k < tip s_n ->
      rollbackToHeight (tip s_k) s_n
      = (ok tt, InMemory.mkStore (InMemory.utxos s_k) (InMemory.nextId s_n)))
  /\ (tip s_n <= tip s_k ->
      rollbackToHeight (tip s_k) s_n
      = (err (NoBlocksToRollbackError 400 (tip s_k) (tip s_n)), s_n))
  /\ (Forall createsOutput bs -> (k <= length bs)%nat ->
      tip s_k = Z.of_nat k /\ tip s_n = Z.of_nat (length bs)).
Proof.
  intros O Ek En.
  rewrite <- (firstn_skipn k bs) in O.
  pose proof (orderly_prefix _ _ _ O) as O1.
  pose proof (orderly_app _ _ _ _ O Ek) as O2.
  assert (En' : ingest (skipn k bs) s_k = Some s_n).
  { rewrite <- (firstn_skipn k bs), ingest_app, Ek in En. exact En. }
  destruct (ingest_rolledBack 0 (firstn k bs) InMemory.empty s_k sound_empty
              O1 (tip_nonneg _) Ek) as [Sk _].
  destruct (ingest_rolledBack (tip s_k) (skipn k bs) s_k s_n Sk O2
              (Z.le_refl _) En') as [Sn [Tn Rn]].
  rewrite rolledBack_at_tip in Rn.
  pose proof (tip_nonneg s_k) as T0.
  assert (Hlt : tip s_k < tip s_n ->
                rollbackToHeight (tip s_k) s_n
                = (ok tt, InMemory.mkStore (InMemory.utxos s_k)
                                           (InMemory.nextId s_n))).
  { intros Hlt. rewrite rollbackToHeight_ok.
    - rewrite Rn. reflexivity.
    - apply Sn.
    - lia.
    - apply above_nonempty_below_tip. lia. }
  assert (Hge : tip s_n <= tip s_k ->
                rollbackToHeight (tip s_k) s_n
                = (err (NoBlocksToRollbackError 400 (tip s_k) (tip s_n)), s_n)).
  { intros Hge. assert (E : tip s_k = tip s_n) by lia. rewrite E.
    apply rollbackToHeight_nothing_above; [lia | apply above_tip_nil]. }
  split; [|split; [exact Hlt | split; [exact Hge|]]].
  - destruct (Z.lt_ge_cases (tip s_k) (tip s_n)) as [Hl | Hg].
    + rewrite (Hlt Hl). reflexivity.
    + rewrite (Hge Hg). simpl. rewrite <- Rn.
      assert (E : tip s_k = tip s_n) by lia. rewrite E.
      symmetry. apply rolledBack_at_tip.
  - intros Co Hk.
    assert (Co1 : Forall createsOutput (firstn k bs)).
    { apply Forall_forall. intros b Hb. rewrite Forall_forall in Co.
      apply Co. rewrite <- (firstn_skipn k bs). apply in_or_app. left.
      exact Hb. }
    assert (Co2 : Forall createsOutput (skipn k bs)).
    { apply Forall_forall. intros b Hb. rewrite Forall_forall in Co.
      apply Co. rewrite <- (firstn_skipn k bs). apply in_or_app. right.
      exact Hb. }
    pose proof (ingest_tip_counts _ _ _ sound_empty O1 Co1 Ek) as Tk.
    pose proof (ingest_tip_counts _ _ _ Sk O2 Co2 En') as Tn'.
    rewrite length_firstn in Tk. rewrite length_skipn in Tn'.
    change (tip InMemory.empty) with 0 in Tk. lia.
Qed.

Lemma traceableb_traceable (tx : Transaction) :
  traceableb tx = true -> traceable tx.
Proof.
  unfold traceableb, traceable. intros H Hr. rewrite Hr in H. simpl in H.
  apply andb_true_iff in H. destruct H as [Hi Ho]. split.
  - apply negb_true_iff, JSString_eqb_neq in Hi. exact Hi.
  - destruct (outputs tx); [discriminate | discriminate].
Qed.

Lemma orderlyb_orderly (bs : list Block) (s : InMemory.Store) :
  orderlyb bs s = true -> orderly bs s.
Proof.
  revert s; induction bs as [|b bs IH]; intros s; simpl; [auto|].
  rewrite !andb_true_iff. intros [[Fr Tr] O].
  split; [apply freshForb_freshFor, Fr|]. split.
  - apply Forall_forall. intros tx Hin. apply traceableb_traceable.
    rewrite forallb_forall in Tr. apply Tr, Hin.
  - intros s' P. rewrite P in O. apply IH, O.
Qed.

Lemma rollback_inverts_ingest_witness :
  InMemory.utxos
    (snd (rollbackToHeight (tip (storeAfter [readmeBlock1; readmeBlock2]))
            (storeAfter [readmeBlock1; readmeBlock2; readmeBlock3])))
  = InMemory.utxos (storeAfter [readmeBlock1; readmeBlock2]).
Proof.
  apply (proj1 (rollback_inverts_ingest
                  [readmeBlock1; readmeBlock2; readmeBlock3] 2
                  (storeAfter [readmeBlock1; readmeBlock2])
                  (storeAfter [readmeBlock1; readmeBlock2; readmeBlock3])
                  ltac:(apply orderlyb_orderly; vm_compute; reflexivity)
                  ltac:(vm_compute; reflexivity)
                  ltac:(vm_compute; reflexivity))).
Defined.

(** C1, as stated, fails.  A block without transactions is accepted at
    height 1 and writes nothing, so the next block is accepted at height 1
    too: after these two blocks a rollback to height 1 finds nothing to
    roll back and leaves the row of the second block, which the store did
    not hold after the first block alone.  And when a transaction at
    height 2 spends an output of value 0 and creates no output, a rollback
    to height 1 succeeds and leaves that output marked spent. *)
Lemma rollback_does_not_invert_every_chain :
  (ingest chainWithBareBlock InMemory.empty
   = Some (storeAfter chainWithBareBlock)
   /\ ingest (firstn 1 chainWithBareBlock) InMemory.empty = Some InMemory.empty
   /\ fst (rollbackToHeight 1 (storeAfter chainWithBareBlock))
      = err (NoBlocksToRollbackError 400 1 1)
   /\ InMemory.utxos (snd (rollbackToHeight 1 (storeAfter chainWithBareBlock)))
      <> InMemory.utxos InMemory.empty)
  /\ (ingest [zeroBlock1; zeroBlock2] InMemory.empty
      = Some (storeAfter [zeroBlock1; zeroBlock2])
      /\ ingest (firstn 1 [zeroBlock1; zeroBlock2]) InMemory.empty
         = Some (storeAfter [zeroBlock1])
      /\ fst (rollbackToHeight 1 (storeAfter [zeroBlock1; zeroBlock2])) = ok tt
      /\ map (fun u => (spent u, spentTxid u))
             (rows (snd (rollbackToHeight 1
                           (storeAfter [zeroBlock1; zeroBlock2]))))
         = [(true, Some (padTxId (js "tx2")))]
      /\ map (fun u => (spent u, spentTxid u)) (rows (storeAfter [zeroBlock1]))
         = [(false, None)]
      /\ InMemory.utxos
           (snd (rollbackToHeight 1 (storeAfter [zeroBlock1; zeroBlock2])))
         <> InMemory.utxos (storeAfter [zeroBlock1])).
Proof.
  split.
  - split; [vm_compute; reflexivity|]. split; [vm_compute; reflexivity|].
    split; [vm_compute; reflexivity|]. vm_compute. discriminate.
  - split; [vm_compute; reflexivity|]. split; [vm_compute; reflexivity|].
    split; [vm_compute; reflexivity|]. split; [vm_compute; reflexivity|].
    split; [vm_compute; reflexivity|]. vm_compute. discriminate.
Qed.

(** Each condition on the chain is needed on the in-memory store.  When
    a block inserts under a key that is already there, the row of height
    1 is replaced and a rollback to height 1 deletes it; when the
    spending transaction has the empty string as its identifier, the mark
    it left is not taken back. *)
Example rollback_after_overwrite :
  ingest [readmeBlock1; sameIdAt2] InMemory.empty
  = Some (storeAfter [readmeBlock1; sameIdAt2])
  /\ fst (rollbackToHeight 1 (storeAfter [readmeBlock1; sameIdAt2])) = ok tt
  /\ rows (snd (rollbackToHeight 1 (storeAfter [readmeBlock1; sameIdAt2]))) = []
  /\ length (rows (storeAfter [readmeBlock1])) = 1%nat.
Proof. vm_compute. repeat split. Qed.

Example rollback_after_empty_id :
  ingest [emptyIdBlock1; emptyIdBlock2] InMemory.empty
  = Some (storeAfter [emptyIdBlock1; emptyIdBlock2])
  /\ fst (rollbackToHeight 1 (storeAfter [emptyIdBlock1; emptyIdBlock2]))
     = ok tt
  /\ map (fun u => (spent u, spentTxid u))
         (rows (snd (rollbackToHeight 1
                       (storeAfter [emptyIdBlock1; emptyIdBlock2]))))
     = [(true, Some [])]
  /\ map (fun u => (spent u, spentTxid u)) (rows (storeAfter [emptyIdBlock1]))
     = [(false, None)].
Proof. vm_compute. repeat split. Qed.

(** * Every store reached is well formed *)

Lemma set_keys {V} (m : JSMap.t V) (k : JSString) (v : V) :
  map fst (JSMap.set m k v)
  = if existsb (JSString_eqb k) (map fst m) then map fst m
    else map fst m ++ [k].
Proof.
  induction m as [|[k' v'] m IH]; simpl; [reflexivity|].
  rewrite (JSString_eqb_sym k k').
  destruct (JSString_eqb k' k) eqn:E; simpl; [reflexivity|].
  rewrite IH. destruct (existsb (JSString_eqb k) (map fst m)); reflexivity.
Qed.

Lemma set_distinct {V} (m : JSMap.t V) (k : JSString) (v : V) :
  NoDup (map fst m) -> NoDup (map fst (JSMap.set m k v)).
Proof.
  intros ND. rewrite set_keys.
  destruct (existsb (JSString_eqb k) (map fst m)) eqn:E; [exact ND|].
  apply NoDup_app; [exact ND | repeat constructor; intros [] |].
  intros a Ha [Ea | []]. subst a.
  assert (X : existsb (JSString_eqb k) (map fst m) = true).
  { apply existsb_exists. exists k. split; [exact Ha | apply JSString_eqb_refl]. }
  congruence.
Qed.

Lemma set_Forall {V} (P : JSString * V -> Prop) (m : JSMap.t V)
      (k : JSString) (v : V) :
  Forall P m -> P (k, v) -> Forall P (JSMap.set m k v).
Proof.
  intros F Pk. induction m as [|[k' v'] m IH]; simpl.
  - constructor; [exact Pk | constructor].
  - inversion F; subst. destruct (JSString_eqb k' k) eqn:E.
    + apply JSString_eqb_eq in E. subst k'. constructor; assumption.
    + constructor; [assumption | apply IH; assumption].
Qed.

Lemma createOutputs_wf (x : JSString) (h : Z) (outs : list Output) (i : nat)
      (s s' : InMemory.Store) :
  wf s -> createOutputs x h i outs s = (ok tt, s') -> wf s'.
Proof.
  revert i s; induction outs as [|o outs IH]; intros i s W;
    cbn [createOutputs].
  - intros E; inversion E; subst; exact W.
  - cbn [insert InMemoryUTXORepository]. unfold InMemory.insert.
    apply IH. destruct W as [ND K]. split.
    + unfold distinctKeys. simpl. apply set_distinct, ND.
    + unfold keyed. simpl. apply set_Forall; [exact K | reflexivity].
Qed.

Lemma spendInputs_wf (x : JSString) (ins : list Input)
      (s s' : InMemory.Store) :
  wf s -> spendInputs x ins s = (ok tt, s') -> wf s'.
Proof.
  intros [ND K] P. destruct (spendInputs_shape _ _ _ _ P) as [F _].
  split.
  - unfold distinctKeys. rewrite (markedBy_keys _ _ _ F). exact ND.
  - apply (markedBy_keyed _ _ _ F K).
Qed.

Lemma processTransactions_wf (h : Z) (txs : list Transaction)
      (s s' : InMemory.Store) :
  wf s -> processTransactions h txs s = (ok tt, s') -> wf s'.
Proof.
  revert s; induction txs as [|tx txs IH]; intros s W;
    cbn [processTransactions].
  - intros E; inversion E; subst; exact W.
  - unfold processTransaction.
    destruct (spendInputs (tx_id tx) (inputs tx) s) as [[[]|e] s1] eqn:Sp;
      [|discriminate].
    destruct (createOutputs (tx_id tx) h 0 (outputs tx) s1)
      as [[[]|e] s2] eqn:Cr; [|discriminate].
    apply IH. eapply createOutputs_wf; [|exact Cr].
    eapply spendInputs_wf; [exact W | exact Sp].
Qed.

Lemma reached_wf (s : InMemory.Store) : reached s -> wf s.
Proof.
  induction 1 as [|r s s' _ W H]; [apply wf_empty|].
  destruct r as [b | t]; simpl in H.
  - destruct (processBlock_ok_inv _ _ _ H) as [_ [_ [_ T]]].
    eapply processTransactions_wf; eassumption.
  - destruct (rollbackToHeight_ok_inv _ _ _ H) as [Ht Hab].
    rewrite (rollbackToHeight_ok t s (proj1 W) Ht Hab) in H.
    inversion H; subst. apply rolledBack_wf, W.
Qed.

(** * Keys: one for each pair of an identifier and an index *)

Lemma digitsOfUint_digits (d : Decimal.uint) :
  Forall (fun c => 48 <= c <= 57) (digitsOfUint d).
Proof. induction d; simpl; constructor; (lia || assumption). Qed.

Lemma digitsOfUint_inj (d d' : Decimal.uint) :
  digitsOfUint d = digitsOfUint d' -> d = d'.
Proof.
  revert d'; induction d; intros d'; destruct d'; simpl; intros E;
    try discriminate; try reflexivity;
    inversion E as [E']; f_equal; auto.
Qed.

Lemma numberToString_inj (n m : Z) :
  numberToString n = numberToString m -> n = m.
Proof.
  unfold numberToString. intros E. apply DecimalZ.to_int_inj.
  destruct (Z.to_int n) as [d | d], (Z.to_int m) as [d' | d'].
  - f_equal. apply digitsOfUint_inj, E.
  - exfalso. pose proof (digitsOfUint_digits d) as F. rewrite E in F.
    inversion F; subst. lia.
  - exfalso. pose proof (digitsOfUint_digits d') as F. rewrite <- E in F.
    inversion F; subst. lia.
  - inversion E as [E']. f_equal. apply digitsOfUint_inj, E'.
Qed.

Lemma numberToString_no_colon (n : Z) : ~ In 58 (numberToString n).
Proof.
  unfold numberToString. intros H.
  assert (G : forall d, ~ In 58 (digitsOfUint d)).
  { intros d Hd. pose proof (digitsOfUint_digits d) as F.
    rewrite Forall_forall in F. specialize (F 58 Hd). lia. }
  destruct (Z.to_int n) as [d | d].
  - exact (G d H).
  - destruct H as [H | H]; [discriminate | exact (G d H)].
Qed.

Lemma split_at_first {A} (x : A) (l1 l2 r1 r2 : list A) :
  ~ In x l1 -> ~ In x l2 ->
  l1 ++ x :: r1 = l2 ++ x :: r2 -> l1 = l2 /\ r1 = r2.
Proof.
  revert l2; induction l1 as [|a l1 IH]; intros [|b l2] N1 N2 E; simpl in *.
  - inversion E. auto.
  - inversion E; subst. exfalso. apply N2. left. reflexivity.
  - inversion E; subst. exfalso. apply N1. left. reflexivity.
  - inversion E; subst. destruct (IH l2) as [E1 E2]; auto.
    subst. auto.
Qed.

Lemma getKey_inj (t t' : JSString) (v v' : Z) :
  InMemory.getKey t v = InMemory.getKey t' v' -> t = t' /\ v = v'.
Proof.
  unfold InMemory.getKey. change (js ":") with [58]. simpl. intros E.
  apply (f_equal (@rev Z)) in E. rewrite !rev_app_distr in E. simpl in E.
  rewrite <- !app_assoc in E. simpl in E.
  apply split_at_first in E.
  - destruct E as [E1 E2].
    apply (f_equal (@rev Z)) in E1, E2. rewrite !rev_involutive in E1, E2.
    split; [exact E2 | apply numberToString_inj, E1].
  - rewrite <- in_rev. apply numberToString_no_colon.
  - rewrite <- in_rev. apply numberToString_no_colon.
Qed.

(** The keys of the outputs of one transaction are distinct; those of a
    list of transactions are when the transactions that create outputs
    have different identifiers. *)
Lemma txKeys_NoDup (tx : Transaction) : NoDup (txKeys tx).
Proof.
  unfold txKeys. apply NoDup_map_NoDup_ForallPairs; [|apply seq_NoDup].
  intros i j _ _ E. apply getKey_inj in E. lia.
Qed.

Lemma txKeys_id (tx : Transaction) (k : JSString) :
  In k (txKeys tx) -> exists i, k = InMemory.getKey (tx_id tx) i.
Proof.
  unfold txKeys. intros H. apply in_map_iff in H.
  destruct H as [i [<- _]]. exists (Z.of_nat i). reflexivity.
Qed.

Lemma outputKeys_NoDup (txs : list Transaction) :
  NoDup (map tx_id (filter (fun tx => negb (length (outputs tx) =? 0)%nat) txs)) ->
  NoDup (outputKeys txs).
Proof.
  induction txs as [|tx txs IH]; simpl; [constructor|].
  destruct (outputs tx) as [|o outs] eqn:Eo; simpl.
  - intros ND. unfold txKeys at 1. rewrite Eo. simpl. apply IH, ND.
  - intros ND. inversion ND as [|? ? Hn ND']; subst.
    apply NoDup_app; [apply txKeys_NoDup | apply IH, ND' |].
    intros k Hk Hk'. apply Hn.
    apply txKeys_id in Hk. destruct Hk as [i ->].
    unfold outputKeys in Hk'. apply in_flat_map in Hk'.
    destruct Hk' as [tx' [Hin Hk']].
    pose proof Hk' as Hk''. apply txKeys_id in Hk''. destruct Hk'' as [j Ej].
    apply getKey_inj in Ej. destruct Ej as [Et _].
    apply in_map_iff. exists tx'. split; [symmetry; exact Et|].
    apply filter_In. split; [exact Hin|].
    unfold txKeys in Hk'. destruct (outputs tx'); [destruct Hk' | reflexivity].
Qed.

(** * The repository, method by method *)

Lemma getKey_differs (t t' : JSString) (v v' : Z) :
  (t, v) <> (t', v') -> InMemory.getKey t v <> InMemory.getKey t' v'.
Proof.
  intros N E. apply getKey_inj in E. destruct E as [-> ->]. apply N. reflexivity.
Qed.

Lemma lookupUnspent_set_other (m : JSMap.t UTXO) (n n' : Z) (k : JSString)
      (w : UTXO) (t : JSString) (v : Z) :
  k <> InMemory.getKey t v ->
  lookupUnspent (InMemory.mkStore (JSMap.set m k w) n') t v
  = lookupUnspent (InMemory.mkStore m n) t v.
Proof.
  intros N. unfold lookupUnspent. simpl. rewrite get_set_other by exact N.
  reflexivity.
Qed.

(** X1.  The key under which the in-memory store files a row tells the
    transaction identifier and the output index apart: two references have
    the same key exactly when they have the same [txId] and the same
    [vout], whatever characters the identifier is made of. *)
Theorem key_identifies_reference (t t' : JSString) (v v' : Z) :
  InMemory.getKey t v = InMemory.getKey t' v' <-> t = t' /\ v = v'.
Proof.
  split.
  - apply getKey_inj.
  - intros [Et Ev]. rewrite Et, Ev. reflexivity.
Qed.

(** X2.  [insert] always succeeds and files the record under its key with
    the identifier the counter had, which it then advances by one.  A
    record that is not inserted as spent is what [findByTxIdsAndVouts]
    answers for its reference right after; the answer for every other
    reference is what it was. *)
Theorem insert_then_find (u : NewUTXO) (s : InMemory.Store) :
  fst (insert u s) = ok tt
  /\ InMemory.nextId (snd (insert u s)) = InMemory.nextId s + 1
  /\ JSMap.get (InMemory.utxos (snd (insert u s)))
               (InMemory.getKey (new_txid u) (new_vout u))
     = Some (stored u (InMemory.nextId s))
  /\ (new_spent u <> Some true ->
      fst (findByTxIdsAndVouts [mkRef (new_txid u) (new_vout u)]
                               (snd (insert u s)))
      = ok [stored u (InMemory.nextId s)])
  /\ (forall t v, (new_txid u, new_vout u) <> (t, v) ->
                  fst (findByTxIdsAndVouts [mkRef t v] (snd (insert u s)))
                  = fst (findByTxIdsAndVouts [mkRef t v] s)).
Proof.
  split; [reflexivity|]. split; [reflexivity|]. split.
  - cbn. apply get_set_same.
  - split.
    + intros Hs. rewrite findByTxIdsAndVouts_found. cbn [fst found flat_map].
      unfold lookupUnspent. cbn [ref_txId ref_vout].
      replace (JSMap.get (InMemory.utxos (snd (insert u s)))
                         (InMemory.getKey (new_txid u) (new_vout u)))
        with (Some (stored u (InMemory.nextId s)))
        by (symmetry; cbn; apply get_set_same).
      unfold stored at 1. cbn [spent].
      destruct (new_spent u) as [[|]|]; [exfalso; apply Hs; reflexivity | |];
        reflexivity.
    + intros t v N. rewrite !findByTxIdsAndVouts_found. cbn [fst found flat_map].
      cbn [ref_txId ref_vout]. destruct s as [m n].
      cbn [insert InMemoryUTXORepository InMemory.insert snd
           InMemory.utxos InMemory.nextId].
      rewrite (lookupUnspent_set_other m n); [reflexivity|].
      apply getKey_differs, N.
Qed.

Lemma insert_then_find_witness :
  fst (findByTxIdsAndVouts
         [mkRef (js "tx9") 0]
         (snd (insert (mkNewUTXO (js "tx9") 0 (js "addr9") 7 [] 1 (Some false))
                      InMemory.empty)))
  = ok [stored (mkNewUTXO (js "tx9") 0 (js "addr9") 7 [] 1 (Some false)) 1].
Proof.
  apply (proj1 (proj2 (proj2 (proj2
           (insert_then_find
              (mkNewUTXO (js "tx9") 0 (js "addr9") 7 [] 1 (Some false))
              InMemory.empty))))).
  discriminate.
Defined.

Lemma find_one (t : JSString) (v : Z) (s : InMemory.Store) :
  fst (findByTxIdsAndVouts [mkRef t v] s)
  = ok (match lookupUnspent s t v with Some u => [u] | None => [] end).
Proof.
  rewrite findByTxIdsAndVouts_found. cbn [fst found flat_map ref_txId ref_vout].
  rewrite app_nil_r. reflexivity.
Qed.

Lemma find_one_none (t : JSString) (v : Z) (s : InMemory.Store) :
  fst (findByTxIdsAndVouts [mkRef t v] s) = ok [] <-> lookupUnspent s t v = None.
Proof.
  rewrite find_one. destruct (lookupUnspent s t v); split; intros E;
    try reflexivity; discriminate.
Qed.

Lemma find_one_some (t : JSString) (v : Z) (s : InMemory.Store) (u : UTXO) :
  fst (findByTxIdsAndVouts [mkRef t v] s) = ok [u]
  <-> lookupUnspent s t v = Some u.
Proof.
  rewrite find_one. destruct (lookupUnspent s t v); split; intros E;
    try discriminate; inversion E; reflexivity.
Qed.

Lemma markAsSpent_none (t : JSString) (v : Z) (x : JSString)
      (s : InMemory.Store) :
  lookupUnspent s t v = None ->
  markAsSpent t v x s = (err (UTXONotFoundError 404), s).
Proof.
  unfold lookupUnspent. cbn [markAsSpent InMemoryUTXORepository].
  unfold InMemory.markAsSpent.
  destruct (JSMap.get (InMemory.utxos s) (InMemory.getKey t v)) as [u|];
    [|reflexivity].
  destruct (spent u); [reflexivity | discriminate].
Qed.

Lemma markAsSpent_some (t : JSString) (v : Z) (x : JSString)
      (s : InMemory.Store) (u : UTXO) :
  lookupUnspent s t v = Some u ->
  markAsSpent t v x s
  = (ok tt, InMemory.mkStore
              (JSMap.set (InMemory.utxos s) (InMemory.getKey t v)
                         (InMemory.withSpent u x))
              (InMemory.nextId s))
  /\ JSMap.get (InMemory.utxos s) (InMemory.getKey t v) = Some u
  /\ spent u = false.
Proof.
  unfold lookupUnspent. cbn [markAsSpent InMemoryUTXORepository].
  unfold InMemory.markAsSpent.
  destruct (JSMap.get (InMemory.utxos s) (InMemory.getKey t v)) as [u0|];
    [|discriminate].
  destruct (spent u0) eqn:Es; [discriminate|].
  intros E; inversion E; subst. auto.
Qed.

Lemma keys_set_present {V} (m : JSMap.t V) (k : JSString) (v0 v : V) :
  JSMap.get m k = Some v0 -> map fst (JSMap.set m k v) = map fst m.
Proof.
  intros G. rewrite set_keys.
  replace (existsb (JSString_eqb k) (map fst m)) with true; [reflexivity|].
  symmetry. apply existsb_exists. exists k. split.
  - eapply get_Some_in_keys, G.
  - apply JSString_eqb_refl.
Qed.

(** X3.  [markAsSpent] fails with [UTXONotFound], status 404, and leaves
    the store as it is when the reference has no unspent row.  Otherwise
    it succeeds; the row then carries the spender, the reference has no
    unspent row any more, so that marking it again fails whoever the
    spender is, every other reference resolves as before, and neither the
    keys nor the counter have changed. *)
Theorem markAsSpent_once (t : JSString) (v : Z) (x : JSString)
        (s : InMemory.Store) :
  (fst (findByTxIdsAndVouts [mkRef t v] s) = ok [] ->
   markAsSpent t v x s = (err (UTXONotFoundError 404), s))
  /\ (forall u,
        fst (findByTxIdsAndVouts [mkRef t v] s) = ok [u] ->
        fst (markAsSpent t v x s) = ok tt
        /\ JSMap.get (InMemory.utxos (snd (markAsSpent t v x s)))
                     (InMemory.getKey t v)
           = Some (InMemory.withSpent u x)
        /\ fst (findByTxIdsAndVouts [mkRef t v] (snd (markAsSpent t v x s)))
           = ok []
        /\ (forall y,
              markAsSpent t v y (snd (markAsSpent t v x s))
              = (err (UTXONotFoundError 404), snd (markAsSpent t v x s)))
        /\ (forall t' v', (t, v) <> (t', v') ->
              fst (findByTxIdsAndVouts [mkRef t' v']
                                       (snd (markAsSpent t v x s)))
              = fst (findByTxIdsAndVouts [mkRef t' v'] s))
        /\ map fst (InMemory.utxos (snd (markAsSpent t v x s)))
           = map fst (InMemory.utxos s)
        /\ InMemory.nextId (snd (markAsSpent t v x s)) = InMemory.nextId s).
Proof.
  split.
  - intros E. apply markAsSpent_none, find_one_none, E.
  - intros u E. apply find_one_some in E.
    destruct (markAsSpent_some t v x s u E) as [M [G Hs]].
    rewrite M. cbn [fst snd InMemory.utxos InMemory.nextId].
    assert (L : lookupUnspent
                  (InMemory.mkStore
                     (JSMap.set (InMemory.utxos s) (InMemory.getKey t v)
                                (InMemory.withSpent u x))
                     (InMemory.nextId s)) t v = None).
    { unfold lookupUnspent. cbn [InMemory.utxos]. rewrite get_set_same.
      reflexivity. }
    split; [reflexivity|]. split; [apply get_set_same|].
    split; [apply find_one_none, L|].
    split; [intros y; apply markAsSpent_none, L|].
    split.
    + intros t' v' N. rewrite !find_one. destruct s as [m n].
      cbn [InMemory.utxos InMemory.nextId].
      rewrite (lookupUnspent_set_other m n); [reflexivity|].
      apply getKey_differs, N.
    + split; [|reflexivity]. eapply keys_set_present, G.
Qed.

Lemma markAsSpent_once_witness :
  fst (markAsSpent (js "tx9") 0 (js "tx10")
         (snd (insert (mkNewUTXO (js "tx9") 0 (js "addr9") 7 [] 1 (Some false))
                      InMemory.empty)))
  = ok tt.
Proof.
  apply (proj2 (markAsSpent_once
                  (js "tx9") 0 (js "tx10")
                  (snd (insert (mkNewUTXO (js "tx9") 0 (js "addr9") 7 [] 1
                                          (Some false))
                               InMemory.empty)))
               (stored (mkNewUTXO (js "tx9") 0 (js "addr9") 7 [] 1 (Some false))
                       1)).
  vm_compute. reflexivity.
Defined.

(** * Balances, heights and deletions in the repository *)



Lemma unspentValue_app (p : JSString -> bool) (m1 m2 : JSMap.t UTXO) :
  unspentValue p (m1 ++ m2) = unspentValue p m1 + unspentValue p m2.
Proof.
  unfold unspentValue. induction m1 as [|e m1 IH]; simpl; [reflexivity|].
  rewrite IH. lia.
Qed.

Lemma unspentValue_set (p : JSString -> bool) (m : JSMap.t UTXO)
      (k : JSString) (v : UTXO) :
  unspentValue p (JSMap.set m k v)
  = unspentValue p m - countsAt p m k + counts p v.
Proof.
  unfold unspentValue, countsAt.
  induction m as [|[k' v'] m IH]; simpl; [lia|].
  destruct (JSString_eqb k' k); simpl; [lia|]. rewrite IH. lia.
Qed.

Lemma counts_withSpent (p : JSString -> bool) (u : UTXO) (x : JSString) :
  counts p (InMemory.withSpent u x) = 0.
Proof.
  unfold counts, InMemory.withSpent. cbn [spent negb].
  rewrite andb_false_r. reflexivity.
Qed.



(** X5.  [getMaxBlockHeight] never fails on the in-memory store and
    leaves it as it is; the height it answers is never negative, is at
    least the height of every row, and is that of some row unless it is
    0, which is what the empty store gives. *)
Theorem max_block_height (s : InMemory.Store) :
  exists h,
    getMaxBlockHeight s = (ok h, s)
    /\ 0 <= h
    /\ (forall u, In u (rows s) -> blockHeight u <= h)
    /\ (h = 0 \/ exists u, In u (rows s) /\ blockHeight u = h)
    /\ (rows s = [] -> h = 0).
Proof.
  exists (tip s). split; [apply getMaxBlockHeight_tip|].
  split; [apply tip_nonneg|]. split; [apply tip_upper|].
  split; [apply tip_attained|].
  intros E. destruct (tip_attained s) as [H | [u [Hu _]]]; [exact H|].
  rewrite E in Hu. destruct Hu.
Qed.

Lemma rows_filter (p : UTXO -> bool) (m : JSMap.t UTXO) :
  JSMap.values (filter (fun e => p (snd e)) m) = filter p (JSMap.values m).
Proof.
  unfold JSMap.values. induction m as [|e m IH]; simpl; [reflexivity|].
  destruct (p (snd e)); simpl; rewrite IH; reflexivity.
Qed.

(** X6.  On a store whose keys are distinct,
    [deleteUTXOsByBlockHeight h] succeeds and removes exactly the rows
    whose height is above [h], which are the rows
    [findUTXOsByBlockHeight h] answers: the other rows stay, in their
    order, the counter is not touched, and afterwards
    [findUTXOsByBlockHeight h] finds nothing. *)
Theorem delete_above (h : Z) (s : InMemory.Store) :
  distinctKeys s ->
  fst (deleteUTXOsByBlockHeight h s) = ok tt
  /\ fst (findUTXOsByBlockHeight h s)
     = ok (filter (fun u => blockHeight u >? h) (rows s))
  /\ rows (snd (deleteUTXOsByBlockHeight h s))
     = filter (fun u => negb (blockHeight u >? h)) (rows s)
  /\ fst (findUTXOsByBlockHeight h (snd (deleteUTXOsByBlockHeight h s)))
     = ok []
  /\ InMemory.nextId (snd (deleteUTXOsByBlockHeight h s)) = InMemory.nextId s.
Proof.
  intros D. rewrite (deleteUTXOsByBlockHeight_filter h s D).
  cbn [fst snd InMemory.nextId].
  split; [reflexivity|]. split.
  - rewrite findUTXOsByBlockHeight_above. reflexivity.
  - assert (R : rows (InMemory.mkStore
                        (filter (fun e => negb (isAbove h e)) (InMemory.utxos s))
                        (InMemory.nextId s))
                = filter (fun u => negb (blockHeight u >? h)) (rows s)).
    { unfold rows. cbn [InMemory.utxos].
      apply (rows_filter (fun u => negb (blockHeight u >? h))). }
    split; [exact R|]. split; [|reflexivity].
    rewrite findUTXOsByBlockHeight_above. cbn [fst]. f_equal.
    unfold above. rewrite R. clear R.
    induction (rows s) as [|u l IH]; simpl; [reflexivity|].
    destruct (blockHeight u >? h) eqn:E; simpl; [exact IH|].
    rewrite E. exact IH.
Qed.

Lemma delete_above_witness :
  rows (snd (deleteUTXOsByBlockHeight
               1 (storeAfter [readmeBlock1; readmeBlock2])))
  = filter (fun u => negb (blockHeight u >? 1))
           (rows (storeAfter [readmeBlock1; readmeBlock2])).
Proof.
  apply (proj1 (proj2 (proj2
           (delete_above 1 (storeAfter [readmeBlock1; readmeBlock2])
              ltac:(apply distinctb_NoDup; vm_compute; reflexivity))))).
Defined.

(** * Clearing spend marks *)

Lemma get_map_unmark (ids : list JSString) (m : JSMap.t UTXO) (k : JSString) :
  JSMap.get (map (unmarkEntry ids) m) k
  = match JSMap.get m k with
    | Some u => Some (if spentBy ids u then InMemory.withUnspent u else u)
    | None => None
    end.
Proof.
  induction m as [|[k' u'] m IH]; [reflexivity|].
  cbn [map]. unfold unmarkEntry at 1. cbn [fst snd].
  destruct (spentBy ids u') eqn:Sb; cbn [JSMap.get];
    destruct (JSString_eqb k' k); try exact IH; rewrite ?Sb; reflexivity.
Qed.

Lemma spentBy_true (ids : list JSString) (u : UTXO) :
  spentBy ids u = true
  <-> spent u = true
      /\ exists x, spentTxid u = Some x /\ x <> [] /\ In x ids.
Proof.
  unfold spentBy. rewrite !andb_true_iff. split.
  - intros [[Hs Ht] Hh]. split; [exact Hs|].
    destruct (spentTxid u) as [x|]; [|discriminate].
    exists x. split; [reflexivity|]. split.
    + intros ->. discriminate.
    + rewrite has_ofArray in Hh. apply existsb_exists in Hh.
      destruct Hh as [y [Hy E]]. apply JSString_eqb_eq in E. subst. exact Hy.
  - intros [Hs [x [Ex [Nx Hin]]]]. rewrite Ex. split; [split|].
    + exact Hs.
    + destruct x; [contradiction | reflexivity].
    + rewrite has_ofArray. apply existsb_exists. exists x.
      split; [exact Hin | apply JSString_eqb_refl].
Qed.

(** X7.  On a store whose keys are distinct, [unmarkAsSpent] succeeds
    and keeps the keys and the counter.  It clears the mark of every
    spent row whose spender is one of the given identifiers and is not
    the empty string, and changes no other row: a row that is unspent,
    or whose spender is not among the identifiers, or whose spender is
    the empty string, stays as it is. *)
Theorem unmark_effect (ids : list JSString) (s : InMemory.Store) :
  distinctKeys s ->
  fst (unmarkAsSpent ids s) = ok tt
  /\ map fst (InMemory.utxos (snd (unmarkAsSpent ids s)))
     = map fst (InMemory.utxos s)
  /\ InMemory.nextId (snd (unmarkAsSpent ids s)) = InMemory.nextId s
  /\ forall k u,
       JSMap.get (InMemory.utxos s) k = Some u ->
       (forall x, spent u = true -> spentTxid u = Some x -> x <> [] ->
                  In x ids ->
                  JSMap.get (InMemory.utxos (snd (unmarkAsSpent ids s))) k
                  = Some (InMemory.withUnspent u))
       /\ (spent u = false \/ spentTxid u = None \/ spentTxid u = Some []
           \/ (forall x, spentTxid u = Some x -> ~ In x ids) ->
           JSMap.get (InMemory.utxos (snd (unmarkAsSpent ids s))) k = Some u).
Proof.
  intros D. rewrite (unmarkAsSpent_map ids s D).
  cbn [fst snd InMemory.utxos InMemory.nextId].
  split; [reflexivity|]. split; [apply unmark_keys|]. split; [reflexivity|].
  intros k u G. rewrite get_map_unmark, G. split.
  - intros x Hs Ex Nx Hin.
    replace (spentBy ids u) with true; [reflexivity|].
    symmetry. apply spentBy_true. split; [exact Hs|].
    exists x. auto.
  - intros H. destruct (spentBy ids u) eqn:E; [|reflexivity].
    exfalso. apply spentBy_true in E.
    destruct E as [Hs [x [Ex [Nx Hin]]]].
    destruct H as [H | [H | [H | H]]].
    + congruence.
    + congruence.
    + rewrite Ex in H. inversion H. contradiction.
    + exact (H x Ex Hin).
Qed.

Lemma unmark_effect_witness :
  fst (unmarkAsSpent [padTxId (js "tx2")]
                     (storeAfter [readmeBlock1; readmeBlock2])) = ok tt.
Proof.
  apply (proj1 (unmark_effect [padTxId (js "tx2")]
                  (storeAfter [readmeBlock1; readmeBlock2])
                  ltac:(apply distinctb_NoDup; vm_compute; reflexivity))).
Defined.

Lemma unmark_untouched (ids : list JSString) (m : JSMap.t UTXO) :
  Forall (fun e => spentBy ids (snd e) = false) m ->
  map (unmarkEntry ids) m = m.
Proof.
  induction 1 as [|e m He _ IH]; simpl; [reflexivity|].
  unfold unmarkEntry at 1. rewrite He, IH. reflexivity.
Qed.

(** X8.  Marking and unmarking are inverse to each other: when an unspent
    row carries no spend mark, the spender [x] is not the empty string, and
    no row of the store is already spent by [x], then marking the row
    spent by [x] and calling [unmarkAsSpent [x]] gives back the store as it
    was. *)
Theorem unmark_undoes_mark (t : JSString) (v : Z) (x : JSString)
        (s : InMemory.Store) (u : UTXO) :
  distinctKeys s ->
  x <> [] ->
  fst (findByTxIdsAndVouts [mkRef t v] s) = ok [u] ->
  spentTxid u = None -> spentAt u = None ->
  (forall w, In w (rows s) -> spent w = true -> spentTxid w <> Some x) ->
  fst (markAsSpent t v x s) = ok tt
  /\ unmarkAsSpent [x] (snd (markAsSpent t v x s)) = (ok tt, s).
Proof.
  intros D Nx E Ht Ha Others. apply find_one_some in E.
  destruct (markAsSpent_some t v x s u E) as [M [G Hs]].
  rewrite M. cbn [fst snd]. split; [reflexivity|].
  rewrite unmarkAsSpent_map.
  2:{ unfold distinctKeys. cbn [InMemory.utxos].
      rewrite (keys_set_present _ _ u) by exact G. exact D. }
  cbn [InMemory.utxos InMemory.nextId]. destruct s as [m n].
  cbn [InMemory.utxos InMemory.nextId] in *. f_equal. f_equal.
  destruct (get_split m _ u G) as [pre [suf [Em Hpre]]]. subst m.
  rewrite set_here by exact Hpre.
  assert (Q : forall e, In e (pre ++ (InMemory.getKey t v, u) :: suf) ->
                        spentBy [x] (snd e) = false).
  { intros e He. destruct (spentBy [x] (snd e)) eqn:Sb; [|reflexivity].
    exfalso. apply spentBy_true in Sb.
    destruct Sb as [Hse [y [Ey [_ [Hy | []]]]]]. subst y.
    apply (Others (snd e)); [|exact Hse | exact Ey].
    unfold rows, JSMap.values. cbn [InMemory.utxos].
    apply in_map. exact He. }
  rewrite map_app. cbn [map].
  rewrite (unmark_untouched [x] pre).
  2:{ apply Forall_forall. intros e He. apply Q, in_or_app. left. exact He. }
  rewrite (unmark_untouched [x] suf).
  2:{ apply Forall_forall. intros e He. apply Q, in_or_app. right. right.
      exact He. }
  f_equal. f_equal. unfold unmarkEntry. cbn [fst snd].
  replace (spentBy [x] (InMemory.withSpent u x)) with true.
  - f_equal. destruct u. cbn in *. subst. reflexivity.
  - symmetry. apply spentBy_true. split; [reflexivity|].
    exists x. split; [reflexivity|]. split; [exact Nx|]. left. reflexivity.
Qed.

Lemma unmark_undoes_mark_witness :
  unmarkAsSpent [js "tx10"]
    (snd (markAsSpent (js "tx9") 0 (js "tx10")
            (snd (insert (mkNewUTXO (js "tx9") 0 (js "addr9") 7 [] 1
                                    (Some false))
                         InMemory.empty))))
  = (ok tt,
     snd (insert (mkNewUTXO (js "tx9") 0 (js "addr9") 7 [] 1 (Some false))
                 InMemory.empty)).
Proof.
  apply (proj2 (unmark_undoes_mark
                  (js "tx9") 0 (js "tx10")
                  (snd (insert (mkNewUTXO (js "tx9") 0 (js "addr9") 7 [] 1
                                          (Some false))
                               InMemory.empty))
                  (stored (mkNewUTXO (js "tx9") 0 (js "addr9") 7 [] 1
                                     (Some false)) 1)
                  ltac:(apply distinctb_NoDup; vm_compute; reflexivity)
                  ltac:(discriminate)
                  ltac:(vm_compute; reflexivity)
                  ltac:(reflexivity)
                  ltac:(reflexivity)
                  ltac:(intros w [<- | []]; discriminate))).
Defined.

(** * What holds of every row, in every store requests build *)

Section RowInvariant.
Variable P : UTXO -> Prop.
Hypothesis P_spent : forall u x, P u -> P (InMemory.withSpent u x).
Hypothesis P_unspent : forall u, P u -> P (InMemory.withUnspent u).

Lemma markAsSpent_allRows (t : JSString) (v : Z) (x : JSString)
      (s s' : InMemory.Store) :
  allRows P s -> markAsSpent t v x s = (ok tt, s') -> allRows P s'.
Proof.
  intros A. cbn [markAsSpent InMemoryUTXORepository].
  unfold InMemory.markAsSpent.
  destruct (JSMap.get (InMemory.utxos s) (InMemory.getKey t v)) as [u|] eqn:G;
    [|discriminate].
  destruct (spent u); [discriminate|].
  intros E; inversion E; subst. unfold allRows. cbn [InMemory.utxos].
  apply set_Forall; [exact A|]. cbn [snd]. apply P_spent.
  apply get_In in G. unfold allRows in A. rewrite Forall_forall in A.
  exact (A _ G).
Qed.

Lemma spendInputs_allRows (x : JSString) (ins : list Input)
      (s s' : InMemory.Store) :
  allRows P s -> spendInputs x ins s = (ok tt, s') -> allRows P s'.
Proof.
  revert s; induction ins as [|i ins IH]; intros s A; cbn [spendInputs].
  - intros E; inversion E; subst; exact A.
  - destruct (isCoinbaseInput (txId i)); [apply IH, A|].
    destruct (markAsSpent (txId i) (index i) x s) as [[[]|e] s1] eqn:M;
      [|discriminate].
    apply IH. eapply markAsSpent_allRows; eauto.
Qed.

Lemma createOutputs_allRows (x : JSString) (h : Z) (outs : list Output)
      (i : nat) (s s' : InMemory.Store) :
  (forall n j o, P (mkUTXO n x j (address o) (value o) [] h false None None
                           now)) ->
  allRows P s -> createOutputs x h i outs s = (ok tt, s') -> allRows P s'.
Proof.
  intros New. revert i s; induction outs as [|o outs IH]; intros i s A;
    cbn [createOutputs].
  - intros E; inversion E; subst; exact A.
  - cbn [insert InMemoryUTXORepository]. unfold InMemory.insert.
    cbn [new_txid new_vout new_address new_value new_scriptPubkey
         new_blockHeight new_spent].
    apply IH. unfold allRows. cbn [InMemory.utxos].
    apply set_Forall; [exact A | apply New].
Qed.

Lemma processTransactions_allRows (h : Z) (txs : list Transaction)
      (s s' : InMemory.Store) :
  (forall n x j o, P (mkUTXO n x j (address o) (value o) [] h false None None
                             now)) ->
  allRows P s -> processTransactions h txs s = (ok tt, s') -> allRows P s'.
Proof.
  intros New. revert s; induction txs as [|tx txs IH]; intros s A;
    cbn [processTransactions].
  - intros E; inversion E; subst; exact A.
  - unfold processTransaction.
    destruct (spendInputs (tx_id tx) (inputs tx) s) as [[[]|e] s1] eqn:S1;
      [|discriminate].
    destruct (createOutputs (tx_id tx) h 0 (outputs tx) s1) as [[[]|e] s2] eqn:C;
      [|discriminate].
    apply IH. eapply createOutputs_allRows; [intros; apply New | | exact C].
    eapply spendInputs_allRows; eauto.
Qed.

Lemma rolledBack_allRows (t : Z) (m : JSMap.t UTXO) :
  Forall (fun e => P (snd e)) m -> Forall (fun e => P (snd e)) (rolledBack t m).
Proof.
  intros A. unfold rolledBack. apply Forall_forall. intros e He.
  apply filter_In in He. destruct He as [He _].
  apply in_map_iff in He. destruct He as [e0 [<- He0]].
  rewrite Forall_forall in A. specialize (A e0 He0).
  unfold unmarkEntry. destruct (spentBy _ (snd e0)); cbn [snd]; auto.
Qed.

Lemma reached_allRows :
  (forall n x j o h, 1 <= h ->
     P (mkUTXO n x j (address o) (value o) [] h false None None now)) ->
  forall s, reached s -> allRows P s.
Proof.
  intros New s R. induction R as [|r s s' R IH Hs]; [constructor|].
  destruct r as [b | t]; cbn [handle] in Hs.
  - apply processBlock_ok_inv in Hs. destruct Hs as [Hh [_ [_ Pt]]].
    eapply processTransactions_allRows; [|exact IH | exact Pt].
    intros. apply New. pose proof (tip_nonneg s). lia.
  - pose proof (rollbackToHeight_ok_inv _ _ _ Hs) as [Ht Ha].
    rewrite (rollbackToHeight_ok t s) in Hs;
      [|apply reached_wf, R | exact Ht | exact Ha].
    inversion Hs; subst. unfold allRows. cbn [InMemory.utxos].
    apply rolledBack_allRows, IH.
Qed.
End RowInvariant.

Lemma rowAsWritten_reached (s : InMemory.Store) :
  reached s -> allRows rowAsWritten s.
Proof.
  apply reached_allRows.
  - intros u x [H [Sp M]]. split; [exact H|]. split; [exact Sp|].
    unfold marksAgree, InMemory.withSpent. cbn.
    split; split; intros _; [discriminate | reflexivity | discriminate
                             | reflexivity].
  - intros u [H [Sp M]]. split; [exact H|]. split; [exact Sp|].
    unfold marksAgree, InMemory.withUnspent. cbn.
    split; split; intros X; try discriminate; exfalso; apply X; reflexivity.
  - intros n x j o h Hh. split; [exact Hh|]. split; [reflexivity|].
    unfold marksAgree. cbn.
    split; split; intros X; try discriminate; exfalso; apply X; reflexivity.
Qed.

(** X9.  In every store reached from the empty one by accepted blocks and
    successful rollbacks, no two rows have the same [txid] and [vout], and
    every row is the one the store holds for its own reference. *)
Theorem reference_unique (s : InMemory.Store) :
  reached s ->
  NoDup (map (fun u => (txid u, vout u)) (rows s))
  /\ forall u, In u (rows s) ->
               JSMap.get (InMemory.utxos s) (InMemory.getKey (txid u) (vout u))
               = Some u.
Proof.
  intros R. destruct (reached_wf s R) as [D K]. split.
  - unfold distinctKeys in D. unfold keyed in K.
    assert (E : map fst (InMemory.utxos s)
                = map (fun p => InMemory.getKey (fst p) (snd p))
                      (map (fun u => (txid u, vout u)) (rows s))).
    { unfold rows, JSMap.values. rewrite !map_map.
      apply map_ext_in. intros e He. rewrite Forall_forall in K.
      exact (K e He). }
    rewrite E in D. eapply NoDup_map_inv, D.
  - intros u Hu. unfold rows, JSMap.values in Hu. apply in_map_iff in Hu.
    destruct Hu as [[k u'] [Eu He]]. cbn in Eu. subst u'.
    apply get_of_In; [exact D|].
    unfold keyed in K. rewrite Forall_forall in K.
    specialize (K _ He). cbn in K. rewrite <- K. exact He.
Qed.

Lemma reached_readme2 : reached (storeAfter [readmeBlock1; readmeBlock2]).
Proof.
  apply (reached_step (Ingest readmeBlock2) (storeAfter [readmeBlock1])).
  - apply (reached_step (Ingest readmeBlock1) InMemory.empty).
    + apply reached_empty.
    + vm_compute. reflexivity.
  - vm_compute. reflexivity.
Qed.

Lemma reference_unique_witness :
  NoDup (map (fun u => (txid u, vout u))
             (rows (storeAfter [readmeBlock1; readmeBlock2]))).
Proof.
  apply (proj1 (reference_unique (storeAfter [readmeBlock1; readmeBlock2])
                                 reached_readme2)).
Defined.

(** X10.  In every store reached from the empty one by accepted blocks
    and successful rollbacks, every row has a height between 1 and the
    tip, an empty [scriptPubkey], and spend marks that agree with its
    flag: it has a spender and a time of spending exactly when it is
    spent. *)
Theorem rows_as_written (s : InMemory.Store) (u : UTXO) :
  reached s -> In u (rows s) ->
  1 <= blockHeight u <= tip s
  /\ scriptPubkey u = []
  /\ (spent u = true <-> spentTxid u <> None)
  /\ (spent u = true <-> spentAt u <> None).
Proof.
  intros R Hu. pose proof (rowAsWritten_reached s R) as A.
  unfold allRows in A. rewrite Forall_forall in A.
  unfold rows, JSMap.values in Hu. apply in_map_iff in Hu.
  destruct Hu as [e [<- He]]. destruct (A e He) as [H [Sp [M1 M2]]].
  split; [split; [exact H|]|].
  - apply tip_upper. unfold rows, JSMap.values. apply in_map. exact He.
  - split; [exact Sp|]. split; assumption.
Qed.

Lemma rows_as_written_witness :
  Forall (fun u => 1 <= blockHeight u
                   <= tip (storeAfter [readmeBlock1; readmeBlock2]))
         (rows (storeAfter [readmeBlock1; readmeBlock2])).
Proof.
  apply Forall_forall. intros u Hu.
  apply (proj1 (rows_as_written (storeAfter [readmeBlock1; readmeBlock2]) u
                                reached_readme2 Hu)).
Defined.

(** * Balances across a block *)

Lemma countsAt_worth (p : JSString -> bool) (s : InMemory.Store)
      (t : JSString) (v : Z) :
  countsAt p (InMemory.utxos s) (InMemory.getKey t v) = worth p s t v.
Proof.
  unfold countsAt, worth, lookupUnspent, counts.
  destruct (JSMap.get (InMemory.utxos s) (InMemory.getKey t v)) as [u|];
    [|reflexivity].
  destruct (spent u); cbn [negb];
    [rewrite andb_false_r | rewrite andb_true_r]; reflexivity.
Qed.

Lemma lookupUnspent_set (m : JSMap.t UTXO) (n n' : Z) (k : JSString)
      (w : UTXO) (t : JSString) (v : Z) :
  lookupUnspent (InMemory.mkStore (JSMap.set m k w) n') t v
  = if JSString_eqb k (InMemory.getKey t v)
    then (if spent w then None else Some w)
    else lookupUnspent (InMemory.mkStore m n) t v.
Proof.
  destruct (JSString_eqb k (InMemory.getKey t v)) eqn:E.
  - apply JSString_eqb_eq in E. subst k. unfold lookupUnspent.
    cbn [InMemory.utxos]. rewrite get_set_same. reflexivity.
  - apply JSString_eqb_neq in E. apply lookupUnspent_set_other, E.
Qed.

(** One mark: the value it takes away, and the references afterwards. *)
Lemma markAsSpent_value (p : JSString -> bool) (t : JSString) (v : Z)
      (x : JSString) (s s' : InMemory.Store) :
  markAsSpent t v x s = (ok tt, s') ->
  lookupUnspent s t v <> None
  /\ unspentValue p (InMemory.utxos s')
     = unspentValue p (InMemory.utxos s) - worth p s t v
  /\ map fst (InMemory.utxos s') = map fst (InMemory.utxos s)
  /\ forall t' v',
       lookupUnspent s' t' v'
       = if JSString_eqb (InMemory.getKey t v) (InMemory.getKey t' v')
         then None else lookupUnspent s t' v'.
Proof.
  intros M. destruct (lookupUnspent s t v) as [u|] eqn:L.
  - destruct (markAsSpent_some t v x s u L) as [M' [G Hs]].
    rewrite M' in M. inversion M; subst s'. clear M.
    cbn [InMemory.utxos]. split; [discriminate|]. split.
    + rewrite unspentValue_set, counts_withSpent, countsAt_worth.
      unfold worth at 1. rewrite L. unfold worth. rewrite L. lia.
    + split; [eapply keys_set_present, G|].
      intros t' v'. destruct s as [m n]. cbn [InMemory.utxos InMemory.nextId].
      rewrite (lookupUnspent_set m n). reflexivity.
  - rewrite (markAsSpent_none t v x s L) in M. discriminate.
Qed.

Lemma spendInputs_value (p : JSString -> bool) (x : JSString)
      (ins : list Input) (s s' : InMemory.Store) :
  spendInputs x ins s = (ok tt, s') ->
  unspentValue p (InMemory.utxos s')
  = unspentValue p (InMemory.utxos s) - sumZ (map (debitOf p s) ins)
  /\ map fst (InMemory.utxos s') = map fst (InMemory.utxos s)
  /\ (forall i, In i ins -> isCoinbaseInput (txId i) = false ->
                lookupUnspent s (txId i) (index i) <> None)
  /\ (forall t v, lookupUnspent s' t v = None
                  \/ lookupUnspent s' t v = lookupUnspent s t v).
Proof.
  revert s; induction ins as [|i ins IH]; intros s; cbn [spendInputs].
  - intros E; inversion E; subst. cbn. split; [lia|]. split; [reflexivity|].
    split; [intros i []|]. intros; right; reflexivity.
  - destruct (isCoinbaseInput (txId i)) eqn:Cb.
    + intros S. destruct (IH s S) as [V [K [Rs L]]].
      split; [|split; [exact K|split; [|exact L]]].
      * cbn [map sumZ fold_right]. unfold debitOf at 1. rewrite Cb.
        unfold sumZ in V. lia.
      * intros j [<- | Hj] Hc; [congruence | exact (Rs j Hj Hc)].
    + destruct (markAsSpent (txId i) (index i) x s) as [[[]|e] s1] eqn:M;
        [|discriminate].
      intros S. destruct (IH s1 S) as [V [K [Rs L]]].
      destruct (markAsSpent_value p _ _ _ _ _ M) as [R0 [V0 [K0 L0]]].
      assert (Same : forall j, In j ins -> isCoinbaseInput (txId j) = false ->
                lookupUnspent s1 (txId j) (index j)
                = lookupUnspent s (txId j) (index j)).
      { intros j Hj Hc. specialize (Rs j Hj Hc). rewrite L0 in Rs |- *.
        destruct (JSString_eqb (InMemory.getKey (txId i) (index i))
                               (InMemory.getKey (txId j) (index j)));
          [exfalso; apply Rs; reflexivity | reflexivity]. }
      split; [|split; [congruence|split]].
      * cbn [map sumZ fold_right]. unfold debitOf at 1. rewrite Cb.
        rewrite V, V0.
        assert (Q : map (debitOf p s1) ins = map (debitOf p s) ins).
        { apply map_ext_in. intros j Hj. unfold debitOf, worth.
          destruct (isCoinbaseInput (txId j)) eqn:Cj; [reflexivity|].
          rewrite (Same j Hj Cj). reflexivity. }
        rewrite Q. unfold sumZ. lia.
      * intros j [<- | Hj] Hc; [exact R0|].
        rewrite <- (Same j Hj Hc). exact (Rs j Hj Hc).
      * intros t v. destruct (L t v) as [N | E]; [left; exact N|].
        rewrite E, L0.
        destruct (JSString_eqb (InMemory.getKey (txId i) (index i))
                               (InMemory.getKey t v)); auto.
Qed.

Lemma newEntries_value (p : JSString -> bool) (x : JSString) (h : Z)
      (outs : list Output) (i : nat) (n : Z) :
  unspentValue p (newEntries x h i outs n)
  = sumZ (map (fun o => if p (address o) then value o else 0) outs).
Proof.
  unfold unspentValue.
  revert i n; induction outs as [|o outs IH]; intros i n; cbn; [reflexivity|].
  unfold unspentValue in IH. unfold sumZ in *. rewrite IH.
  unfold counts. cbn. rewrite andb_true_r. reflexivity.
Qed.

Lemma get_app_old {V} (m new : JSMap.t V) (k : JSString) :
  In k (map fst m) -> JSMap.get (m ++ new) k = JSMap.get m k.
Proof.
  induction m as [|[k' v] m IH]; cbn; [intros []|].
  destruct (JSString_eqb k' k) eqn:E; [reflexivity|].
  intros [H | H]; [|apply IH, H].
  subst k'. rewrite JSString_eqb_refl in E. discriminate.
Qed.

Lemma lookupUnspent_in_keys (s : InMemory.Store) (t : JSString) (v : Z) :
  lookupUnspent s t v <> None ->
  In (InMemory.getKey t v) (map fst (InMemory.utxos s)).
Proof.
  unfold lookupUnspent.
  destruct (JSMap.get (InMemory.utxos s) (InMemory.getKey t v)) as [u|] eqn:G;
    [|intros N; exfalso; apply N; reflexivity].
  intros _. eapply get_Some_in_keys, G.
Qed.

(** One transaction whose keys are new to the store. *)
Lemma processTransaction_value (p : JSString -> bool) (h : Z)
      (tx : Transaction) (s s' : InMemory.Store) :
  NoDup (txKeys tx) ->
  (forall k, In k (txKeys tx) -> ~ In k (map fst (InMemory.utxos s))) ->
  processTransaction h tx s = (ok tt, s') ->
  unspentValue p (InMemory.utxos s')
  = unspentValue p (InMemory.utxos s) + credit p tx - debit p s tx
  /\ (forall i, In i (inputs tx) -> isCoinbaseInput (txId i) = false ->
                lookupUnspent s (txId i) (index i) <> None)
  /\ (forall t v, In (InMemory.getKey t v) (map fst (InMemory.utxos s)) ->
                  lookupUnspent s' t v = None
                  \/ lookupUnspent s' t v = lookupUnspent s t v).
Proof.
  intros ND Fr. unfold processTransaction.
  destruct (spendInputs (tx_id tx) (inputs tx) s) as [[[]|e] s1] eqn:S1;
    [|discriminate].
  destruct (spendInputs_value p _ _ _ _ S1) as [V [K [Rs L]]].
  intros C. rewrite createOutputs_shape in C.
  - inversion C; subst s'. clear C. cbn [InMemory.utxos].
    split; [|split; [exact Rs|]].
    + rewrite unspentValue_app, newEntries_value, V. unfold credit, debit. lia.
    + intros t v Hk.
      assert (Q : lookupUnspent
                    (InMemory.mkStore
                       (InMemory.utxos s1
                        ++ newEntries (tx_id tx) h 0 (outputs tx)
                                      (InMemory.nextId s1))
                       (InMemory.nextId s1 + Z.of_nat (length (outputs tx))))
                    t v
                  = lookupUnspent s1 t v).
      { unfold lookupUnspent. cbn [InMemory.utxos].
        rewrite get_app_old by (rewrite K; exact Hk). reflexivity. }
      rewrite Q. exact (L t v).
  - exact ND.
  - intros j Hj. rewrite K. apply Fr. unfold txKeys.
    apply in_map_iff. exists j. split; [reflexivity | exact Hj].
Qed.

(** * Balances across a block: the whole list of transactions *)

Lemma freshFor_step (h : Z) (tx : Transaction) (txs : list Transaction)
      (s s1 : InMemory.Store) :
  wf s -> freshFor s (tx :: txs) ->
  processTransaction h tx s = (ok tt, s1) ->
  NoDup (txKeys tx)
  /\ (forall k, In k (txKeys tx) -> ~ In k (map fst (InMemory.utxos s)))
  /\ wf s1
  /\ map fst (InMemory.utxos s1) = map fst (InMemory.utxos s) ++ txKeys tx
  /\ freshFor s1 txs.
Proof.
  intros W [ND Hf] T. cbn [outputKeys flat_map] in ND, Hf.
  assert (ND1 : NoDup (txKeys tx)) by (apply NoDup_app_remove_r in ND; exact ND).
  assert (Hf1 : forall k, In k (txKeys tx) ->
                          ~ In k (map fst (InMemory.utxos s))).
  { intros k Hk. apply Hf, in_or_app. left. exact Hk. }
  destruct (processTransaction_wf _ _ _ _ W ND1 Hf1 T) as [W1 K1].
  split; [exact ND1|]. split; [exact Hf1|]. split; [exact W1|].
  split; [exact K1|]. split.
  - apply NoDup_app_remove_l in ND. exact ND.
  - intros k Hk. rewrite K1. intros F. apply in_app_or in F.
    destruct F as [F | F].
    + apply (Hf k); [apply in_or_app; right; exact Hk | exact F].
    + clear - ND F Hk. induction (txKeys tx) as [|a l IHl]; [destruct F|].
      cbn in ND. inversion ND as [|? ? Hn ND']; subst.
      destruct F as [-> | F].
      * apply Hn, in_or_app. right. exact Hk.
      * apply IHl; assumption.
Qed.


(** The non-coinbase inputs of an accepted block are unspent rows of the
    store the block found. *)
Lemma accepted_inputs_resolve (b : Block) (s : InMemory.Store) :
  keyed s ->
  fst (validateInputOutputSum b s) = ok tt ->
  forall tx i, In tx (transactions b) -> In i (inputs tx) ->
               isCoinbaseInput (txId i) = false ->
               hasCoinbaseInputs tx = false
               /\ Forall (resolves s) (inputs tx)
               /\ sumInputValues s (inputs tx) = sumOutputs (outputs tx).
Proof.
  intros K V tx i Ht Hi Cb.
  destruct (validateInputOutputSum_spec b s K) as [[_ Ok] | [Bad _]];
    [|rewrite V in Bad; discriminate].
  specialize (Ok tx Ht).
  assert (Hr : hasRegularInputs tx = true).
  { unfold hasRegularInputs. apply existsb_exists. exists i.
    split; [exact Hi | rewrite Cb; reflexivity]. }
  assert (Hc : hasCoinbaseInputs tx = false).
  { destruct (hasCoinbaseInputs tx) eqn:E; [|reflexivity].
    exfalso. apply Ok. left. split; assumption. }
  split; [exact Hc|].
  assert (Ne : inputs tx <> []) by (intros E; rewrite E in Hi; destruct Hi).
  assert (All : Forall (resolves s) (inputs tx)).
  { apply Forall_forall. intros j Hj. unfold resolves.
    destruct (lookupUnspent s (txId j) (index j)) eqn:L; [discriminate|].
    exfalso. apply Ok. right; right. split; [exact Hc|].
    split; [exact Ne|]. left. exists j. split; [exact Hj|].
    unfold resolves. rewrite L. intros N; apply N; reflexivity. }
  split; [exact All|].
  destruct (Z.eq_dec (sumInputValues s (inputs tx)) (sumOutputs (outputs tx)))
    as [E | N]; [exact E|].
  exfalso. apply Ok. right; right. split; [exact Hc|].
  split; [exact Ne|]. right. exact N.
Qed.




(** * The value in circulation *)









(** * A block cannot be replayed; a failed block may be half applied *)

Lemma set_keeps_some {V} (Q : V -> Prop) (m : JSMap.t V) (k : JSString)
      (v : V) :
  (exists e, In e m /\ Q (snd e)) ->
  (forall v0, JSMap.get m k = Some v0 -> Q v0 -> Q v) ->
  exists e, In e (JSMap.set m k v) /\ Q (snd e).
Proof.
  induction m as [|[k' v'] m IH]; intros [e [He Qe]] Rep; [destruct He|].
  cbn [JSMap.set]. cbn [JSMap.get] in Rep.
  destruct (JSString_eqb k' k) eqn:E.
  - destruct He as [<- | He].
    + exists (k', v). split; [left; reflexivity|]. apply (Rep v'); auto.
    + exists e. split; [right; exact He | exact Qe].
  - destruct He as [<- | He].
    + exists (k', v'). split; [left; reflexivity | exact Qe].
    + destruct IH as [e' [He' Qe']]; [exists e; auto | exact Rep|].
      exists e'. split; [right; exact He' | exact Qe'].
Qed.

Lemma set_brings {V} (m : JSMap.t V) (k : JSString) (v : V) :
  exists k', In (k', v) (JSMap.set m k v).
Proof.
  induction m as [|[k0 v0] m IH]; cbn [JSMap.set].
  - exists k. left. reflexivity.
  - destruct (JSString_eqb k0 k).
    + exists k0. left. reflexivity.
    + destruct IH as [k' H]. exists k'. right. exact H.
Qed.

Lemma heightPresent_entries (s : InMemory.Store) (h : Z) :
  heightPresent s h
  <-> exists e, In e (InMemory.utxos s) /\ blockHeight (snd e) = h.
Proof.
  unfold heightPresent, rows, JSMap.values. split.
  - intros [u [Hu E]]. apply in_map_iff in Hu. destruct Hu as [e [<- He]].
    exists e. auto.
  - intros [e [He E]]. exists (snd e). split; [apply in_map, He | exact E].
Qed.

Lemma spendInputs_keeps_height (x : JSString) (ins : list Input) (h : Z)
      (s s' : InMemory.Store) :
  heightPresent s h -> spendInputs x ins s = (ok tt, s') -> heightPresent s' h.
Proof.
  revert s; induction ins as [|i ins IH]; intros s Hp; cbn [spendInputs].
  - intros E; inversion E; subst; exact Hp.
  - destruct (isCoinbaseInput (txId i)); [apply IH, Hp|].
    destruct (markAsSpent (txId i) (index i) x s) as [[[]|e] s1] eqn:M;
      [|discriminate].
    apply IH. destruct (lookupUnspent s (txId i) (index i)) as [u|] eqn:L.
    + destruct (markAsSpent_some _ _ x s u L) as [M' [G _]].
      rewrite M' in M. inversion M; subst s1.
      apply heightPresent_entries. cbn [InMemory.utxos].
      apply (set_keeps_some (fun w => blockHeight w = h));
        [apply heightPresent_entries, Hp|].
      intros v0 G0 Hv. rewrite G in G0. injection G0 as G0.
      rewrite G0. exact Hv.
    + rewrite (markAsSpent_none _ _ x s L) in M. discriminate.
Qed.

Lemma createOutputs_keeps_height (x : JSString) (h : Z) (outs : list Output)
      (i : nat) (s s' : InMemory.Store) :
  heightPresent s h \/ outs <> [] ->
  createOutputs x h i outs s = (ok tt, s') -> heightPresent s' h.
Proof.
  revert i s; induction outs as [|o outs IH]; intros i s Hp;
    cbn [createOutputs].
  - intros E; inversion E; subst. destruct Hp as [Hp | N];
      [exact Hp | exfalso; apply N; reflexivity].
  - cbn [insert InMemoryUTXORepository]. unfold InMemory.insert.
    cbn [new_txid new_vout new_address new_value new_scriptPubkey
         new_blockHeight new_spent].
    apply IH. left. apply heightPresent_entries. cbn [InMemory.utxos].
    match goal with
    | |- exists e, In e (JSMap.set ?m ?k ?v) /\ _ =>
        destruct (set_brings m k v) as [k' Hk]; exists (k', v)
    end.
    split; [exact Hk | reflexivity].
Qed.

Lemma processTransactions_reaches_height (h : Z) (txs : list Transaction)
      (s s' : InMemory.Store) :
  heightPresent s h \/ (exists tx, In tx txs /\ outputs tx <> []) ->
  processTransactions h txs s = (ok tt, s') -> heightPresent s' h.
Proof.
  revert s; induction txs as [|tx txs IH]; intros s Hp;
    cbn [processTransactions].
  - intros E; inversion E; subst. destruct Hp as [Hp | [tx [[] _]]]. exact Hp.
  - unfold processTransaction.
    destruct (spendInputs (tx_id tx) (inputs tx) s) as [[[]|e] s1] eqn:S1;
      [|discriminate].
    destruct (createOutputs (tx_id tx) h 0 (outputs tx) s1) as [[[]|e] s2] eqn:C;
      [|discriminate].
    apply IH.
    destruct Hp as [Hp | [tx' [[<- | Ht] No]]].
    + left. eapply createOutputs_keeps_height; [left|exact C].
      eapply spendInputs_keeps_height; eauto.
    + left. eapply createOutputs_keeps_height; [right; exact No | exact C].
    + right. exists tx'. auto.
Qed.

Lemma accepted_block_tip (b : Block) (s s' : InMemory.Store) :
  processBlock b s = (ok tt, s') -> createsOutput b -> tip s' = height b.
Proof.
  intros Pb Co. apply processBlock_ok_inv in Pb.
  destruct Pb as [Hh [_ [_ Pt]]].
  pose proof (tip_nonneg s) as T0.
  assert (Hp : heightPresent s' (height b)).
  { eapply processTransactions_reaches_height; [right; exact Co | exact Pt]. }
  assert (Up : allRows (fun u => blockHeight u <= height b) s').
  { eapply (processTransactions_allRows (fun u => blockHeight u <= height b));
      [| | |exact Pt].
    - intros u x H. exact H.
    - intros n x j o. cbn. lia.
    - unfold allRows. apply Forall_forall. intros e He.
      assert (blockHeight (snd e) <= tip s); [|lia].
      apply tip_upper. unfold rows, JSMap.values. apply in_map. exact He. }
  destruct Hp as [u [Hu Eu]]. pose proof (tip_upper s' u Hu) as Lo.
  destruct (tip_attained s') as [Z0 | [w [Hw Ew]]]; [lia|].
  unfold allRows in Up. rewrite Forall_forall in Up.
  unfold rows, JSMap.values in Hw. apply in_map_iff in Hw.
  destruct Hw as [e [<- He]]. specialize (Up e He). cbn in Up. lia.
Qed.

(** X13.  A block that has been accepted and has created at least one
    output cannot be accepted again: the tip is then the height of the
    block, and submitting the same block once more is refused with
    [InvalidBlockHeight] and changes nothing. *)
Theorem accepted_block_not_replayed (b : Block) (s s' : InMemory.Store) :
  processBlock b s = (ok tt, s') ->
  createsOutput b ->
  getMaxBlockHeight s' = (ok (height b), s')
  /\ processBlock b s'
     = (err (InvalidBlockHeightError 400 (Some (height b)) (Some (height b))),
        s').
Proof.
  intros Pb Co. pose proof (accepted_block_tip b s s' Pb Co) as T.
  split; [rewrite getMaxBlockHeight_tip, T; reflexivity|].
  rewrite processBlock_inmem, T.
  replace (height b =? height b + 1) with false; [reflexivity|].
  symmetry. apply Z.eqb_neq. lia.
Qed.

Lemma accepted_block_not_replayed_witness :
  processBlock readmeBlock1 (storeAfter [readmeBlock1])
  = (err (InvalidBlockHeightError 400 (Some (height readmeBlock1))
                                  (Some (height readmeBlock1))),
     storeAfter [readmeBlock1]).
Proof.
  apply (proj2 (accepted_block_not_replayed
                  readmeBlock1 InMemory.empty (storeAfter [readmeBlock1])
                  ltac:(vm_compute; reflexivity)
                  ltac:(eexists; split; [left; reflexivity | discriminate]))).
Defined.

(** * A failure in the apply phase; what a rollback leaves *)

(** X14.  The conservation check does not see that a transaction names
    the same output twice, and the apply phase does not undo what it has
    written when it fails.  When a block passes the three checks and the
    first two inputs of its first transaction are the same non-coinbase
    reference, [processBlock] fails with [UTXONotFound], status 404, and
    leaves the store with that output marked spent by the transaction. *)
Theorem double_input_half_applied (b : Block) (s : InMemory.Store)
        (tx : Transaction) (rest : list Transaction) (i : Input)
        (more : list Input) :
  keyed s ->
  height b = tip s + 1 ->
  fst (validateInputOutputSum b s) = ok tt ->
  id b = expectedHash b ->
  transactions b = tx :: rest ->
  inputs tx = i :: i :: more ->
  isCoinbaseInput (txId i) = false ->
  processBlock b s
  = (err (UTXONotFoundError 404),
     snd (markAsSpent (txId i) (index i) (tx_id tx) s))
  /\ (exists u,
        fst (findByTxIdsAndVouts [mkRef (txId i) (index i)] s) = ok [u]
        /\ JSMap.get
             (InMemory.utxos (snd (markAsSpent (txId i) (index i) (tx_id tx) s)))
             (InMemory.getKey (txId i) (index i))
           = Some (InMemory.withSpent u (tx_id tx)))
  /\ fst (findByTxIdsAndVouts
            [mkRef (txId i) (index i)]
            (snd (markAsSpent (txId i) (index i) (tx_id tx) s)))
     = ok [].
Proof.
  intros K Hh V Hid Et Ei Cb.
  assert (Hin : In tx (transactions b)) by (rewrite Et; left; reflexivity).
  assert (Hi : In i (inputs tx)) by (rewrite Ei; left; reflexivity).
  destruct (accepted_inputs_resolve b s K V tx i Hin Hi Cb) as [_ [All _]].
  rewrite Forall_forall in All. specialize (All i Hi). unfold resolves in All.
  destruct (lookupUnspent s (txId i) (index i)) as [u|] eqn:L;
    [clear All | exfalso; apply All; reflexivity].
  destruct (markAsSpent_some _ _ (tx_id tx) s u L) as [M [G Hs]].
  assert (L1 : lookupUnspent
                 (snd (markAsSpent (txId i) (index i) (tx_id tx) s))
                 (txId i) (index i) = None).
  { rewrite M. cbn [snd]. unfold lookupUnspent. cbn [InMemory.utxos].
    rewrite get_set_same. reflexivity. }
  split; [|split].
  - rewrite processBlock_inmem.
    replace (height b =? tip s + 1) with true by (symmetry; apply Z.eqb_eq, Hh).
    rewrite V.
    destruct (validateBlockId_spec b) as [[_ Ok] | [N _]];
      [rewrite Ok | contradiction].
    rewrite Et. cbn [processTransactions]. unfold processTransaction.
    rewrite Ei. cbn [spendInputs]. rewrite Cb.
    rewrite M in L1 |- *. cbn [snd] in L1 |- *.
    rewrite (markAsSpent_none _ _ (tx_id tx) _ L1). reflexivity.
  - exists u. split; [apply find_one_some, L|].
    rewrite M. cbn [snd InMemory.utxos]. apply get_set_same.
  - apply find_one_none, L1.
Qed.

Lemma double_input_half_applied_witness :
  processBlock doubleInputAt2 (storeAfter [readmeBlock1])
  = (err (UTXONotFoundError 404),
     snd (markAsSpent (padTxId (js "tx1")) 0 (padTxId (js "tx2"))
                      (storeAfter [readmeBlock1]))).
Proof.
  apply (proj1 (double_input_half_applied
                  doubleInputAt2 (storeAfter [readmeBlock1])
                  (mkTransaction (padTxId (js "tx2"))
                                 [mkInput (padTxId (js "tx1")) 0;
                                  mkInput (padTxId (js "tx1")) 0]
                                 [mkOutput (js "addr2") 20])
                  [] (mkInput (padTxId (js "tx1")) 0) []
                  ltac:(apply keyedb_keyed; vm_compute; reflexivity)
                  ltac:(vm_compute; reflexivity)
                  ltac:(vm_compute; reflexivity)
                  ltac:(vm_compute; reflexivity)
                  ltac:(reflexivity)
                  ltac:(reflexivity)
                  ltac:(vm_compute; reflexivity))).
Defined.

Lemma written_unmarkEntry (ids : list JSString) (e : JSString * UTXO) :
  written (snd (unmarkEntry ids e)) = written (snd e).
Proof.
  unfold unmarkEntry. destruct (spentBy ids (snd e)); reflexivity.
Qed.

Lemma rolledBack_written (t : Z) (m : JSMap.t UTXO) :
  map written (JSMap.values (rolledBack t m))
  = map written (filter (fun u => negb (blockHeight u >? t)) (JSMap.values m)).
Proof.
  unfold rolledBack.
  generalize (idsOf (filter (fun u => blockHeight u >? t) (JSMap.values m))).
  intros ids. unfold JSMap.values.
  induction m as [|e m IH]; [reflexivity|].
  cbn [map filter]. rewrite unmark_isAbove. unfold isAbove at 1.
  destruct (blockHeight (snd e) >? t); cbn [negb map]; [exact IH|].
  rewrite written_unmarkEntry, IH. reflexivity.
Qed.

(** X15.  On a store whose keys are distinct, a rollback that succeeds
    had a target from 0 to below the tip.  It leaves exactly the rows at
    or below the target, in their order and with everything but their
    spend marks as it was, and does not touch the counter; the tip is
    then at most the target, and the same rollback, asked again, fails
    and changes nothing. *)
Theorem rollback_effect (t : Z) (s s' : InMemory.Store) :
  distinctKeys s ->
  rollbackToHeight t s = (ok tt, s') ->
  0 <= t < tip s
  /\ map written (rows s')
     = map written (filter (fun u => negb (blockHeight u >? t)) (rows s))
  /\ InMemory.nextId s' = InMemory.nextId s
  /\ tip s' <= t
  /\ exists e, rollbackToHeight t s' = (err e, s').
Proof.
  intros D Rb. pose proof (rollbackToHeight_ok_inv _ _ _ Rb) as [Ht Ha].
  rewrite (rollbackToHeight_ok t s D Ht Ha) in Rb. inversion Rb; subst s'.
  clear Rb.
  assert (Lt : t < tip s).
  { destruct (Z.eq_dec t (tip s)) as [E | N]; [|lia].
    exfalso. apply Ha. rewrite E. apply above_tip_nil. }
  assert (W : map written
                  (rows (InMemory.mkStore (rolledBack t (InMemory.utxos s))
                                          (InMemory.nextId s)))
              = map written
                    (filter (fun u => negb (blockHeight u >? t)) (rows s))).
  { unfold rows. cbn [InMemory.utxos]. apply rolledBack_written. }
  assert (Low : forall u,
             In u (rows (InMemory.mkStore (rolledBack t (InMemory.utxos s))
                                          (InMemory.nextId s))) ->
             blockHeight u <= t).
  { intros u Hu. unfold rows in Hu. cbn [InMemory.utxos] in Hu.
    apply rolledBack_rows in Hu. apply Hu. }
  assert (T : tip (InMemory.mkStore (rolledBack t (InMemory.utxos s))
                                    (InMemory.nextId s)) <= t).
  { match goal with |- tip ?x <= _ =>
      destruct (tip_attained x) as [Z0 | [u [Hu Eu]]] end;
      [lia | rewrite <- Eu; apply Low, Hu]. }
  split; [lia|]. split; [exact W|]. split; [reflexivity|].
  split; [exact T|].
  match goal with |- exists e, rollbackToHeight t ?x = _ =>
    destruct (Z.eq_dec t (tip x)) as [E | N] end.
  - eexists. apply rollbackToHeight_nothing_above; [lia|].
    apply above_nil_iff. exact Low.
  - eexists. unfold rollbackToHeight, validateRollbackHeight.
    replace (t <? 0) with false by (symmetry; apply Z.ltb_ge; lia).
    rewrite getMaxBlockHeight_tip.
    match goal with |- context [t >? ?x] =>
      replace (t >? x) with true by (symmetry; apply Z.gtb_lt; lia) end.
    reflexivity.
Qed.

Lemma rollback_effect_witness :
  map written
      (rows (snd (rollbackToHeight 1 (storeAfter [readmeBlock1; readmeBlock2]))))
  = map written
        (filter (fun u => negb (blockHeight u >? 1))
                (rows (storeAfter [readmeBlock1; readmeBlock2]))).
Proof.
  apply (proj1 (proj2
           (rollback_effect
              1 (storeAfter [readmeBlock1; readmeBlock2])
              (snd (rollbackToHeight 1 (storeAfter [readmeBlock1; readmeBlock2])))
              ltac:(apply distinctb_NoDup; vm_compute; reflexivity)
              ltac:(vm_compute; reflexivity)))).
Defined.

(** X16.  In a store reached from the empty one by accepted blocks and
    successful rollbacks, a rollback to height 0 succeeds whenever the
    store holds a row and leaves no row at all, so that every balance is
    0 and the tip is 0 again; the counter of row identifiers is not
    rewound.  When the store holds no row, it fails with
    [NoBlocksToRollback]. *)
Theorem rollback_to_zero (s : InMemory.Store) :
  reached s ->
  (rows s <> [] ->
   rollbackToHeight 0 s = (ok tt, InMemory.mkStore [] (InMemory.nextId s))
   /\ forall a, getBalance a (InMemory.mkStore [] (InMemory.nextId s))
                = (ok 0, InMemory.mkStore [] (InMemory.nextId s)))
  /\ (rows s = [] ->
      rollbackToHeight 0 s = (err (NoBlocksToRollbackError 400 0 0), s)).
Proof.
  intros R. pose proof (rowAsWritten_reached s R) as A.
  unfold allRows in A. rewrite Forall_forall in A.
  assert (Hi : forall e, In e (InMemory.utxos s) -> isAbove 0 e = true).
  { intros e He. destruct (A e He) as [H _]. unfold isAbove.
    apply Z.gtb_lt. lia. }
  split.
  - intros Ne. split; [|intros a; reflexivity].
    assert (Ha : above 0 s <> []).
    { unfold above, rows, JSMap.values in *.
      destruct (InMemory.utxos s) as [|e m]; [exfalso; apply Ne; reflexivity|].
      cbn [map filter]. specialize (Hi e (or_introl eq_refl)).
      unfold isAbove in Hi. rewrite Hi. discriminate. }
    assert (T : 0 <= 0 <= tip s) by (pose proof (tip_nonneg s); lia).
    rewrite (rollbackToHeight_ok 0 s (proj1 (reached_wf s R)) T Ha).
    f_equal. f_equal. unfold rolledBack.
    generalize (idsOf (filter (fun u => blockHeight u >? 0)
                              (JSMap.values (InMemory.utxos s)))).
    intros ids. induction (InMemory.utxos s) as [|e m IH]; [reflexivity|].
    cbn [map filter]. rewrite unmark_isAbove, (Hi e) by (left; reflexivity).
    cbn [negb]. apply IH.
    + intros e' He'. apply A. right. exact He'.
    + intros e' He'. apply Hi. right. exact He'.
  - intros E.
    assert (T0 : tip s = 0).
    { destruct (tip_attained s) as [Z0 | [u [Hu _]]]; [exact Z0|].
      rewrite E in Hu. destruct Hu. }
    rewrite <- T0 at 3.
    apply rollbackToHeight_nothing_above; [lia|].
    unfold above. rewrite E. reflexivity.
Qed.

Lemma rollback_to_zero_witness :
  rollbackToHeight 0 (storeAfter [readmeBlock1; readmeBlock2])
  = (ok tt,
     InMemory.mkStore
       [] (InMemory.nextId (storeAfter [readmeBlock1; readmeBlock2]))).
Proof.
  apply (proj1 (proj1 (rollback_to_zero
                         (storeAfter [readmeBlock1; readmeBlock2])
                         reached_readme2)
                      ltac:(vm_compute; discriminate))).
Defined.

(** * The routes *)

(** X17.  The reply of the rollback route on the in-memory store, once
    the mutex is held, depends on the target and the tip alone.  A target
    below 0 or above the tip is answered with status 400 and the message of
    [InvalidRollbackHeight]; the tip itself with status 400 and a message
    that says that no blocks exist in the chain when the tip is 0, and
    that none exist above the height, naming it as current, when it is
    not; the store is not changed in these cases.  A target from 0 to
    below the tip is answered with status 200, on a store whose keys are
    distinct. *)
Theorem rollback_route_replies (t : Z) (s : InMemory.Store) :
  (t < 0 \/ tip s < t ->
   rollbackRoute t s = (mkReply 400 (Error (js "Invalid rollback height")), s))
  /\ (t = tip s -> tip s = 0 ->
      rollbackRoute t s
      = (mkReply 400
           (Error (js "Cannot rollback to height 0: no blocks exist in the chain.")),
         s))
  /\ (t = tip s -> tip s <> 0 ->
      rollbackRoute t s
      = (mkReply 400
           (Error (js "Cannot rollback to height " ++ numberToString t
                   ++ js ": no blocks exist above this height. Current height is "
                   ++ numberToString t ++ js ".")),
         s))
  /\ (0 <= t < tip s -> distinctKeys s ->
      rollbackRoute t s
      = (mkReply 200 Success, snd (rollbackToHeight t s))
      /\ fst (rollbackToHeight t s) = ok tt).
Proof.
  pose proof (tip_nonneg s) as T0.
  split; [|split; [|split]].
  - intros H. unfold rollbackRoute, rollbackToHeight, validateRollbackHeight.
    destruct (Z.ltb_spec t 0); [reflexivity|].
    rewrite getMaxBlockHeight_tip.
    replace (t >? tip s) with true by (symmetry; apply Z.gtb_lt; lia).
    reflexivity.
  - intros E Z0. unfold rollbackRoute.
    rewrite rollbackToHeight_nothing_above;
      [|lia | rewrite E; apply above_tip_nil].
    rewrite E, Z0. reflexivity.
  - intros E N. unfold rollbackRoute.
    rewrite rollbackToHeight_nothing_above;
      [|lia | rewrite E; apply above_tip_nil].
    cbn [getErrorStatusCode errorStatusCode].
    replace (tip s =? 0) with false by (symmetry; apply Z.eqb_neq, N).
    rewrite E. reflexivity.
  - intros H D. unfold rollbackRoute.
    rewrite (rollbackToHeight_ok t s D);
      [split; reflexivity | lia | apply above_nonempty_below_tip, H].
Qed.

Lemma rollback_route_replies_witness :
  rollbackRoute 1 (storeAfter [readmeBlock1])
  = (mkReply 400
       (Error (js "Cannot rollback to height " ++ numberToString 1
               ++ js ": no blocks exist above this height. Current height is "
               ++ numberToString 1 ++ js ".")),
     storeAfter [readmeBlock1]).
Proof.
  apply (proj1 (proj2 (proj2
           (rollback_route_replies 1 (storeAfter [readmeBlock1]))))).
  - vm_compute. reflexivity.
  - vm_compute. discriminate.
Defined.

(** ** [parseInt] and the time-to-live header *)








(** * A rollback that the store interrupts *)

Lemma guarded_runs {R A} `{IUTXORepository R} (m : Method)
      (call : R -> Result A AppError * R) (s : Throwing R) :
  throws s m = false ->
  guarded m call s
  = (fst (call (inner s)), mkThrowing (snd (call (inner s))) (throws s)).
Proof.
  intros T. unfold guarded. rewrite T. destruct (call (inner s)). reflexivity.
Qed.

Lemma guarded_throws {R A} `{IUTXORepository R} (m : Method)
      (call : R -> Result A AppError * R) (s : Throwing R) :
  throws s m = true -> guarded m call s = (err (DatabaseError 500), s).
Proof. intros T. unfold guarded. rewrite T. reflexivity. Qed.

Lemma above_idsOf_nonempty (t : Z) (m : InMemory.Store) :
  0 <= t < tip m ->
  (length (above t m) =? 0)%nat = false
  /\ (0 <? JSSet.size (idsOf (above t m)))%nat = true.
Proof.
  intros Ht. pose proof (above_nonempty_below_tip t m Ht) as Ne.
  split.
  - destruct (above t m); [contradiction | reflexivity].
  - pose proof (idsOf_nonempty _ Ne) as Ni. unfold JSSet.size.
    destruct (idsOf (above t m)); [contradiction | reflexivity].
Qed.

(** X19.  A rollback is not undone when the store fails in the middle of
    it.  With a target from 0 to below the tip: when [unmarkAsSpent]
    fails, the rollback fails with [DatabaseError], status 500, and the
    store is as it was; when [unmarkAsSpent] succeeds and
    [deleteUTXOsByBlockHeight] fails, the rollback fails in the same way,
    but the spend marks put by the rows above the target are cleared
    already, while those rows are all still there. *)
Theorem rollback_interrupted (t : Z) (s : Throwing InMemory.Store) :
  throws s GetMaxBlockHeight = false ->
  throws s FindUTXOsByBlockHeight = false ->
  0 <= t < tip (inner s) ->
  (throws s UnmarkAsSpent = true ->
   rollbackToHeight t s = (err (DatabaseError 500), s))
  /\ (throws s UnmarkAsSpent = false ->
      throws s DeleteUTXOsByBlockHeight = true ->
      distinctKeys (inner s) ->
      rollbackToHeight t s
      = (err (DatabaseError 500),
         mkThrowing
           (InMemory.mkStore
              (map (unmarkEntry (idsOf (above t (inner s))))
                   (InMemory.utxos (inner s)))
              (InMemory.nextId (inner s)))
           (throws s))
      /\ status (fst (rollbackRoute t s)) = 500).
Proof.
  intros Tg Tf Ht. destruct s as [m th]. cbn [inner throws] in *.
  destruct (above_idsOf_nonempty t m Ht) as [La Li].
  assert (G : getMaxBlockHeight (mkThrowing m th)
              = (ok (tip m), mkThrowing m th)).
  { cbn [getMaxBlockHeight ThrowingUTXORepository].
    rewrite guarded_runs by exact Tg. cbn [inner throws].
    rewrite getMaxBlockHeight_tip. reflexivity. }
  assert (F : findUTXOsByBlockHeight t (mkThrowing m th)
              = (ok (above t m), mkThrowing m th)).
  { cbn [findUTXOsByBlockHeight ThrowingUTXORepository].
    rewrite guarded_runs by exact Tf. cbn [inner throws].
    rewrite findUTXOsByBlockHeight_above. reflexivity. }
  split.
  - intros Tu. unfold rollbackToHeight, validateRollbackHeight.
    replace (t <? 0) with false by (symmetry; apply Z.ltb_ge; lia).
    rewrite G.
    replace (t >? tip m) with false by (symmetry; rewrite Z.gtb_ltb; apply Z.ltb_ge; lia).
    rewrite F, La.
    change (fold_left (fun set utxo => JSSet.add set (txid utxo)) (above t m) [])
      with (idsOf (above t m)).
    rewrite Li. unfold JSSet.toArray.
    cbn [unmarkAsSpent ThrowingUTXORepository].
    rewrite guarded_throws by exact Tu. reflexivity.
  - intros Tu Td D.
    assert (Rb : rollbackToHeight t (mkThrowing m th)
                 = (err (DatabaseError 500),
                    mkThrowing
                      (InMemory.mkStore
                         (map (unmarkEntry (idsOf (above t m)))
                              (InMemory.utxos m))
                         (InMemory.nextId m)) th)).
    { unfold rollbackToHeight, validateRollbackHeight.
      replace (t <? 0) with false by (symmetry; apply Z.ltb_ge; lia).
      rewrite G.
      replace (t >? tip m) with false
        by (symmetry; rewrite Z.gtb_ltb; apply Z.ltb_ge; lia).
      rewrite F, La.
      change (fold_left (fun set utxo => JSSet.add set (txid utxo))
                        (above t m) [])
        with (idsOf (above t m)).
      rewrite Li. unfold JSSet.toArray.
      cbn [unmarkAsSpent ThrowingUTXORepository].
      rewrite guarded_runs by exact Tu. cbn [inner throws].
      rewrite (unmarkAsSpent_map _ m D). cbn [fst snd].
      cbn [deleteUTXOsByBlockHeight ThrowingUTXORepository].
      rewrite guarded_throws by exact Td. reflexivity. }
    split; [exact Rb|]. unfold rollbackRoute. rewrite Rb. reflexivity.
Qed.

Lemma rollback_interrupted_witness :
  rollbackToHeight 1
    (mkThrowing (storeAfter [readmeBlock1; readmeBlock2])
                (onlyThrows DeleteUTXOsByBlockHeight))
  = (err (DatabaseError 500),
     mkThrowing
       (InMemory.mkStore
          (map (unmarkEntry
                  (idsOf (above 1 (storeAfter [readmeBlock1; readmeBlock2]))))
               (InMemory.utxos (storeAfter [readmeBlock1; readmeBlock2])))
          (InMemory.nextId (storeAfter [readmeBlock1; readmeBlock2])))
       (onlyThrows DeleteUTXOsByBlockHeight)).
Proof.
  apply (proj1 (proj2 (rollback_interrupted
                         1 (mkThrowing (storeAfter [readmeBlock1; readmeBlock2])
                                       (onlyThrows DeleteUTXOsByBlockHeight))
                         ltac:(reflexivity) ltac:(reflexivity)
                         ltac:(vm_compute; split; [discriminate | reflexivity]))
                      ltac:(reflexivity) ltac:(reflexivity)
                      ltac:(apply distinctb_NoDup; vm_compute; reflexivity))).
Defined.

(** * What the block identifier covers *)

Lemma firstn_repeat {A} (x : A) (a k : nat) :
  firstn a (repeat x k) = repeat x (Nat.min a k).
Proof.
  revert k; induction a as [|a IH]; intros k; [reflexivity|].
  destruct k as [|k]; [reflexivity|]. cbn. rewrite IH. reflexivity.
Qed.

Lemma padTxId_form (t : JSString) :
  padTxId t = firstn 64 t ++ repeat 48 (64 - length t).
Proof.
  unfold padTxId, substring0, padEnd0.
  rewrite firstn_app, firstn_repeat. f_equal. f_equal. lia.
Qed.

Lemma padTxId_length (t : JSString) : length (padTxId t) = 64%nat.
Proof. rewrite padTxId_pad64. apply pad64_length. Qed.

Lemma padTxId_zeros (t : JSString) (n : nat) :
  padTxId (t ++ repeat 48 n) = padTxId t.
Proof.
  rewrite !padTxId_form. rewrite firstn_app, firstn_repeat.
  rewrite length_app, repeat_length. rewrite <- app_assoc, <- repeat_app.
  f_equal. f_equal. lia.
Qed.

Lemma padTxId_cut (t rest : JSString) :
  (64 <= length t)%nat -> padTxId (t ++ rest) = padTxId t.
Proof.
  intros H. rewrite !padTxId_form. rewrite firstn_app, length_app.
  replace (64 - length t)%nat with 0%nat by lia.
  replace (64 - (length t + length rest))%nat with 0%nat by lia.
  cbn. rewrite !app_nil_r. reflexivity.
Qed.

Lemma padTxId_fixed (t : JSString) : length t = 64%nat -> padTxId t = t.
Proof.
  intros H. rewrite padTxId_form, H. cbn [Nat.sub repeat].
  rewrite app_nil_r. rewrite <- H. apply firstn_all.
Qed.

(** X20.  [padTxId] always gives 64 code units, leaves an identifier of
    64 code units as it is, and is not changed by being applied twice; it
    forgets the ['0'] that end an identifier and whatever comes after its
    64th code unit.  The identifier expected of a block is computed from
    the height and the padded transaction identifiers alone: blocks that
    agree on these are expected to have the same identifier, whatever
    their inputs and outputs, so that an identifier that is valid for one
    is valid for the other. *)
Theorem block_id_covers (b b' : Block) :
  (forall t : JSString,
      length (padTxId t) = 64%nat
      /\ padTxId (padTxId t) = padTxId t
      /\ (length t = 64%nat -> padTxId t = t)
      /\ (forall n, padTxId (t ++ repeat 48 n) = padTxId t)
      /\ (forall rest, (64 <= length t)%nat -> padTxId (t ++ rest) = padTxId t))
  /\ (height b = height b' ->
      map (fun T => padTxId (tx_id T)) (transactions b)
      = map (fun T => padTxId (tx_id T)) (transactions b') ->
      expectedHash b = expectedHash b'
      /\ (validateBlockId b = ok tt ->
          validateBlockId (mkBlock (id b) (height b') (transactions b'))
          = ok tt)).
Proof.
  split.
  - intros t. split; [apply padTxId_length|].
    split; [apply padTxId_fixed, padTxId_length|].
    split; [apply padTxId_fixed|].
    split; [apply padTxId_zeros | apply padTxId_cut].
  - intros Hh Ht.
    assert (E : expectedHash b = expectedHash b').
    { unfold expectedHash. rewrite Hh, Ht. reflexivity. }
    split; [exact E|].
    unfold validateBlockId. cbn [id].
    change (expectedHash (mkBlock (id b) (height b') (transactions b')))
      with (expectedHash b').
    rewrite E. intros V. exact V.
Qed.

Lemma block_id_covers_witness :
  expectedHash readmeBlock1
  = expectedHash
      (mkBlock (id readmeBlock1) 1
               [mkTransaction (js "tx1") [] [mkOutput (js "addr7") 1000000]]).
Proof.
  apply (proj1 (proj2 (block_id_covers
                         readmeBlock1
                         (mkBlock (id readmeBlock1) 1
                                  [mkTransaction (js "tx1") []
                                     [mkOutput (js "addr7") 1000000]]))
                      ltac:(reflexivity) ltac:(vm_compute; reflexivity))).
Defined.

(** * What [findByTxIdsAndVouts] answers *)

Lemma found_length (s : InMemory.Store) (refs : list Ref) :
  (length (found s refs) <= length refs)%nat.
Proof.
  unfold found. induction refs as [|r refs IH]; cbn [flat_map]; [apply le_n|].
  rewrite length_app.
  destruct (lookupUnspent s (ref_txId r) (ref_vout r)); cbn [length]; lia.
Qed.

(** X21.  On a store whose rows lie under distinct keys, each under the
    key of its own reference, [findByTxIdsAndVouts] never fails and does
    not change the store; it answers exactly the unspent rows whose
    [txid] and [vout] are among the references, at most one for each
    reference: a reference without a row, or whose row is spent, is passed
    over in silence, and no reference at all gives no row. *)
Theorem find_answers (refs : list Ref) (s : InMemory.Store) :
  wf s ->
  exists us,
    findByTxIdsAndVouts refs s = (ok us, s)
    /\ (forall u, In u us
                  <-> In u (rows s) /\ spent u = false
                      /\ In (mkRef (txid u) (vout u)) refs)
    /\ (length us <= length refs)%nat
    /\ findByTxIdsAndVouts [] s = (ok [], s).
Proof.
  intros [D K]. exists (found s refs).
  split; [apply findByTxIdsAndVouts_found|].
  split; [|split; [apply found_length | reflexivity]].
  intros u. rewrite found_In. pose proof K as Kf. unfold keyed in Kf.
  rewrite Forall_forall in Kf. split.
  - intros [r [Hr L]].
    destruct (lookupUnspent_own_key s _ _ u K L) as [Ek Hs].
    apply getKey_inj in Ek. destruct Ek as [Et Ev].
    unfold lookupUnspent in L.
    destruct (JSMap.get (InMemory.utxos s)
                        (InMemory.getKey (ref_txId r) (ref_vout r)))
      as [u0|] eqn:G; [|discriminate].
    destruct (spent u0); [discriminate|]. inversion L; subst u0.
    split; [|split; [exact Hs|]].
    + apply get_In in G. unfold rows, JSMap.values.
      apply in_map_iff. exists (InMemory.getKey (ref_txId r) (ref_vout r), u).
      split; [reflexivity | exact G].
    + destruct r as [rt rv]. cbn in Et, Ev. subst. exact Hr.
  - intros [Hu [Hs Hr]]. exists (mkRef (txid u) (vout u)).
    split; [exact Hr|]. cbn [ref_txId ref_vout].
    unfold rows, JSMap.values in Hu. apply in_map_iff in Hu.
    destruct Hu as [[k u'] [Eu He]]. cbn in Eu. subst u'.
    pose proof (Kf _ He) as Ek. cbn in Ek. subst k.
    unfold lookupUnspent. rewrite (get_of_In _ _ _ D He), Hs. reflexivity.
Qed.

Lemma find_answers_witness :
  exists us,
    findByTxIdsAndVouts [mkRef (padTxId (js "tx1")) 0; mkRef (js "none") 3]
                        (storeAfter [readmeBlock1])
    = (ok us, storeAfter [readmeBlock1])
    /\ (length us <= 2)%nat.
Proof.
  destruct (find_answers [mkRef (padTxId (js "tx1")) 0; mkRef (js "none") 3]
                         (storeAfter [readmeBlock1])
                         ltac:(apply wfb_wf; vm_compute; reflexivity))
    as [us [F [_ [L _]]]].
  exists us. split; [exact F | exact L].
Defined.

(** * What an accepted block writes: one transaction *)

Lemma get_set {V} (m : JSMap.t V) (k k' : JSString) (v : V) :
  JSMap.get (JSMap.set m k v) k'
  = if JSString_eqb k k' then Some v else JSMap.get m k'.
Proof.
  destruct (JSString_eqb k k') eqn:E.
  - apply JSString_eqb_eq in E. subst. apply get_set_same.
  - apply JSString_eqb_neq in E. apply get_set_other, E.
Qed.

Lemma get_app_new {V} (m new : JSMap.t V) (k : JSString) :
  ~ In k (map fst m) -> JSMap.get (m ++ new) k = JSMap.get new k.
Proof.
  induction m as [|[k' v] m IH]; cbn; [reflexivity|].
  intros N. destruct (JSString_eqb k' k) eqn:E.
  - apply JSString_eqb_eq in E. exfalso. apply N. left. exact E.
  - apply IH. intros H. apply N. right. exact H.
Qed.

Lemma lookupUnspent_get (s : InMemory.Store) (t : JSString) (v : Z) (u : UTXO) :
  lookupUnspent s t v = Some u
  <-> JSMap.get (InMemory.utxos s) (InMemory.getKey t v) = Some u
      /\ spent u = false.
Proof.
  unfold lookupUnspent.
  destruct (JSMap.get (InMemory.utxos s) (InMemory.getKey t v)) as [u0|].
  - destruct (spent u0) eqn:Hs; split.
    + discriminate.
    + intros [E F]. inversion E; subst. congruence.
    + intros E. inversion E; subst. auto.
    + intros [E _]. exact E.
  - split; [discriminate | intros [E _]; discriminate].
Qed.

Lemma markAsSpent_get (t : JSString) (v : Z) (x : JSString)
      (s s' : InMemory.Store) :
  markAsSpent t v x s = (ok tt, s') ->
  exists u,
    lookupUnspent s t v = Some u
    /\ forall k, JSMap.get (InMemory.utxos s') k
                 = if JSString_eqb (InMemory.getKey t v) k
                   then Some (InMemory.withSpent u x)
                   else JSMap.get (InMemory.utxos s) k.
Proof.
  intros M. destruct (lookupUnspent s t v) as [u|] eqn:L.
  - exists u. split; [reflexivity|].
    destruct (markAsSpent_some t v x s u L) as [M' _].
    rewrite M' in M. inversion M; subst s'. cbn [InMemory.utxos].
    intros k. apply get_set.
  - rewrite (markAsSpent_none t v x s L) in M. discriminate.
Qed.

Lemma spendInputs_effect (x : JSString) (ins : list Input)
      (s s' : InMemory.Store) :
  spendInputs x ins s = (ok tt, s') ->
  (forall i, In i ins -> isCoinbaseInput (txId i) = false ->
             exists u,
               lookupUnspent s (txId i) (index i) = Some u
               /\ JSMap.get (InMemory.utxos s')
                            (InMemory.getKey (txId i) (index i))
                  = Some (InMemory.withSpent u x))
  /\ (forall k,
        (forall i, In i ins -> isCoinbaseInput (txId i) = false ->
                   InMemory.getKey (txId i) (index i) <> k) ->
        JSMap.get (InMemory.utxos s') k = JSMap.get (InMemory.utxos s) k)
  /\ (forall k u, JSMap.get (InMemory.utxos s) k = Some u -> spent u = true ->
                  JSMap.get (InMemory.utxos s') k = Some u).
Proof.
  revert s; induction ins as [|i ins IH]; intros s; cbn [spendInputs].
  - intros E; inversion E; subst. split; [intros i []|]. split; auto.
  - destruct (isCoinbaseInput (txId i)) eqn:Cb.
    + intros S. destruct (IH s S) as [B [C D]]. split; [|split; [|exact D]].
      * intros j [<- | Hj] Hc; [congruence | exact (B j Hj Hc)].
      * intros k Hk. apply C. intros j Hj. apply Hk. right. exact Hj.
    + destruct (markAsSpent (txId i) (index i) x s) as [[[]|e] s1] eqn:M;
        [|discriminate].
      intros S. destruct (IH s1 S) as [B [C D]].
      destruct (markAsSpent_get _ _ _ _ _ M) as [u [L G]].
      apply lookupUnspent_get in L as L'. destruct L' as [Gu Hu].
      split; [|split].
      * intros j [<- | Hj] Hc.
        -- exists u. split; [exact L|]. apply D; [|reflexivity].
           rewrite G, JSString_eqb_refl. reflexivity.
        -- destruct (B j Hj Hc) as [uj [Lj Gj]]. exists uj. split; [|exact Gj].
           apply lookupUnspent_get in Lj. destruct Lj as [Gj1 Hj1].
           apply lookupUnspent_get. split; [|exact Hj1].
           rewrite G in Gj1.
           destruct (JSString_eqb (InMemory.getKey (txId i) (index i))
                                  (InMemory.getKey (txId j) (index j)));
             [|exact Gj1].
           inversion Gj1; subst uj. discriminate.
      * intros k Hk. rewrite C by (intros j Hj; apply Hk; right; exact Hj).
        rewrite G.
        replace (JSString_eqb (InMemory.getKey (txId i) (index i)) k)
          with false; [reflexivity|].
        symmetry. apply JSString_eqb_neq, Hk; [left; reflexivity | exact Cb].
      * intros k w Gw Hw. apply D; [|exact Hw]. rewrite G.
        destruct (JSString_eqb (InMemory.getKey (txId i) (index i)) k) eqn:E;
          [|exact Gw].
        apply JSString_eqb_eq in E. subst k. rewrite Gu in Gw.
        inversion Gw; subst w. congruence.
Qed.

Lemma newEntries_get (x : JSString) (h : Z) (outs : list Output) :
  forall (i : nat) (n : Z) (j : nat) (o : Output),
    nth_error outs j = Some o ->
    exists id,
      JSMap.get (newEntries x h i outs n)
                (InMemory.getKey x (Z.of_nat (i + j)))
      = Some (mkUTXO id x (Z.of_nat (i + j)) (address o) (value o) [] h false
                     None None now).
Proof.
  induction outs as [|o' outs IH]; intros i n j o Hn;
    [destruct j; discriminate|].
  cbn [newEntries JSMap.get]. destruct j as [|j].
  - cbn in Hn. inversion Hn; subst o'. rewrite Nat.add_0_r.
    rewrite JSString_eqb_refl. exists n. reflexivity.
  - cbn in Hn.
    replace (JSString_eqb (InMemory.getKey x (Z.of_nat i))
                          (InMemory.getKey x (Z.of_nat (i + S j))))
      with false.
    + destruct (IH (S i) (n + 1) j o Hn) as [id G]. exists id.
      replace (i + S j)%nat with (S i + j)%nat by lia. exact G.
    + symmetry. apply JSString_eqb_neq. intros E. apply getKey_inj in E. lia.
Qed.

Lemma txKeys_In (tx : Transaction) (k : JSString) :
  In k (txKeys tx)
  <-> exists j, (j < length (outputs tx))%nat
                /\ k = InMemory.getKey (tx_id tx) (Z.of_nat j).
Proof.
  unfold txKeys. rewrite in_map_iff. split.
  - intros [j [<- Hj]]. apply in_seq in Hj. exists j. split; [lia | reflexivity].
  - intros [j [Hj ->]]. exists j. split; [reflexivity|]. apply in_seq. lia.
Qed.

Lemma processTransaction_effect (h : Z) (tx : Transaction)
      (s s' : InMemory.Store) :
  NoDup (txKeys tx) ->
  (forall k, In k (txKeys tx) -> ~ In k (map fst (InMemory.utxos s))) ->
  processTransaction h tx s = (ok tt, s') ->
  (forall j o, nth_error (outputs tx) j = Some o ->
     exists id,
       JSMap.get (InMemory.utxos s') (InMemory.getKey (tx_id tx) (Z.of_nat j))
       = Some (mkUTXO id (tx_id tx) (Z.of_nat j) (address o) (value o) [] h
                      false None None now))
  /\ (forall i, In i (inputs tx) -> isCoinbaseInput (txId i) = false ->
        exists u,
          lookupUnspent s (txId i) (index i) = Some u
          /\ JSMap.get (InMemory.utxos s')
                       (InMemory.getKey (txId i) (index i))
             = Some (InMemory.withSpent u (tx_id tx)))
  /\ (forall k,
        (forall i, In i (inputs tx) -> isCoinbaseInput (txId i) = false ->
                   InMemory.getKey (txId i) (index i) <> k) ->
        ~ In k (txKeys tx) ->
        JSMap.get (InMemory.utxos s') k = JSMap.get (InMemory.utxos s) k)
  /\ (forall k u, JSMap.get (InMemory.utxos s) k = Some u -> spent u = true ->
                  JSMap.get (InMemory.utxos s') k = Some u).
Proof.
  intros ND Fr. unfold processTransaction.
  destruct (spendInputs (tx_id tx) (inputs tx) s) as [[[]|e] s1] eqn:S1;
    [|discriminate].
  destruct (spendInputs_effect _ _ _ _ S1) as [B [C D]].
  destruct (spendInputs_value (fun _ => true) _ _ _ _ S1) as [_ [K _]].
  intros Co. rewrite createOutputs_shape in Co.
  2:{ exact ND. }
  2:{ intros j Hj. rewrite K. apply Fr. unfold txKeys.
      apply in_map_iff. exists j. split; [reflexivity | exact Hj]. }
  inversion Co; subst s'. clear Co. cbn [InMemory.utxos].
  assert (Old : forall k w, JSMap.get (InMemory.utxos s1) k = Some w ->
                  JSMap.get (InMemory.utxos s1
                             ++ newEntries (tx_id tx) h 0 (outputs tx)
                                           (InMemory.nextId s1)) k
                  = Some w).
  { intros k w G. rewrite get_app_old; [exact G|].
    eapply get_Some_in_keys, G. }
  split; [|split; [|split]].
  - intros j o Hn.
    rewrite get_app_new.
    + destruct (newEntries_get (tx_id tx) h (outputs tx) 0
                               (InMemory.nextId s1) j o Hn) as [id G].
      exists id. exact G.
    + rewrite K. apply Fr. apply txKeys_In. exists j. split; [|reflexivity].
      apply nth_error_Some. rewrite Hn. discriminate.
  - intros i Hi Cb. destruct (B i Hi Cb) as [u [L G]]. exists u.
    split; [exact L | apply Old, G].
  - intros k Hk Nk.
    destruct (JSMap.get (InMemory.utxos s1) k) as [w|] eqn:G1.
    + rewrite (Old k w G1). rewrite <- G1. apply C, Hk.
    + rewrite get_app_new by (apply get_None_notin, G1).
      rewrite <- (C k Hk), G1. apply get_notin.
      rewrite newEntries_keys. exact Nk.
  - intros k w G Hw. apply Old, D; assumption.
Qed.

(** * What an accepted block writes: the whole block *)

Lemma outputKeys_In (txs : list Transaction) (k : JSString) :
  In k (outputKeys txs)
  <-> exists tx j, In tx txs /\ (j < length (outputs tx))%nat
                   /\ k = InMemory.getKey (tx_id tx) (Z.of_nat j).
Proof.
  unfold outputKeys. rewrite in_flat_map. split.
  - intros [tx [Ht Hk]]. apply txKeys_In in Hk. destruct Hk as [j [Hj ->]].
    exists tx, j. auto.
  - intros [tx [j [Ht [Hj ->]]]]. exists tx. split; [exact Ht|].
    apply txKeys_In. exists j. auto.
Qed.

Lemma processTransactions_effect (h : Z) (s0 : InMemory.Store)
      (txs : list Transaction) :
  forall s s',
    wf s -> freshFor s txs ->
    incl (map fst (InMemory.utxos s0)) (map fst (InMemory.utxos s)) ->
    (forall tx i, In tx txs -> In i (inputs tx) ->
                  isCoinbaseInput (txId i) = false ->
                  In (InMemory.getKey (txId i) (index i))
                     (map fst (InMemory.utxos s0))) ->
    processTransactions h txs s = (ok tt, s') ->
    (forall tx j o, In tx txs -> nth_error (outputs tx) j = Some o ->
       exists id,
         JSMap.get (InMemory.utxos s')
                   (InMemory.getKey (tx_id tx) (Z.of_nat j))
         = Some (mkUTXO id (tx_id tx) (Z.of_nat j) (address o) (value o) [] h
                        false None None now))
    /\ (forall tx i, In tx txs -> In i (inputs tx) ->
          isCoinbaseInput (txId i) = false ->
          exists u,
            lookupUnspent s (txId i) (index i) = Some u
            /\ JSMap.get (InMemory.utxos s')
                         (InMemory.getKey (txId i) (index i))
               = Some (InMemory.withSpent u (tx_id tx)))
    /\ (forall k,
          (forall tx i, In tx txs -> In i (inputs tx) ->
                        isCoinbaseInput (txId i) = false ->
                        InMemory.getKey (txId i) (index i) <> k) ->
          ~ In k (outputKeys txs) ->
          JSMap.get (InMemory.utxos s') k = JSMap.get (InMemory.utxos s) k)
    /\ (forall k u, JSMap.get (InMemory.utxos s) k = Some u ->
                    spent u = true ->
                    JSMap.get (InMemory.utxos s') k = Some u).
Proof.
  induction txs as [|tx txs IH]; intros s s' W Fr Inc Ins;
    cbn [processTransactions].
  - intros E; inversion E; subst.
    split; [intros tx j o []|]. split; [intros tx i []|]. split; auto.
  - destruct (processTransaction h tx s) as [[[]|e] s1] eqn:T; [|discriminate].
    intros E.
    destruct (freshFor_step _ _ _ _ _ W Fr T) as [ND1 [Hf1 [W1 [K1 Fr1]]]].
    destruct (processTransaction_effect _ _ _ _ ND1 Hf1 T) as [A1 [B1 [C1 D1]]].
    destruct (processTransaction_value (fun _ => true) _ _ _ _ ND1 Hf1 T)
      as [_ [_ L1]].
    assert (Inc1 : incl (map fst (InMemory.utxos s0))
                        (map fst (InMemory.utxos s1))).
    { intros k Hk. rewrite K1. apply in_or_app. left. apply Inc, Hk. }
    assert (Ins1 : forall tx' i, In tx' txs -> In i (inputs tx') ->
                     isCoinbaseInput (txId i) = false ->
                     In (InMemory.getKey (txId i) (index i))
                        (map fst (InMemory.utxos s0))).
    { intros tx' i Ht. apply Ins. right. exact Ht. }
    destruct (IH s1 s' W1 Fr1 Inc1 Ins1 E) as [A [B [C D]]].
    destruct Fr as [NDall Frall]. cbn [outputKeys flat_map] in NDall, Frall.
    split; [|split; [|split]].
    + intros tx' j o [<- | Ht] Hn; [|exact (A tx' j o Ht Hn)].
      destruct (A1 j o Hn) as [id G]. exists id. rewrite <- G. apply C.
      * intros tx' i Ht Hi Cb Ek.
        apply (Hf1 (InMemory.getKey (tx_id tx) (Z.of_nat j))).
        -- apply txKeys_In. exists j. split; [|reflexivity].
           apply nth_error_Some. rewrite Hn. discriminate.
        -- apply Inc. rewrite <- Ek. apply (Ins1 tx' i Ht Hi Cb).
      * destruct Fr1 as [_ Fr1]. intros Hk. apply (Fr1 _ Hk).
        rewrite K1. apply in_or_app. right. apply txKeys_In.
        exists j. split; [|reflexivity].
        apply nth_error_Some. rewrite Hn. discriminate.
    + intros tx' i [<- | Ht] Hi Cb.
      * destruct (B1 i Hi Cb) as [u [L G]]. exists u. split; [exact L|].
        apply D; [exact G | reflexivity].
      * destruct (B tx' i Ht Hi Cb) as [u [L G]]. exists u. split; [|exact G].
        destruct (L1 (txId i) (index i)) as [N | Eq].
        -- apply Inc, (Ins1 tx' i Ht Hi Cb).
        -- congruence.
        -- rewrite <- Eq. exact L.
    + intros k Hk Nk. rewrite C.
      * apply C1.
        -- intros i Hi. apply (Hk tx i); [left; reflexivity | exact Hi].
        -- intros H. apply Nk. cbn [outputKeys flat_map].
           apply in_or_app. left. exact H.
      * intros tx' i Ht. apply Hk. right. exact Ht.
      * intros H. apply Nk. cbn [outputKeys flat_map].
        apply in_or_app. right. exact H.
    + intros k u G Hu. apply D; [|exact Hu]. apply D1; assumption.
Qed.

(** X22.  What an accepted block has written, when none of its inserts
    met a key already in the store.  Every output of every transaction is
    an unspent row under the identifier of the transaction and its index,
    with the address and the value of the output and the height of the
    block.  Every non-coinbase input referred to an unspent row of the
    store before the block, and that row is now marked spent by the
    transaction of the input.  The row of any other reference, or its
    absence, is as before. *)
Theorem accepted_block_writes (b : Block) (s s' : InMemory.Store) :
  wf s -> freshFor s (transactions b) ->
  processBlock b s = (ok tt, s') ->
  (forall tx j o,
      In tx (transactions b) -> nth_error (outputs tx) j = Some o ->
      exists u,
        fst (findByTxIdsAndVouts [mkRef (tx_id tx) (Z.of_nat j)] s') = ok [u]
        /\ txid u = tx_id tx /\ vout u = Z.of_nat j
        /\ utxo_address u = address o /\ utxo_value u = value o
        /\ blockHeight u = height b)
  /\ (forall tx i,
        In tx (transactions b) -> In i (inputs tx) ->
        isCoinbaseInput (txId i) = false ->
        exists u,
          fst (findByTxIdsAndVouts [mkRef (txId i) (index i)] s) = ok [u]
          /\ JSMap.get (InMemory.utxos s')
                       (InMemory.getKey (txId i) (index i))
             = Some (InMemory.withSpent u (tx_id tx)))
  /\ (forall t v,
        (forall tx i, In tx (transactions b) -> In i (inputs tx) ->
                      isCoinbaseInput (txId i) = false ->
                      (txId i, index i) <> (t, v)) ->
        (forall tx j, In tx (transactions b) ->
                      (j < length (outputs tx))%nat ->
                      (tx_id tx, Z.of_nat j) <> (t, v)) ->
        JSMap.get (InMemory.utxos s') (InMemory.getKey t v)
        = JSMap.get (InMemory.utxos s) (InMemory.getKey t v)).
Proof.
  intros W Fr Pb. apply processBlock_ok_inv in Pb.
  destruct Pb as [_ [V [_ Pt]]].
  assert (Ins : forall tx i, In tx (transactions b) -> In i (inputs tx) ->
                  isCoinbaseInput (txId i) = false ->
                  In (InMemory.getKey (txId i) (index i))
                     (map fst (InMemory.utxos s))).
  { intros tx i Ht Hi Cb.
    destruct (accepted_inputs_resolve b s (proj2 W) V tx i Ht Hi Cb)
      as [_ [All _]].
    rewrite Forall_forall in All.
    apply lookupUnspent_in_keys, (All i Hi). }
  destruct (processTransactions_effect (height b) s (transactions b) s s'
              W Fr (fun k Hk => Hk) Ins Pt) as [A [B [C _]]].
  split; [|split].
  - intros tx j o Ht Hn. destruct (A tx j o Ht Hn) as [id G].
    exists (mkUTXO id (tx_id tx) (Z.of_nat j) (address o) (value o) []
                   (height b) false None None now).
    split; [|repeat split; reflexivity].
    apply find_one_some, lookupUnspent_get. split; [exact G | reflexivity].
  - intros tx i Ht Hi Cb. destruct (B tx i Ht Hi Cb) as [u [L G]].
    exists u. split; [apply find_one_some, L | exact G].
  - intros t v Hin Hout. apply C.
    + intros tx i Ht Hi Cb. apply getKey_differs, (Hin tx i Ht Hi Cb).
    + intros Hk. apply outputKeys_In in Hk.
      destruct Hk as [tx [j [Ht [Hj Ek]]]].
      apply getKey_inj in Ek. destruct Ek as [Et Ev].
      apply (Hout tx j Ht Hj). rewrite Et, Ev. reflexivity.
Qed.

Lemma accepted_block_writes_witness :
  exists u,
    fst (findByTxIdsAndVouts
           [mkRef (padTxId (js "tx2")) (Z.of_nat 1)]
           (storeAfter [readmeBlock1; readmeBlock2])) = ok [u]
    /\ txid u = padTxId (js "tx2") /\ vout u = Z.of_nat 1
    /\ utxo_address u = js "addr3" /\ utxo_value u = 6
    /\ blockHeight u = height readmeBlock2.
Proof.
  apply (proj1 (accepted_block_writes
                  readmeBlock2 (storeAfter [readmeBlock1])
                  (storeAfter [readmeBlock1; readmeBlock2])
                  ltac:(apply wfb_wf; vm_compute; reflexivity)
                  ltac:(apply freshForb_freshFor; vm_compute; reflexivity)
                  ltac:(vm_compute; reflexivity))
               (mkTransaction (padTxId (js "tx2"))
                              [mkInput (padTxId (js "tx1")) 0]
                              [mkOutput (js "addr2") 4; mkOutput (js "addr3") 6])
               1%nat (mkOutput (js "addr3") 6)
               ltac:(left; reflexivity) ltac:(reflexivity)).
Defined.

(** * Row identifiers *)

Lemma set_members {V} (m : JSMap.t V) (k : JSString) (v : V)
      (e : JSString * V) :
  In e (JSMap.set m k v) -> In e m \/ snd e = v.
Proof.
  induction m as [|[k' v'] m IH]; cbn [JSMap.set].
  - intros [<- | []]. right. reflexivity.
  - destruct (JSString_eqb k' k).
    + intros [<- | H]; [right; reflexivity | left; right; exact H].
    + intros [<- | H]; [left; left; reflexivity|].
      destruct (IH H) as [H' | H']; [left; right; exact H' | right; exact H'].
Qed.

Lemma ids_after_set (m : JSMap.t UTXO) (k : JSString) (v : UTXO) :
  NoDup (map (fun e => utxo_id (snd e)) m) ->
  (~ In (utxo_id v) (map (fun e => utxo_id (snd e)) m)
   \/ exists v0, JSMap.get m k = Some v0 /\ utxo_id v0 = utxo_id v) ->
  NoDup (map (fun e => utxo_id (snd e)) (JSMap.set m k v)).
Proof.
  induction m as [|[k' v'] m IH]; cbn [JSMap.set JSMap.get map snd].
  - intros _ _. constructor; [intros [] | constructor].
  - intros ND H. inversion ND as [|? ? Hn ND']; subst.
    destruct (JSString_eqb k' k) eqn:E; cbn [map snd].
    + constructor; [|exact ND'].
      destruct H as [H | [v0 [G Ev]]].
      * intros F. apply H. right. exact F.
      * inversion G; subst v0. rewrite <- Ev. exact Hn.
    + constructor.
      * intros F. apply in_map_iff in F. destruct F as [e [Ee He]].
        apply set_members in He. destruct He as [He | He].
        -- apply Hn. apply in_map_iff. exists e. auto.
        -- rewrite He in Ee. destruct H as [H | [v0 [G Ev]]].
           ++ apply H. left. symmetry. exact Ee.
           ++ apply Hn. rewrite <- Ee, <- Ev.
              apply get_In in G. apply in_map_iff. exists (k, v0). auto.
      * apply IH; [exact ND'|].
        destruct H as [H | H]; [left | right; exact H].
        intros F. apply H. right. exact F.
Qed.

Lemma idsInOrder_entries (s : InMemory.Store) :
  idsInOrder s
  <-> 1 <= InMemory.nextId s
      /\ NoDup (map (fun e => utxo_id (snd e)) (InMemory.utxos s))
      /\ Forall (fun e => 1 <= utxo_id (snd e) < InMemory.nextId s)
                (InMemory.utxos s).
Proof.
  unfold idsInOrder, rows, JSMap.values. rewrite map_map, Forall_forall.
  split; intros [P [N B]]; (split; [exact P|]; split; [exact N|]).
  - intros e He. apply B, in_map, He.
  - intros u Hu. apply in_map_iff in Hu. destruct Hu as [e [<- He]].
    apply B, He.
Qed.

Lemma markAsSpent_ids (t : JSString) (v : Z) (x : JSString)
      (s s' : InMemory.Store) :
  idsInOrder s -> markAsSpent t v x s = (ok tt, s') ->
  idsInOrder s' /\ InMemory.nextId s' = InMemory.nextId s.
Proof.
  intros I M. destruct (lookupUnspent s t v) as [u|] eqn:L.
  - destruct (markAsSpent_some t v x s u L) as [M' [G _]].
    rewrite M' in M. inversion M; subst s'. clear M.
    split; [|reflexivity].
    apply idsInOrder_entries in I. destruct I as [P [N B]].
    apply idsInOrder_entries. cbn [InMemory.utxos InMemory.nextId].
    split; [exact P|]. split.
    + apply ids_after_set; [exact N|]. right. exists u. auto.
    + apply set_Forall; [exact B|]. cbn [snd].
      rewrite Forall_forall in B. apply get_In in G. exact (B _ G).
  - rewrite (markAsSpent_none t v x s L) in M. discriminate.
Qed.

Lemma insert_ids (u : NewUTXO) (s : InMemory.Store) :
  idsInOrder s ->
  idsInOrder (snd (insert u s))
  /\ InMemory.nextId (snd (insert u s)) = InMemory.nextId s + 1.
Proof.
  intros I. split; [|reflexivity].
  apply idsInOrder_entries in I. destruct I as [P [N B]].
  apply idsInOrder_entries.
  cbn [insert InMemoryUTXORepository InMemory.insert snd InMemory.utxos
       InMemory.nextId].
  rewrite Forall_forall in B. split; [lia|]. split.
  - apply ids_after_set; [exact N|]. left. cbn [utxo_id].
    intros F. apply in_map_iff in F. destruct F as [e [Ee He]].
    specialize (B e He). lia.
  - apply set_Forall.
    + apply Forall_forall. intros e He. specialize (B e He). lia.
    + cbn [snd utxo_id]. lia.
Qed.

Lemma spendInputs_ids (x : JSString) (ins : list Input)
      (s s' : InMemory.Store) :
  idsInOrder s -> spendInputs x ins s = (ok tt, s') ->
  idsInOrder s' /\ InMemory.nextId s' = InMemory.nextId s.
Proof.
  revert s; induction ins as [|i ins IH]; intros s I; cbn [spendInputs].
  - intros E; inversion E; subst. auto.
  - destruct (isCoinbaseInput (txId i)); [apply IH, I|].
    destruct (markAsSpent (txId i) (index i) x s) as [[[]|e] s1] eqn:M;
      [|discriminate].
    destruct (markAsSpent_ids _ _ _ _ _ I M) as [I1 N1].
    intros S. destruct (IH s1 I1 S) as [I' N']. split; [exact I' | lia].
Qed.

Lemma createOutputs_ids (x : JSString) (h : Z) (outs : list Output) (i : nat)
      (s s' : InMemory.Store) :
  idsInOrder s -> createOutputs x h i outs s = (ok tt, s') ->
  idsInOrder s'
  /\ InMemory.nextId s' = InMemory.nextId s + Z.of_nat (length outs).
Proof.
  revert i s; induction outs as [|o outs IH]; intros i s I;
    cbn [createOutputs].
  - intros E; inversion E; subst. split; [exact I | cbn; lia].
  - match goal with
    | |- context [insert ?u s] =>
        destruct (insert_ids u s I) as [I1 N1];
        destruct (insert u s) as [r s1] eqn:Ins
    end.
    cbn [snd] in I1, N1.
    assert (Er : r = ok tt) by (cbn in Ins; inversion Ins; reflexivity).
    subst r. intros C. destruct (IH (S i) s1 I1 C) as [I' N'].
    split; [exact I'|]. cbn [length]. lia.
Qed.

Lemma processTransactions_ids (h : Z) (txs : list Transaction)
      (s s' : InMemory.Store) :
  idsInOrder s -> processTransactions h txs s = (ok tt, s') ->
  idsInOrder s'
  /\ InMemory.nextId s'
     = InMemory.nextId s
       + Z.of_nat (length (flat_map outputs txs)).
Proof.
  revert s; induction txs as [|tx txs IH]; intros s I;
    cbn [processTransactions].
  - intros E; inversion E; subst. split; [exact I | cbn; lia].
  - unfold processTransaction.
    destruct (spendInputs (tx_id tx) (inputs tx) s) as [[[]|e] s1] eqn:S1;
      [|discriminate].
    destruct (createOutputs (tx_id tx) h 0 (outputs tx) s1) as [[[]|e] s2] eqn:C;
      [|discriminate].
    destruct (spendInputs_ids _ _ _ _ I S1) as [I1 N1].
    destruct (createOutputs_ids _ _ _ _ _ _ I1 C) as [I2 N2].
    intros E. destruct (IH s2 I2 E) as [I' N']. split; [exact I'|].
    cbn [flat_map]. rewrite length_app. lia.
Qed.

Lemma distinct_images_kept {A B} (keep : A -> bool) (g : A -> B)
      (xs : list A) :
  NoDup (map g xs) -> NoDup (map g (filter keep xs)).
Proof.
  induction xs as [|a l IH]; cbn; [auto|].
  intros N. inversion N as [|? ? Hn N']; subst.
  destruct (keep a); cbn; [|apply IH, N'].
  constructor; [|apply IH, N'].
  intros F. apply Hn. apply in_map_iff in F. destruct F as [y [Ey Hy]].
  apply filter_In in Hy. apply in_map_iff. exists y. split; [exact Ey|apply Hy].
Qed.

Lemma rolledBack_ids (t : Z) (s : InMemory.Store) :
  idsInOrder s ->
  idsInOrder (InMemory.mkStore (rolledBack t (InMemory.utxos s))
                               (InMemory.nextId s)).
Proof.
  intros [P [N B]]. unfold idsInOrder, rows. cbn [InMemory.utxos InMemory.nextId].
  assert (Ids : map utxo_id (JSMap.values (rolledBack t (InMemory.utxos s)))
                = map utxo_id
                      (filter (fun u => negb (blockHeight u >? t))
                              (JSMap.values (InMemory.utxos s)))).
  { pose proof (rolledBack_written t (InMemory.utxos s)) as W.
    apply (f_equal (map (fun w : Z * JSString * Z * JSString * Z * JSString
                                 * Z * Date =>
                           fst (fst (fst (fst (fst (fst (fst w))))))))) in W.
    rewrite !map_map in W. exact W. }
  split; [exact P|]. split.
  - rewrite Ids. apply distinct_images_kept, N.
  - intros u Hu.
    assert (Hi : In (utxo_id u)
                    (map utxo_id (JSMap.values (rolledBack t (InMemory.utxos s)))))
      by (apply in_map, Hu).
    rewrite Ids in Hi. apply in_map_iff in Hi. destruct Hi as [w [Ew Hw]].
    apply filter_In in Hw. rewrite <- Ew. apply B, Hw.
Qed.

Lemma reached_ids (s : InMemory.Store) : reached s -> idsInOrder s.
Proof.
  intros R. induction R as [|r s s' R IH Hs].
  - split; [cbn; lia|]. split; [constructor | intros u []].
  - destruct r as [b | t]; cbn [handle] in Hs.
    + apply processBlock_ok_inv in Hs. destruct Hs as [_ [_ [_ Pt]]].
      apply (processTransactions_ids _ _ _ _ IH Pt).
    + pose proof (rollbackToHeight_ok_inv _ _ _ Hs) as [Ht Ha].
      rewrite (rollbackToHeight_ok t s) in Hs;
        [|apply reached_wf, R | exact Ht | exact Ha].
      inversion Hs; subst. apply rolledBack_ids, IH.
Qed.

(** X23.  The identifiers of rows are never used twice.  In every store
    reached from the empty one by accepted blocks and successful
    rollbacks, the rows have distinct identifiers, all from 1 to below the
    counter; an accepted block advances the counter by the number of its
    outputs, and a rollback leaves it where it is, so that the identifiers
    of rows it deleted are not handed out again. *)
Theorem row_ids_never_reused (s : InMemory.Store) :
  reached s ->
  NoDup (map utxo_id (rows s))
  /\ (forall u, In u (rows s) -> 1 <= utxo_id u < InMemory.nextId s)
  /\ (forall b s', processBlock b s = (ok tt, s') ->
        InMemory.nextId s'
        = InMemory.nextId s
          + Z.of_nat (length (flat_map outputs (transactions b))))
  /\ (forall t s', rollbackToHeight t s = (ok tt, s') ->
        InMemory.nextId s' = InMemory.nextId s).
Proof.
  intros R. destruct (reached_ids s R) as [P [N B]].
  split; [exact N|]. split; [exact B|]. split.
  - intros b s' Pb. apply processBlock_ok_inv in Pb.
    destruct Pb as [_ [_ [_ Pt]]].
    apply (processTransactions_ids _ _ _ _ (reached_ids s R) Pt).
  - intros t s' Rb. pose proof (rollbackToHeight_ok_inv _ _ _ Rb) as [Ht Ha].
    rewrite (rollbackToHeight_ok t s) in Rb;
      [|apply reached_wf, R | exact Ht | exact Ha].
    inversion Rb; subst. reflexivity.
Qed.

Lemma row_ids_never_reused_witness :
  NoDup (map utxo_id (rows (storeAfter [readmeBlock1; readmeBlock2]))).
Proof.
  apply (proj1 (row_ids_never_reused (storeAfter [readmeBlock1; readmeBlock2])
                                     reached_readme2)).
Defined.

(** * A block that the store interrupts *)

Section Through.
Variable m : InMemory.Store.
Variable th : Method -> bool.

Lemma through_getMaxBlockHeight :
  th GetMaxBlockHeight = false ->
  getMaxBlockHeight (mkThrowing m th) = (ok (tip m), mkThrowing m th).
Proof.
  intros T. cbn [getMaxBlockHeight ThrowingUTXORepository].
  rewrite guarded_runs by exact T. cbn [inner throws].
  rewrite getMaxBlockHeight_tip. reflexivity.
Qed.

Lemma through_find (refs : list Ref) :
  th FindByTxIdsAndVouts = false ->
  findByTxIdsAndVouts refs (mkThrowing m th)
  = (ok (found m refs), mkThrowing m th).
Proof.
  intros T. cbn [findByTxIdsAndVouts ThrowingUTXORepository].
  rewrite guarded_runs by exact T. cbn [inner throws].
  rewrite findByTxIdsAndVouts_found. reflexivity.
Qed.

Lemma through_validateInputOutputSum (b : Block) :
  th FindByTxIdsAndVouts = false ->
  validateInputOutputSum b (mkThrowing m th)
  = (fst (validateInputOutputSum b m), mkThrowing m th).
Proof.
  intros T. unfold validateInputOutputSum, validateRegularTransactions.
  destruct (validateCoinbaseTransactions (transactions b)); [|reflexivity].
  destruct (length (filter isRegularTransaction (transactions b)) =? 0)%nat;
    [reflexivity|].
  rewrite through_find by exact T. rewrite findByTxIdsAndVouts_found.
  cbn [fst].
  match goal with |- context [checkRegularTransactions ?a ?b] =>
    destruct (checkRegularTransactions a b) end; reflexivity.
Qed.
End Through.

Lemma through_spendInputs (th : Method -> bool) (x : JSString)
      (ins : list Input) (m : InMemory.Store) :
  th MarkAsSpent = false ->
  spendInputs x ins (mkThrowing m th)
  = (fst (spendInputs x ins m), mkThrowing (snd (spendInputs x ins m)) th).
Proof.
  intros T. revert m; induction ins as [|i ins IH]; intros m;
    cbn [spendInputs]; [reflexivity|].
  destruct (isCoinbaseInput (txId i)); [apply IH|].
  cbn [markAsSpent ThrowingUTXORepository].
  rewrite guarded_runs by exact T. cbn [inner throws].
  change (@markAsSpent InMemory.Store InMemoryUTXORepository)
    with InMemory.markAsSpent.
  destruct (InMemory.markAsSpent (txId i) (index i) x m) as [[[]|e] m1];
    cbn [fst snd]; [apply IH | reflexivity].
Qed.

(** X24.  A block is not undone when the store fails while it is
    applied.  When a block passes the three checks, the inputs of its
    first transaction are marked one after the other, and [insert] then
    fails on its first output, [processBlock] fails with [DatabaseError],
    the route replies with status 500, and the store is left with those
    inputs marked spent by the transaction and none of its outputs
    created. *)
Theorem block_interrupted (b : Block) (s : Throwing InMemory.Store)
        (tx : Transaction) (rest : list Transaction) :
  throws s GetMaxBlockHeight = false ->
  throws s FindByTxIdsAndVouts = false ->
  throws s MarkAsSpent = false ->
  throws s Insert = true ->
  height b = tip (inner s) + 1 ->
  fst (validateInputOutputSum b (inner s)) = ok tt ->
  id b = expectedHash b ->
  transactions b = tx :: rest ->
  outputs tx <> [] ->
  fst (spendInputs (tx_id tx) (inputs tx) (inner s)) = ok tt ->
  processBlock b s
  = (err (DatabaseError 500),
     mkThrowing (snd (spendInputs (tx_id tx) (inputs tx) (inner s)))
                (throws s))
  /\ fst (blocksRoute b s)
     = mkReply 500 (Error (js "Database operation failed"))
  /\ (forall i, In i (inputs tx) -> isCoinbaseInput (txId i) = false ->
        exists u,
          fst (findByTxIdsAndVouts [mkRef (txId i) (index i)] (inner s))
          = ok [u]
          /\ JSMap.get
               (InMemory.utxos
                  (snd (spendInputs (tx_id tx) (inputs tx) (inner s))))
               (InMemory.getKey (txId i) (index i))
             = Some (InMemory.withSpent u (tx_id tx)))
  /\ map fst (InMemory.utxos
                (snd (spendInputs (tx_id tx) (inputs tx) (inner s))))
     = map fst (InMemory.utxos (inner s)).
Proof.
  intros Tg Tf Tm Ti Hh V Hid Et Ho Sp. destruct s as [m th].
  cbn [inner throws] in *.
  assert (Pb : processBlock b (mkThrowing m th)
               = (err (DatabaseError 500),
                  mkThrowing (snd (spendInputs (tx_id tx) (inputs tx) m)) th)).
  { unfold processBlock, validateHeight.
    rewrite through_getMaxBlockHeight by exact Tg.
    replace (height b =? tip m + 1) with true by (symmetry; apply Z.eqb_eq, Hh).
    cbn [negb]. rewrite through_validateInputOutputSum by exact Tf. rewrite V.
    destruct (validateBlockId_spec b) as [[_ Ok] | [N _]];
      [rewrite Ok | contradiction].
    rewrite Et. cbn [processTransactions]. unfold processTransaction.
    rewrite through_spendInputs by exact Tm. rewrite Sp.
    destruct (outputs tx) as [|o outs]; [contradiction|].
    cbn [createOutputs insert ThrowingUTXORepository].
    rewrite guarded_throws by exact Ti. reflexivity. }
  split; [exact Pb|]. split.
  - unfold blocksRoute. rewrite Pb. reflexivity.
  - destruct (spendInputs (tx_id tx) (inputs tx) m) as [r m1] eqn:S1.
    cbn [fst snd] in *. subst r.
    destruct (spendInputs_effect _ _ _ _ S1) as [B _].
    destruct (spendInputs_value (fun _ => true) _ _ _ _ S1) as [_ [K _]].
    split; [|exact K].
    intros i Hi Cb. destruct (B i Hi Cb) as [u [L G]]. exists u.
    split; [apply find_one_some, L | exact G].
Qed.

Lemma block_interrupted_witness :
  processBlock readmeBlock2
    (mkThrowing (storeAfter [readmeBlock1]) (onlyThrows Insert))
  = (err (DatabaseError 500),
     mkThrowing
       (snd (spendInputs (padTxId (js "tx2")) [mkInput (padTxId (js "tx1")) 0]
                         (storeAfter [readmeBlock1])))
       (onlyThrows Insert)).
Proof.
  apply (proj1 (block_interrupted
                  readmeBlock2
                  (mkThrowing (storeAfter [readmeBlock1]) (onlyThrows Insert))
                  (mkTransaction (padTxId (js "tx2"))
                                 [mkInput (padTxId (js "tx1")) 0]
                                 [mkOutput (js "addr2") 4;
                                  mkOutput (js "addr3") 6])
                  []
                  ltac:(reflexivity) ltac:(reflexivity) ltac:(reflexivity)
                  ltac:(reflexivity)
                  ltac:(vm_compute; reflexivity)
                  ltac:(vm_compute; reflexivity)
                  ltac:(vm_compute; reflexivity)
                  ltac:(reflexivity)
                  ltac:(discriminate)
                  ltac:(vm_compute; reflexivity))).
Defined.

(** * The block builder of the test suites *)

Lemma padTxId_coinbase (t : JSString) :
  isCoinbaseInput (padTxId t) = true
  <-> Forall (fun c => c = 48) (firstn 64 t).
Proof.
  rewrite isCoinbaseInput_spec. split.
  - intros [_ F]. rewrite padTxId_form in F.
    apply Forall_app in F. apply F.
  - intros F. split.
    + intros E. pose proof (padTxId_length t) as L. rewrite E in L.
      discriminate.
    + rewrite padTxId_form. apply Forall_app. split; [exact F|].
      apply Forall_forall. intros c Hc. apply repeat_spec in Hc. exact Hc.
Qed.

(** X25.  A block built by [createValidBlock], the helper of the test
    suites, passes the identity check whatever its height and
    transactions; its identifier is the one expected of the block with
    the identifiers as they were given, and its transaction identifiers
    all have 64 code units.  The padding the helper applies to the
    identifiers of inputs keeps a coinbase input a coinbase input; an
    identifier becomes a coinbase input by it exactly when its first 64
    code units are all ['0'], as is the case of the empty identifier. *)
Theorem createValidBlock_valid (h : Z) (txs : list Transaction) :
  validateBlockId (createValidBlock h txs) = ok tt
  /\ height (createValidBlock h txs) = h
  /\ id (createValidBlock h txs) = expectedHash (mkBlock [] h txs)
  /\ Forall (fun tx => length (tx_id tx) = 64%nat)
            (transactions (createValidBlock h txs))
  /\ (forall t, isCoinbaseInput t = true -> isCoinbaseInput (padTxId t) = true)
  /\ (forall t, isCoinbaseInput (padTxId t) = true
                <-> Forall (fun c => c = 48) (firstn 64 t))
  /\ isCoinbaseInput [] = false
  /\ isCoinbaseInput (padTxId []) = true.
Proof.
  split; [|split; [reflexivity|split; [|split; [|split; [|split]]]]].
  - unfold validateBlockId, createValidBlock, expectedHash, calculateBlockId.
    cbn [id height transactions]. rewrite JSString_eqb_refl. reflexivity.
  - unfold createValidBlock, expectedHash, calculateBlockId.
    cbn [id height transactions]. f_equal. f_equal. f_equal.
    rewrite map_map. apply map_ext. intros tx. cbn [tx_id].
    apply padTxId_fixed, padTxId_length.
  - unfold createValidBlock. cbn [transactions]. apply Forall_forall.
    intros tx Ht. apply in_map_iff in Ht. destruct Ht as [tx0 [<- _]].
    cbn [tx_id]. apply padTxId_length.
  - intros t Ht. apply padTxId_coinbase. apply isCoinbaseInput_spec in Ht.
    destruct Ht as [_ F]. rewrite Forall_forall in F |- *.
    intros c Hc. apply F. rewrite <- (firstn_skipn 64 t). apply in_or_app.
    left. exact Hc.
  - apply padTxId_coinbase.
  - split; [reflexivity|]. apply padTxId_coinbase. constructor.
Qed.

Lemma createValidBlock_valid_witness :
  isCoinbaseInput (padTxId (js "0")) = true.
Proof.
  apply (proj1 (proj2 (proj2 (proj2 (proj2
           (createValidBlock_valid 1 [mkTransaction (js "tx1") [] []])))))
           (js "0")).
  reflexivity.
Defined.

(** * How the tip moves *)

Lemma spendInputs_keeps_some (Q : UTXO -> Prop) (x : JSString)
      (ins : list Input) (s s' : InMemory.Store) :
  (forall u y, Q u -> Q (InMemory.withSpent u y)) ->
  (exists e, In e (InMemory.utxos s) /\ Q (snd e)) ->
  spendInputs x ins s = (ok tt, s') ->
  exists e, In e (InMemory.utxos s') /\ Q (snd e).
Proof.
  intros Qs. revert s; induction ins as [|i ins IH]; intros s Hq;
    cbn [spendInputs].
  - intros E; inversion E; subst; exact Hq.
  - destruct (isCoinbaseInput (txId i)); [apply IH, Hq|].
    destruct (markAsSpent (txId i) (index i) x s) as [[[]|e] s1] eqn:M;
      [|discriminate].
    apply IH. destruct (lookupUnspent s (txId i) (index i)) as [u|] eqn:L.
    + destruct (markAsSpent_some _ _ x s u L) as [M' [G _]].
      rewrite M' in M. inversion M; subst s1. cbn [InMemory.utxos].
      apply (set_keeps_some Q); [exact Hq|].
      intros v0 G0 Hv. rewrite G in G0. injection G0 as G0. subst v0.
      apply Qs, Hv.
    + rewrite (markAsSpent_none _ _ x s L) in M. discriminate.
Qed.

Lemma createOutputs_keeps_some (Q : UTXO -> Prop) (x : JSString) (h : Z)
      (outs : list Output) (i : nat) (s s' : InMemory.Store) :
  (forall n j o, Q (mkUTXO n x j (address o) (value o) [] h false None None
                           now)) ->
  (exists e, In e (InMemory.utxos s) /\ Q (snd e)) ->
  createOutputs x h i outs s = (ok tt, s') ->
  exists e, In e (InMemory.utxos s') /\ Q (snd e).
Proof.
  intros New. revert i s; induction outs as [|o outs IH]; intros i s Hq;
    cbn [createOutputs].
  - intros E; inversion E; subst; exact Hq.
  - cbn [insert InMemoryUTXORepository]. unfold InMemory.insert.
    cbn [new_txid new_vout new_address new_value new_scriptPubkey
         new_blockHeight new_spent].
    apply IH. cbn [InMemory.utxos]. apply (set_keeps_some Q); [exact Hq|].
    intros v0 _ _. apply New.
Qed.

Lemma processTransactions_keeps_some (Q : UTXO -> Prop) (h : Z)
      (txs : list Transaction) (s s' : InMemory.Store) :
  (forall u y, Q u -> Q (InMemory.withSpent u y)) ->
  (forall n x j o, Q (mkUTXO n x j (address o) (value o) [] h false None None
                             now)) ->
  (exists e, In e (InMemory.utxos s) /\ Q (snd e)) ->
  processTransactions h txs s = (ok tt, s') ->
  exists e, In e (InMemory.utxos s') /\ Q (snd e).
Proof.
  intros Qs New. revert s; induction txs as [|tx txs IH]; intros s Hq;
    cbn [processTransactions].
  - intros E; inversion E; subst; exact Hq.
  - unfold processTransaction.
    destruct (spendInputs (tx_id tx) (inputs tx) s) as [[[]|e] s1] eqn:S1;
      [|discriminate].
    destruct (createOutputs (tx_id tx) h 0 (outputs tx) s1) as [[[]|e] s2] eqn:C;
      [|discriminate].
    apply IH. eapply createOutputs_keeps_some; [intros; apply New | | exact C].
    eapply spendInputs_keeps_some; eauto.
Qed.

(** X26.  The tip moves one step at a time.  A block is accepted only at
    a height of 1 or more, the tip plus one; after it the tip is where it
    was or one higher, on any in-memory store, whatever the block
    overwrites.  A rollback that succeeds brings the tip to its target or
    below, which is below where it was. *)
Theorem tip_moves_by_one (s s' : InMemory.Store) :
  (forall b, processBlock b s = (ok tt, s') ->
             1 <= height b /\ height b = tip s + 1
             /\ tip s <= tip s' <= tip s + 1)
  /\ (forall t, rollbackToHeight t s = (ok tt, s') ->
                distinctKeys s -> 0 <= t /\ tip s' <= t < tip s).
Proof.
  pose proof (tip_nonneg s) as T0. split.
  - intros b Pb. apply processBlock_ok_inv in Pb.
    destruct Pb as [Hh [_ [_ Pt]]].
    split; [lia|]. split; [exact Hh|].
    assert (Up : allRows (fun u => blockHeight u <= height b) s').
    { eapply (processTransactions_allRows (fun u => blockHeight u <= height b));
        [| | |exact Pt].
      - intros u x H. exact H.
      - intros n x j o. cbn. lia.
      - unfold allRows. apply Forall_forall. intros e He.
        assert (blockHeight (snd e) <= tip s); [|lia].
        apply tip_upper. unfold rows, JSMap.values. apply in_map. exact He. }
    split.
    + destruct (tip_attained s) as [Z0 | [u [Hu Eu]]];
        [pose proof (tip_nonneg s'); lia|].
      unfold rows, JSMap.values in Hu. apply in_map_iff in Hu.
      destruct Hu as [e [Ee He]].
      destruct (processTransactions_keeps_some
                  (fun w => tip s <= blockHeight w) (height b)
                  (transactions b) s s') as [e' [He' Qe']].
      * intros w y H. exact H.
      * intros n x j o. cbn. lia.
      * exists e. split; [exact He | rewrite Ee; lia].
      * exact Pt.
      * assert (blockHeight (snd e') <= tip s'); [|lia].
        apply tip_upper. unfold rows, JSMap.values. apply in_map. exact He'.
    + destruct (tip_attained s') as [Z0 | [w [Hw Ew]]]; [lia|].
      unfold allRows in Up. rewrite Forall_forall in Up.
      unfold rows, JSMap.values in Hw. apply in_map_iff in Hw.
      destruct Hw as [e [Ee He]]. specialize (Up e He). cbn in Up.
      rewrite Ee in Up. lia.
  - intros t Rb D. pose proof (rollbackToHeight_ok_inv _ _ _ Rb) as [Ht Ha].
    rewrite (rollbackToHeight_ok t s D Ht Ha) in Rb. inversion Rb; subst s'.
    assert (Lt : t < tip s).
    { destruct (Z.eq_dec t (tip s)) as [E | N]; [|lia].
      exfalso. apply Ha. rewrite E. apply above_tip_nil. }
    split; [lia|]. split; [|exact Lt].
    match goal with |- tip ?x <= _ =>
      destruct (tip_attained x) as [Z0 | [u [Hu Eu]]] end; [lia|].
    rewrite <- Eu. unfold rows in Hu. cbn [InMemory.utxos] in Hu.
    apply rolledBack_rows in Hu. apply Hu.
Qed.

Lemma tip_moves_by_one_witness :
  1 <= height sameIdAt2
  /\ height sameIdAt2 = tip (storeAfter [readmeBlock1]) + 1
  /\ tip (storeAfter [readmeBlock1])
     <= tip (storeAfter [readmeBlock1; sameIdAt2])
     <= tip (storeAfter [readmeBlock1]) + 1.
Proof.
  apply (proj1 (tip_moves_by_one (storeAfter [readmeBlock1])
                                 (storeAfter [readmeBlock1; sameIdAt2]))
               sameIdAt2).
  vm_compute. reflexivity.
Defined.

(** * The height of a rollback request *)


